(** * CoastSat-CWL: the merge, alignment and bookkeeping logic around the
      shoreline pipeline

    A shallow embedding of the parts of the CoastSat scripts and of their CWL
    wrappers that decide how tables are merged, how time axes are aligned and
    which transects a stage touches.  The pandas operations the scripts call
    are modelled by what pandas documents for them; the numerical primitives
    of the CoastSat package ([SDS_transects.identify_outliers], [SDS_slope])
    and the tide provider are parameters. *)

From Stdlib Require Import ZArith QArith Qabs.
From stdpp Require Import base option list strings gmap sorting.

#[local] Open Scope Z_scope.

(** ** Exceptions

    Python exceptions are values: a computation yields [Ok a] or [Raise e].
    [SystemExit] is what [sys.exit(code)] raises. *)

Inductive exn : Type :=
  | ValueError
  | KeyError
  | IndexError
  | TypeError
  | AttributeError
  | FileNotFoundError
  | SystemExit (code : Z).

Inductive result (A : Type) : Type :=
  | Ok (a : A)
  | Raise (e : exn).
Arguments Ok {A} a.
Arguments Raise {A} e.

#[global] Instance result_ret : MRet result := @Ok.
#[global] Instance result_bind : MBind result := λ A B f m,
  match m with
  | Ok a => f a
  | Raise e => Raise e
  end.

(** [for_each body xs s] is [for x in xs: s = body(s, x)], stopping at the
    first exception. *)
Fixpoint for_each {A S} (body : S → A → result S) (xs : list A) (s : S)
    : result S :=
  match xs with
  | [] => Ok s
  | x :: xs' => s' ← body s x; for_each body xs' s'
  end.

(** ** Floating-point numbers

    The scripts compute on float64.  The properties below are about which cell
    receives which value, never about roundings, so the arithmetic is an
    interface: an absent value ([None]) is NaN, and an operation may yield
    NaN. *)

Class Float (F : Type) := {
  float_eq_dec :: EqDecision F;
  float_of_Z : Z → F;
  fadd : F → F → option F;
  fdiv : F → F → option F;
  (** [lerp a b k n]: what np.interp gives at step [k] of [n] equal steps
      from [a] to [b]. *)
  lerp : F → F → nat → nat → option F;
}.

(** Exact rational arithmetic, for running the definitions on inputs where
    float64 is exact.  A zero divisor gives NaN here. *)
#[global] Instance Q_eq_dec : EqDecision Q.
Proof. solve_decision. Defined.

#[global] Instance Q_float : Float Q := {|
  float_of_Z z := (z # 1)%Q;
  fadd x y := Some (Qred (x + y));
  fdiv x y := if Qeq_bool y 0 then None else Some (Qred (x / y));
  lerp a b k n :=
    if decide (n = 0%nat) then None
    else Some (Qred (a + (b - a) * (Z.of_nat k # 1) / (Z.of_nat n # 1)));
|}.

(** ** Data frames

    A frame lists its columns, those of numeric dtype, and its rows in order,
    each with its index label.  A row maps a column to its cell; a null cell
    (NaN, None) is an absent entry.  Labels may repeat, as in pandas. *)

Record Frame (K V : Type) : Type := mkFrame {
  columns : list string;
  numeric : list string;
  rows : list (K * gmap string V);
}.
Arguments mkFrame {K V} columns numeric rows.
Arguments columns {K V} f.
Arguments numeric {K V} f.
Arguments rows {K V} f.

(** A cell of the transect table (a GeoJSON property): a number or a
    string. *)
Inductive value (F : Type) : Type :=
  | Num (x : F)
  | Str (s : string).
Arguments Num {F} x.
Arguments Str {F} s.

#[global] Instance value_eq_dec `{Float F} : EqDecision (value F).
Proof. solve_decision. Defined.

Section frames.
Context {K V : Type} `{EqDecision K} `{EqDecision V}.
Implicit Types (df base site self other : Frame K V).
Implicit Types (r : K * gmap string V) (k : K) (c col : string).

(** [df.index] *)
Definition index df : list K := (rows df).*1.

(** [df.select_dtypes(include=[np.number]).columns.tolist()] *)
Definition select_dtypes_number df : list string :=
  filter (λ c, c ∈ numeric df) (columns df).

(** [Index.unique()]: first occurrences, in order. *)
Fixpoint unique (l : list K) : list K :=
  match l with
  | [] => []
  | k :: l' => k :: filter (λ k', k' ≠ k) (unique l')
  end.

(** [a.intersection(b)]: the distinct labels of [a] found in [b], in the
    order of [a]. *)
Definition intersection (a b : list K) : list K :=
  filter (λ k, k ∈ b) (unique a).

(** [df.loc[k]]: every row labelled [k]. *)
Definition loc_rows df k : list (gmap string V) :=
  (filter (λ r, r.1 = k) (rows df)).*2.

(** [df.loc[k, c]] where a scalar is needed: with a repeated label pandas
    returns a Series, and [if pd.notna(series)] raises ValueError. *)
Definition loc df k c : result (option V) :=
  match loc_rows df k with
  | [] => Raise KeyError
  | [row] => Ok (row !! c)
  | _ => Raise ValueError
  end.

(** [df.loc[k, c] = v] for a label [k] of the frame: every row labelled [k]
    is assigned. *)
Definition loc_set df k c (v : V) : Frame K V :=
  mkFrame (columns df) (numeric df)
    ((λ r, if decide (r.1 = k) then (r.1, <[c:=v]> r.2) else r) <$> rows df).

(** [df.drop_duplicates()]: of rows with equal cells, the first is kept; the
    labels are not compared. *)
Fixpoint keep_first (rs : list (K * gmap string V)) : list (K * gmap string V) :=
  match rs with
  | [] => []
  | r :: rs' => r :: filter (λ r', r'.2 ≠ r.2) (keep_first rs')
  end.

Definition drop_duplicates df : Frame K V :=
  mkFrame (columns df) (numeric df) (keep_first (rows df)).

(** [df.reindex(target)], with [fill] as the row of a label [df] lacks.
    pandas returns the frame as it is when [target] is its index, and refuses
    to reindex a frame whose labels repeat. *)
Definition reindex df (target : list K) (fill : gmap string V)
    : result (Frame K V) :=
  if decide (index df = target) then Ok df
  else if decide (NoDup (index df)) then
    Ok (mkFrame (columns df) (numeric df)
          ((λ k, (k, default fill (head (loc_rows df k)))) <$> target))
  else Raise ValueError.

(** One row of [self.update(other)]: for each column the two frames share,
    the cell of [other] replaces the cell of [self] unless it is null. *)
Definition update_row (cols : list string) (this that : gmap string V)
    : gmap string V :=
  foldr (λ col row,
           match that !! col with
           | Some v => <[col:=v]> row
           | None => row
           end) this cols.

(** [self.update(other)]: [other] is reindexed on the labels of [self],
    then written over [self] column by column, nulls of [other] apart. *)
Definition update self other : result (Frame K V) :=
  other' ← reindex other (index self) ∅;
  Ok (mkFrame (columns self) (numeric self)
        (zip_with (λ r o, (r.1, update_row
                                  (filter (λ c, c ∈ columns other) (columns self))
                                  r.2 o.2))
           (rows self) (rows other'))).

(** [df[cols]] *)
Definition select_columns df (cols : list string) : Frame K V :=
  mkFrame cols (filter (λ c, c ∈ cols) (numeric df))
    ((λ r, (r.1, filter (λ kv, kv.1 ∈ cols) r.2)) <$> rows df).

(** The cells a joined row takes from a row of the right frame. *)
Definition set_columns (cols : list string) (that this : gmap string V)
    : gmap string V :=
  foldr (λ col row,
           match that !! col with
           | Some v => <[col:=v]> row
           | None => delete col row
           end) this cols.

(** [self.join(other)], a left join on the index: a row of [self] is paired
    with every row of [other] of its label, and with nulls when there is
    none.  The columns of [other] are new to [self] where it is called. *)
Definition join self other : Frame K V :=
  mkFrame (columns self ++ columns other) (numeric self ++ numeric other)
    (r ← rows self;
     (λ that, (r.1, set_columns (columns other) that r.2)) <$>
       match loc_rows other r.1 with
       | [] => [∅]
       | ms => ms
       end).

(** [pd.concat(frames)]: the rows of the frames in order, under the union of
    their columns. *)
Definition concat (frames : list (Frame K V)) : Frame K V :=
  mkFrame (remove_dups (mjoin (columns <$> frames)))
    (remove_dups (mjoin (numeric <$> frames)))
    (mjoin (rows <$> frames)).
End frames.

(** ** Time series

    A [transect_time_series.csv] has the columns [dates], [satname] and one
    column of chainages per transect: the pair of the first two is the label
    of a row here.  A timestamp is a number of seconds since the epoch, UTC;
    a date is a number of days since the epoch. *)

Definition round_10min (t : Z) : Z :=
  let q := t / 600 in
  let r := t mod 600 in
  if r <? 300 then 600 * q
  else if 300 <? r then 600 * (q + 1)
  else if Z.even q then 600 * q
  else 600 * (q + 1).

Section series.
Context {K V : Type} `{EqDecision K}.

(** [df[c]]: a column with its index. *)
Definition column (df : Frame K V) (c : string) : list (K * option V) :=
  (λ r, (r.1, r.2 !! c)) <$> rows df.

(** [series.dropna()] *)
Definition dropna (s : list (K * option V)) : list (K * V) :=
  omap (λ kv, (λ v, (kv.1, v)) <$> kv.2) s.

(** [pd.Series(values, index=index)] *)
Definition Series (values : list V) (index : list K) : result (list (K * V)) :=
  if decide (length values = length index) then Ok (zip index values)
  else Raise ValueError.

(** [df.loc[labels]]: for each label in turn, every row that carries it. *)
Definition loc_list (df : Frame K V) (labels : list K) : Frame K V :=
  mkFrame (columns df) (numeric df)
    (k ← labels; (λ row, (k, row)) <$> loc_rows df k).

(** [array[mask]] with a boolean mask: numpy refuses a mask of another
    length. *)
Definition mask_select {A} (a : list A) (mask : list bool) : result (list A) :=
  if decide (length mask = length a) then
    Ok ((filter (λ bx, bx.1 = true) (zip mask a)).*2)
  else Raise IndexError.
End series.

(** [df.sort_values(by)], [df.sort_index()]: pandas sorts with its default
    kind, quicksort, which it documents as not stable.  What the scripts can
    rely on is that the rows come back sorted; the order between rows of
    equal key is the sorter's. *)
Class Sorter := {
  sort_by : ∀ {A : Type}, (A → Z) → list A → list A;
  sort_by_perm : ∀ {A} (key : A → Z) (l : list A), sort_by key l ≡ₚ l;
  sort_by_sorted : ∀ {A} (key : A → Z) (l : list A),
    Sorted (λ a b, key a ≤ key b) (sort_by key l);
}.

(** Two sorters by insertion: one leaves rows of equal key in input order,
    the other reverses them. *)
Fixpoint insert_by {A} (before : Z → Z → bool) (key : A → Z) (x : A)
    (l : list A) : list A :=
  match l with
  | [] => [x]
  | y :: l' =>
    if before (key x) (key y) then x :: y :: l'
    else y :: insert_by before key x l'
  end.

Definition insertion_sort {A} (before : Z → Z → bool) (key : A → Z)
    (l : list A) : list A :=
  foldr (insert_by before key) [] l.

(** ** tools/aggregate-transects/aggregate_transects_wrapper.py *)

Module aggregate_transects_wrapper.
Section aggregate.
Context {F : Type} `{Float F}.
Implicit Types (base_gdf site_gdf : Frame string (value F)).

(** Lines 56-68: the columns a site file may update. *)
Definition cols_to_update (update_columns : option (list string))
    base_gdf site_gdf : list string :=
  let update_cols :=
    match update_columns with
    | None => select_dtypes_number site_gdf
    | Some cols => cols
    end in
  filter (λ col, col ∈ columns site_gdf ∧ col ∈ columns base_gdf) update_cols.

(** Lines 83-88: the body of the two loops.
    [if pd.notna(site_gdf.loc[id, col]): base_gdf.loc[id, col] = ...] *)
Definition update_cell site_gdf (transect_id : string) base_gdf (col : string)
    : result (Frame string (value F)) :=
  cell ← loc site_gdf transect_id col;
  match cell with
  | Some v => Ok (loc_set base_gdf transect_id col v)
  | None => Ok base_gdf
  end.

(** Lines 53-90: one per-site file folded into the base table. *)
Definition merge_site (update_columns : option (list string))
    base_gdf site_gdf : result (Frame string (value F)) :=
  let cols := cols_to_update update_columns base_gdf site_gdf in
  if decide (cols = []) then Ok base_gdf
  else
    let common_ids := intersection (index base_gdf) (index site_gdf) in
    if decide (common_ids = []) then Ok base_gdf
    else
      for_each (λ base transect_id,
                  for_each (update_cell site_gdf transect_id) cols base)
        common_ids base_gdf.

(** [aggregate_transects]: the table written to [output_file].  A per-site
    file that does not exist is [None] and is skipped. *)
Definition aggregate_transects base_gdf
    (per_site_transects : list (option (Frame string (value F))))
    (update_columns : option (list string))
    : result (Frame string (value F)) :=
  match per_site_transects with
  | [] => Ok base_gdf
  | _ =>
    for_each (λ base site_file,
                match site_file with
                | None => Ok base
                | Some site_gdf => merge_site update_columns base site_gdf
                end)
      per_site_transects base_gdf
  end.
End aggregate.
End aggregate_transects_wrapper.

(** ** CoastSat-minimal/scripts/linear_models.py *)

Module linear_models.
Section linear_models.
Context {F : Type} `{Float F}.

(** Lines 153-175 of [calculate_linear_models]: the transect table saved
    after the per-file trend tables [all_trends] (each indexed by
    [transect_id]) are folded into [transects].  With no trend table the
    function returns before saving. *)
Definition calculate_linear_models (transects : Frame string (value F))
    (all_trends : list (Frame string (value F)))
    : result (Frame string (value F)) :=
  let all_trends := filter (λ t, rows t ≠ []) all_trends in
  if decide (all_trends = []) then Ok transects
  else
    let trends := concat all_trends in
    transects ← update transects (drop_duplicates trends);
    let new_columns := filter (λ c, c ∉ columns transects) (columns trends) in
    if decide (new_columns = []) then Ok transects
    else Ok (join transects (select_columns trends new_columns)).

(** [SDS_transects.identify_outliers] of the coastsat package, which is
    not among the sources: it returns the chainages and the dates it keeps,
    or raises. *)
Variable identify_outliers : list F → list Z → F → result (list F * list Z).

(** [despike] (lines 28-45): a series with no value left is returned empty
    before the outlier test. *)
Definition despike (chainage : list (Z * option F)) (threshold : F)
    : result (list (Z * F)) :=
  let chainage := dropna chainage in
  if decide (length chainage = 0%nat) then Ok []
  else
    '(chainage, dates) ←
      identify_outliers (chainage.*2) (chainage.*1) threshold;
    Series chainage dates.
End linear_models.
End linear_models.

(** ** The observation store: scripts/batch_process_NZ.py and
       tools/batch-process-nz/batch_process_nz_wrapper.py

    The scripts handle start dates as ['YYYY-MM-DD'] strings and compare
    them with [<]; between such strings that is the order of the dates, so a
    date string is its day number here.  [str] of a missing timestamp is
    ['NaT'], which sorts after every date string. *)

Inductive date_str : Type :=
  | ISO (day : Z)
  | NaT.

Definition str_lt (a b : date_str) : bool :=
  match a, b with
  | ISO x, ISO y => x <? y
  | ISO _, NaT => true
  | NaT, _ => false
  end.

(** What is found at [data/<site>/transect_time_series.csv]. *)
Inductive stored (A : Type) : Type :=
  | Absent
  | Unreadable
  | Stored (df : A).
Arguments Absent {A}.
Arguments Unreadable {A}.
Arguments Stored {A} df.

Section observation_store.
Context {F : Type} `{Float F} `{Sorter}.
Implicit Types (df new_results : Frame (Z * string) F).

(** [pd.DataFrame()] *)
Definition empty_frame {K V} : Frame K V := mkFrame [] [] [].

(** [df.dates.max()], [None] for the NaT of an empty series. *)
Definition dates_max df : option Z :=
  match (λ r, r.1.1) <$> rows df with
  | [] => None
  | t :: ts => Some (foldr Z.max t ts)
  end.

(** [str(df.dates.max().date() + timedelta(days=1))] *)
Definition day_after_last df : date_str :=
  match dates_max df with
  | Some t => ISO (t / 86400 + 1)
  | None => NaT
  end.

(** [df = pd.concat([df, new_results], ignore_index=True)]
    [df.sort_values("dates", inplace=True)] *)
Definition append df new_results : Frame (Z * string) F :=
  let df := concat [df; new_results] in
  mkFrame (columns df) (numeric df) (sort_by (λ r, r.1.1) (rows df)).
End observation_store.

Module batch_process_NZ.
Section batch.
Context {F : Type} `{Float F} `{Sorter}.

(** The environment the script reads, [FORCE_START_DATE] being [None] when
    unset or empty. *)
Record environ : Type := {
  TEST_MODE : bool;
  TEST_START_DATE : Z;
  TEST_END_DATE : Z;
  TEST_SATELLITES : list string;
  FORCE_START_DATE : option Z;
}.

(** Lines 106-132 of [process_site]: the series to append to and the start
    date to request.  Only a missing file is caught. *)
Definition min_date (env : environ) (existing : stored (Frame (Z * string) F))
    : result (Frame (Z * string) F * date_str) :=
  match FORCE_START_DATE env with
  | Some forced => Ok (empty_frame, ISO forced)
  | None =>
    match existing with
    | Stored df =>
      let min_date := day_after_last df in
      if TEST_MODE env && str_lt min_date (ISO (TEST_START_DATE env))
      then Ok (df, ISO (TEST_START_DATE env))
      else Ok (df, min_date)
    | Unreadable => Raise ValueError
    | Absent =>
      if TEST_MODE env then Ok (empty_frame, ISO (TEST_START_DATE env))
      else Ok (empty_frame, ISO 5113) (* '1984-01-01' *)
    end
  end.

(** [process_site]: the series saved for the site, [None] when the function
    returns without saving.  [extract] stands for the download, the
    shoreline extraction and the transect intersections (lines 143-228): it
    is given [inputs["dates"]] and [inputs["sat_list"]]. *)
Definition process_site (env : environ)
    (extract : date_str → Z → list string → Frame (Z * string) F)
    (existing : stored (Frame (Z * string) F))
    : result (option (Frame (Z * string) F)) :=
  '(df, min_date) ← min_date env existing;
  let end_date := if TEST_MODE env then TEST_END_DATE env else 22278 in
  let sat_list :=
    if TEST_MODE env then TEST_SATELLITES env else ["L5"; "L7"; "L8"; "L9"] in
  let new_results := extract min_date end_date sat_list in
  if decide (rows new_results = []) then Ok None
  else Ok (Some (append df new_results)).
End batch.
End batch_process_NZ.

Module batch_process_nz_wrapper.
Section batch.
Context {F : Type} `{Float F} `{Sorter}.

(** Lines 126-151 of [process_site]: any failure to read the stored series
    is caught, and the start date is clamped whatever branch set it. *)
Definition min_date (start_date : Z) (force_start_date : option Z)
    (existing : stored (Frame (Z * string) F))
    : Frame (Z * string) F * date_str :=
  let '(df, min_date) :=
    match force_start_date with
    | Some forced => (empty_frame, ISO forced)
    | None =>
      match existing with
      | Stored df => (df, day_after_last df)
      | Unreadable => (empty_frame, ISO start_date)
      | Absent => (empty_frame, ISO start_date)
      end
    end in
  if str_lt min_date (ISO start_date) then (df, ISO start_date)
  else (df, min_date).

(** [process_site]: the series saved for the site, [None] when the function
    returns without saving. *)
Definition process_site (start_date end_date : Z)
    (sat_list : option (list string)) (force_start_date : option Z)
    (extract : date_str → Z → list string → Frame (Z * string) F)
    (existing : stored (Frame (Z * string) F))
    : option (Frame (Z * string) F) :=
  let '(df, min_date) := min_date start_date force_start_date existing in
  let sat_list := default ["L5"; "L7"; "L8"; "L9"] sat_list in
  let new_results := extract min_date end_date sat_list in
  if decide (rows new_results = []) then None
  else Some (append df new_results).
End batch.
End batch_process_nz_wrapper.

(** ** Tidal correction: scripts/tidal_correction.py and
       tools/tidal-correction-apply/tidal_correction_apply_wrapper.py *)

Section gap_filling.
Context {F : Type} `{Float F}.

(** The first valid value of a series and the number of nulls before it. *)
Fixpoint next_valid (l : list (option F)) : option (nat * F) :=
  match l with
  | [] => None
  | Some b :: _ => Some (0%nat, b)
  | None :: l' => (λ '(d, b), (S d, b)) <$> next_valid l'
  end.

(** [interpolate_from a k l]: the series [l] that follows, at [k] nulls'
    distance, the valid value [a]. *)
Fixpoint interpolate_from (a : F) (k : nat) (l : list (option F))
    : list (option F) :=
  match l with
  | [] => []
  | Some b :: l' => Some b :: interpolate_from b 0 l'
  | None :: l' =>
    match next_valid l' with
    | Some (d, b) => lerp a b (S k) (S k + S d)
    | None => Some a
    end :: interpolate_from a (S k) l'
  end.

(** [series.interpolate()]: linear in the position, forward: nulls between
    two valid values are interpolated, nulls after the last valid value
    repeat it, nulls before the first stay. *)
Fixpoint interpolate (l : list (option F)) : list (option F) :=
  match l with
  | [] => []
  | None :: l' => None :: interpolate l'
  | Some a :: l' => Some a :: interpolate_from a 0 l'
  end.

(** [series.ffill()] *)
Fixpoint ffill_from (last : option F) (l : list (option F)) : list (option F) :=
  match l with
  | [] => []
  | Some a :: l' => Some a :: ffill_from (Some a) l'
  | None :: l' => last :: ffill_from last l'
  end.

Definition ffill (l : list (option F)) : list (option F) := ffill_from None l.

(** [series.bfill()] *)
Definition bfill (l : list (option F)) : list (option F) :=
  reverse (ffill (reverse l)).
End gap_filling.

Section correction.
Context {F : Type} `{Float F}.
Implicit Types (raw_intersects tides corrections : Frame Z F).
Implicit Types (transects transects_at_site : Frame string (value F)).

(** The float in a cell of a float column. *)
Definition float_cell (cell : option (value F)) : option F :=
  match cell with
  | Some (Num x) => Some x
  | _ => None
  end.

(** [gpd.read_file(...).drop_duplicates(subset="id")]: the first row of
    each id. *)
Fixpoint drop_duplicates_id (rs : list (string * gmap string (value F)))
    : list (string * gmap string (value F)) :=
  match rs with
  | [] => []
  | r :: rs' => r :: filter (λ r', r'.1 ≠ r.1) (drop_duplicates_id rs')
  end.

(** [transects[transects.site_id == sitename]] *)
Definition at_site transects (sitename : string) : Frame string (value F) :=
  mkFrame (columns transects) (numeric transects)
    (filter (λ r, r.2 !! "site_id" = Some (Str sitename)) (rows transects)).

(** [transects_at_site.beach_slope.interpolate().bfill().ffill()] *)
Definition beach_slopes transects_at_site : list (string * option F) :=
  zip (index transects_at_site)
    (ffill (bfill (interpolate
       ((λ r, float_cell (r.2 !! "beach_slope")) <$> rows transects_at_site)))).

(** [tide / beach_slopes]: one row of corrections. *)
Definition correction_row (slopes : list (string * option F))
    (tide : option F) : gmap string F :=
  list_to_map
    (omap (λ '(id, slope), s ← slope; t ← tide; x ← fdiv t s; Some (id, x))
       slopes).

(** [tides.tide.apply(lambda tide: tide / beach_slopes)]: a frame with the
    index of [tides] and a column per transect.  On an empty series [apply]
    returns a Series, and the [corrections.columns] that follows raises
    AttributeError. *)
Definition tide_corrections tides (slopes : list (string * option F))
    : result (Frame Z F) :=
  if decide (rows tides = []) then Raise AttributeError
  else Ok (mkFrame (slopes.*1) (slopes.*1)
             ((λ r, (r.1, correction_row slopes (r.2 !! "tide"))) <$> rows tides)).

(** The row [reindex(..., fill_value=0)] gives a label that is missing. *)
Definition zero_row (cols : list string) : gmap string F :=
  list_to_map ((λ c, (c, float_of_Z 0)) <$> cols).

(** [raw_intersects + corrections] for two frames of the same index, as
    they are where the sum is taken: the columns are united, a cell is the
    sum of the two cells, and is null when either is. *)
Definition frame_add (a b : Frame Z F) : Frame Z F :=
  mkFrame (columns a ++ filter (λ c, c ∉ columns a) (columns b))
    (numeric a ++ filter (λ c, c ∉ numeric a) (numeric b))
    (zip_with (λ ra rb, (ra.1, intersection_with fadd ra.2 rb.2))
       (rows a) (rows b)).

(** Lines 300-312 of [process_site] (74-84 of the wrapper's [main]): the
    corrections, one row per row of the raw table, rows of zeros where the
    tides have no sample of the raw timestamp. *)
Definition aligned_corrections raw_intersects tides transects_at_site
    : result (Frame Z F) :=
  let beach_slopes := beach_slopes transects_at_site in
  corrections ← tide_corrections tides beach_slopes;
  reindex corrections (index raw_intersects) (zero_row (columns corrections)).

(** Line 318 (90 of the wrapper): the tidally corrected table before
    despiking. *)
Definition tidally_corrected raw_intersects tides transects_at_site
    : result (Frame Z F) :=
  corrections ← aligned_corrections raw_intersects tides transects_at_site;
  Ok (frame_add raw_intersects corrections).

(** [pd.to_datetime(raw_intersects.dates).dt.round("10min")] *)
Definition sat_times (csv : Frame (Z * string) F) : list Z :=
  (λ r, round_10min r.1.1) <$> rows csv.

(** [raw_intersects.set_index("dates")], without the [satname] column. *)
Definition set_index_dates (csv : Frame (Z * string) F) : Frame Z F :=
  mkFrame (columns csv) (numeric csv) ((λ r, (r.1.1, r.2)) <$> rows csv).

(** [tides[tides.index.isin(sat_times)]] *)
Definition isin_sat_times tides (sat_times : list Z) : Frame Z F :=
  mkFrame (columns tides) (numeric tides)
    (filter (λ r, r.1 ∈ sat_times) (rows tides)).
End correction.

(** The files of [data/<sitename>/]. *)
Record site_files (F : Type) : Type := mkSiteFiles {
  transect_time_series : option (Frame (Z * string) F);
  tides_csv : option (Frame Z F);
  transect_time_series_tidally_corrected :
    option (Frame (Z * option string) F);
}.
Arguments mkSiteFiles {F} _ _ _.
Arguments transect_time_series {F} s.
Arguments tides_csv {F} s.
Arguments transect_time_series_tidally_corrected {F} s.

Section despiking.
Context {F : Type} `{Float F}.

(** [SDS_transects.identify_outliers(chainage, dates, threshold)] of the
    coastsat package, which is not among the sources: it returns the
    chainages and the dates it keeps, or raises. *)
Variable identify_outliers : list F → list Z → F → result (list F * list Z).

(** [pd.DataFrame] from a column of Series each: pandas aligns them on the
    union of their indexes. *)
Variable DataFrame_of_columns : list (string * list (Z * F)) → result (Frame Z F).

(** [despike] of scripts/tidal_correction.py (lines 166-179) and of the
    tidal-correction-apply wrapper (lines 15-28). *)
Definition despike (chainage : list (Z * option F)) (threshold : F)
    : result (list (Z * F)) :=
  let chainage := dropna chainage in
  '(chainage, dates) ←
    identify_outliers (chainage.*2) (chainage.*1) threshold;
  Series chainage dates.

(** [tidally_corrected.apply(despike, axis=0)] *)
Definition apply_despike (tidally_corrected : Frame Z F) : result (Frame Z F) :=
  cols ← mapM (λ c, s ← despike (column tidally_corrected c) (float_of_Z 40);
                    Ok (c, s))
            (columns tidally_corrected);
  DataFrame_of_columns cols.

(** Lines 320-337 of [process_site] (92-110 of the wrapper's [main]): the
    table despiked column by column, [None] when no row is left, and the
    [satname] column of the raw table put back, aligned on the index. *)
Definition despiked_with_satname (csv : Frame (Z * string) F)
    (tidally_corrected : Frame Z F)
    : result (option (Frame (Z * option string) F)) :=
  tidally_corrected ← apply_despike tidally_corrected;
  if decide (rows tidally_corrected = []) then Ok None
  else
    let satname : Frame Z string :=
      mkFrame ["satname"] []
        ((λ r, (r.1.1, {["satname" := r.1.2]})) <$> rows csv) in
    satname ← reindex satname (index tidally_corrected) ∅;
    Ok (Some (mkFrame (columns tidally_corrected) (numeric tidally_corrected)
                (zip_with (λ r s, ((r.1, s.2 !! "satname"), r.2))
                   (rows tidally_corrected) (rows satname)))).

(** Lines 300-337 of [process_site]: the corrected series of a site, from
    its raw series and the tides used; [None] when no row is left. *)
Definition corrected_series (csv : Frame (Z * string) F) (tides : Frame Z F)
    (transects_at_site : Frame string (value F))
    : result (option (Frame (Z * option string) F)) :=
  tidally_corrected ←
    tidally_corrected (set_index_dates csv) tides transects_at_site;
  despiked_with_satname csv tidally_corrected.
End despiking.

Module tidal_correction_apply_wrapper.
Section apply.
Context {F : Type} `{Float F}.
Variable identify_outliers : list F → list Z → F → result (list F * list Z).
Variable DataFrame_of_columns : list (string * list (Z * F)) → result (Frame Z F).

(** Lines 48-72 of [main]: the raw table, and the tide samples whose
    timestamp is a rounded observation time; [sys.exit(1)] when the site has
    no transect or no tide sample is left. *)
Definition matching_tides (transects : Frame string (value F))
    (site_id : string) (csv : Frame (Z * string) F) (tides : Frame Z F)
    : result (Frame string (value F) * Frame Z F * Frame Z F) :=
  let transects :=
    mkFrame (columns transects) (numeric transects)
      (drop_duplicates_id (rows transects)) in
  let transects_at_site := at_site transects site_id in
  if decide (rows transects_at_site = []) then Raise (SystemExit 1)
  else
    let sat_times := sat_times csv in
    let raw_intersects := set_index_dates csv in
    let tides := isin_sat_times tides sat_times in
    if decide (rows tides = []) then Raise (SystemExit 1)
    else Ok (transects_at_site, raw_intersects, tides).

(** [main]: the table written to the output file.  Every exception ends in
    [sys.exit(1)]. *)
Definition main (transects : Frame string (value F)) (site_id : string)
    (csv : Frame (Z * string) F) (tides : Frame Z F)
    : result (Frame (Z * option string) F) :=
  let body :=
    '(transects_at_site, raw_intersects, tides) ←
        matching_tides transects site_id csv tides;
    tidally_corrected ← tidally_corrected raw_intersects tides transects_at_site;
    out ← despiked_with_satname identify_outliers DataFrame_of_columns
             csv tidally_corrected;
    match out with
    | None => Raise (SystemExit 1)
    | Some out => Ok out
    end in
  match body with
  | Ok out => Ok out
  | Raise _ => Raise (SystemExit 1)
  end.
End apply.
End tidal_correction_apply_wrapper.

(** ** The tide provider: [get_tide_for_dt] of scripts/tidal_correction.py
       and of tools/tidal-correction-fetch/tidal_correction_fetch_wrapper.py *)

(** What the tide provider answers to one request: a status code and the
    series of the body, from timestamp to tide ([None] when the body cannot
    be read as one), or nothing, when [requests.get] raises. *)
Inductive response (F : Type) : Type :=
  | Response (status_code : Z) (values : option (gmap Z F))
  | NoResponse.
Arguments Response {F} status_code values.
Arguments NoResponse {F}.

(** How a call of [get_tide_for_dt] ends: with the tide, or with
    [RuntimeError] after the last retry. *)
Inductive fetched (F : Type) : Type :=
  | Tide (value : F)
  | RuntimeError.
Arguments Tide {F} value.
Arguments RuntimeError {F}.

(** The requests made so far and the seconds slept between them. *)
Record clock : Type := mkClock {
  requests : nat;
  slept : Z;
}.

Section fetch.
Context {F Point : Type}.

(** The provider: its answer to the [n]-th request of the run, made for a
    point and a start day. *)
Variable provider : nat → Point → Z → response F.

(** One turn of the loop of [get_tide_for_dt] (lines 54-86; 33-65 of the
    wrapper) on the answer to its request: the tide at [datetime], or the
    seconds slept before the next try.  A body without [datetime] raises
    KeyError, which the loop catches like any exception. *)
Definition attempt (r : response F) (datetime : Z) : F + Z :=
  match r with
  | Response status_code values =>
    if decide (status_code = 200) then
      match values ≫= (λ value, value !! datetime) with
      | Some tide => inl tide
      | None => inr 5
      end
    else if decide (status_code = 429) then inr 30
    else inr 5
  | NoResponse => inr 5
  end.

(** [get_tide_for_dt(point, datetime, max_retries)], by recursion on the
    retries that are left. *)
Fixpoint get_tide_for_dt (max_retries : nat) (point : Point) (datetime : Z)
    (now : clock) : clock * fetched F :=
  match max_retries with
  | O => (now, RuntimeError)
  | S retries_left =>
    let r := provider (requests now) point (datetime / 86400) in
    match attempt r datetime with
    | inl tide => (mkClock (S (requests now)) (slept now), Tide tide)
    | inr sleep_seconds =>
      get_tide_for_dt retries_left point datetime
        (mkClock (S (requests now)) (slept now + sleep_seconds))
    end
  end.

(** Lines 143-153 of [fetch_tides] (115-125 of the wrapper): the tide of
    each date in turn, the dates whose tide cannot be fetched being left
    out. *)
Fixpoint fetch_dates (point : Point) (dates : list Z) (now : clock)
    : clock * list (Z * gmap string F) :=
  match dates with
  | [] => (now, [])
  | date :: dates' =>
    let '(now, result) := get_tide_for_dt 5 point date now in
    let '(now, results) := fetch_dates point dates' now in
    (now,
     match result with
     | Tide tide => (date, {["tide" := tide]}) :: results
     | RuntimeError => results
     end)
  end.
End fetch.

Module tidal_correction.

Section tidal.
Context {F Point : Type} `{Float F} `{Sorter}.
Variable identify_outliers : list F → list Z → F → result (list F * list Z).
Variable DataFrame_of_columns : list (string * list (Z * F)) → result (Frame Z F).
Variable provider : nat → Point → Z → response F.

Implicit Types (data : gmap string (site_files F)).
Implicit Types (poly : gmap string Point).

(** Lines 275-298 of [process_site]: when a rounded observation time has no
    sample in [tides], the centroid of the site's polygon is looked up
    (KeyError when the site has none) and the tides of the times that
    [tides] lacks are fetched; when any is obtained they are added, the
    series is sorted and [tides.csv] is rewritten. *)
Definition fetch_missing poly (sitename : string) (sat_times : list Z)
    (tides : Frame Z F) (now : clock) : clock * result (Frame Z F * bool) :=
  if decide (Forall (λ t, t ∈ index tides) sat_times)
  then (now, Ok (tides, false))
  else
    let dates := filter (λ t, t ∉ index tides) sat_times in
    match poly !! sitename with
    | None => (now, Raise KeyError)
    | Some point =>
      let '(now, results) := fetch_dates provider point dates now in
      if decide (results = []) then (now, Ok (tides, false))
      else
        let tides := concat [tides; mkFrame ["tide"] ["tide"] results] in
        (now,
         Ok (mkFrame (columns tides) (numeric tides)
               (sort_by fst (rows tides)), true))
    end.

(** [process_site(sitename, poly, transects)]: the clock and the files
    after the call, and how the call ended. *)
Definition process_site (sitename : string) poly
    (transects : Frame string (value F)) data (now : clock)
    : clock * gmap string (site_files F) * result () :=
  let transects_at_site := at_site transects sitename in
  if decide (rows transects_at_site = []) then (now, data, Ok ())
  else
    match data !! sitename with
    | Some (mkSiteFiles (Some csv) (Some tides) corrected) =>
      let sat_times := sat_times csv in
      let tides := isin_sat_times tides sat_times in
      match fetch_missing poly sitename sat_times tides now with
      | (now, Raise e) => (now, data, Raise e)
      | (now, Ok (tides, written)) =>
        let data :=
          if written
          then <[sitename := mkSiteFiles (Some csv) (Some tides) corrected]> data
          else data in
        match
          corrected_series identify_outliers DataFrame_of_columns
            csv tides transects_at_site
        with
        | Raise e => (now, data, Raise e)
        | Ok None => (now, data, Ok ())
        | Ok (Some out) =>
          (now,
           alter (λ files, mkSiteFiles (transect_time_series files)
                             (tides_csv files) (Some out)) sitename data,
           Ok ())
        end
      end
    | _ => (now, data, Raise FileNotFoundError)
    end.

(** [sorted(glob("data/nzd*/transect_time_series.csv"))], as site names. *)
Definition glob_time_series data : list string :=
  merge_sort (λ a b, String.leb a b)
    (filter (λ s, String.prefix "nzd" s ∧
                  is_Some (data !! s ≫= transect_time_series))
       (elements (dom data))).

(** Lines 203-225 of [apply_correction]: the transects without repeated
    ids, and the sites to process: those asked for that have a time series
    and a [tides.csv]. *)
Definition loaded_transects (transects : Frame string (value F))
    : Frame string (value F) :=
  mkFrame (columns transects) (numeric transects)
    (drop_duplicates_id (rows transects)).

Definition sites_to_process (sites : option (list string)) data : list string :=
  let files := glob_time_series data in
  let files :=
    match sites with
    | Some ((_ :: _) as sites) => filter (λ s, s ∈ sites) files
    | _ => files
    end in
  filter (λ s, is_Some (data !! s ≫= tides_csv)) files.

(** The loop of [apply_correction] (lines 231-238): a site whose
    processing raises is reported and the loop goes on. *)
Definition process_sites poly (transects : Frame string (value F))
    (sites_to_process : list string) data (now : clock)
    : clock * gmap string (site_files F) :=
  foldl (λ state sitename,
           (process_site sitename poly transects state.2 state.1).1)
    (now, data) sites_to_process.

(** [apply_correction(sites)]: the clock and the files after the run. *)
Definition apply_correction (sites : option (list string)) poly
    (transects : Frame string (value F)) data (now : clock)
    : clock * gmap string (site_files F) :=
  process_sites poly (loaded_transects transects)
    (sites_to_process sites data) data now.
End tidal.
End tidal_correction.

(** ** Slope estimation: CoastSat-minimal/scripts/slope_estimation.py and
       tools/slope-estimation/slope_estimation_wrapper.py *)

Section slope.
Context {F : Type} `{Float F}.

(** The SDS_slope package: the peak tidal frequency, the composite series
    corrected for each trial slope, and the slope with its confidence
    interval, which may raise. *)
Context {Freq TS : Type}.
Variable find_tide_peak : list Z → list (option F) → result Freq.
Variable tide_correct : list F → list (option F) → TS.
Variable integrate_power_spectrum : list Z → TS → Freq → result (F * (F * F)).

Implicit Types (df tides : Frame Z F) (transects : Frame string (value F)).

(** Lines 93-102 of [estimate_slopes] (75-84 of the wrapper): comparing two
    indexes of different lengths raises ValueError; when the rounded dates
    are not the tide dates one for one, both indexes are rounded and both
    tables are cut down to their common dates. *)
Definition align_dates df tides : result (Frame Z F * Frame Z F) :=
  if decide (length (index df) = length (index tides)) then
    if decide (round_10min <$> index df = index tides) then Ok (df, tides)
    else
      let df := mkFrame (columns df) (numeric df)
                  ((λ r, (round_10min r.1, r.2)) <$> rows df) in
      let tides := mkFrame (columns tides) (numeric tides)
                     ((λ r, (round_10min r.1, r.2)) <$> rows tides) in
      let common_dates := intersection (index df) (index tides) in
      Ok (loc_list df common_dates, loc_list tides common_dates)
  else Raise ValueError.

(** Lines 142-148 (131-138 of the wrapper): the dates, tide levels and
    chainages of the rows where the transect has a chainage, [None] when it
    has none.  The mask of the chainage column is applied to the tide array
    by position. *)
Definition valid_inputs df tides (key : string)
    : result (option (list Z * list (option F) * list F)) :=
  let idx_nan := (λ r, bool_decide (r.2 !! key = None)) <$> rows df in
  if forallb id idx_nan then Ok None
  else
    let not_nan := negb <$> idx_nan in
    let dates := (filter (λ bx, bx.1 = true) (zip not_nan (index df))).*2 in
    tide ← mask_select ((λ r, r.2 !! "tide") <$> rows tides) not_nan;
    let composite := (dropna (column df key)).*2 in
    Ok (Some (dates, tide, composite)).

(** The body of the loop over the transects: [slope_est] and [cis] gain the
    transect when the estimate succeeds. *)
Definition estimate_transect df tides (freqs_max : Freq)
    (slope_est : list (string * (F * (F * F)))) (key : string)
    : result (list (string * (F * (F * F)))) :=
  inputs ← valid_inputs df tides key;
  match inputs with
  | None => Ok slope_est
  | Some (dates, tide, composite) =>
    let tsall := tide_correct composite tide in
    match integrate_power_spectrum dates tsall freqs_max with
    | Ok estimate => Ok (slope_est ++ [(key, estimate)])
    | Raise _ => Ok slope_est
    end
  end.

(** [transects.loc[key, col] = v]: a label the table lacks is appended, a
    column it lacks is added. *)
Definition loc_assign transects (key col : string) (v : value F)
    : Frame string (value F) :=
  let columns' :=
    if decide (col ∈ columns transects) then columns transects
    else columns transects ++ [col] in
  let numeric' :=
    if decide (col ∈ columns transects) then numeric transects
    else numeric transects ++ [col] in
  if decide (key ∈ index transects) then
    mkFrame columns' numeric' (rows (loc_set transects key col v))
  else
    mkFrame columns' numeric' (rows transects ++ [(key, {[col := v]})]).
End slope.

Module slope_estimation.
Section estimate.
Context {F : Type} `{Float F} {Freq TS : Type}.
Variable find_tide_peak : list Z → list (option F) → result Freq.
Variable tide_correct : list F → list (option F) → TS.
Variable integrate_power_spectrum : list Z → TS → Freq → result (F * (F * F)).

Implicit Types (transects : Frame string (value F)).
Implicit Types (data : gmap string (site_files F)).

(** [str.contains("|".join(sites))] for site names free of regular
    expression operators. *)
Definition contains_any (sites : list string) (s : string) : Prop :=
  Exists (λ site, is_Some (String.index 0 site s)) sites.

(** Lines 49-61: the transects the run is for. *)
Definition new_transects (sites : option (list string)) transects
    : Frame string (value F) :=
  mkFrame (columns transects) (numeric transects)
    match sites with
    | Some ((_ :: _) as sites) =>
      filter (λ r, String.prefix "nzd" r.1 ∧ contains_any sites r.1 ∧
                   r.2 !! "beach_slope" = None)
        (rows transects)
    | _ =>
      filter (λ r, String.prefix "nzd" r.1 ∧ r.2 !! "beach_slope" = None)
        (rows transects)
    end.

(** [new_transects.site_id.unique()], for the site ids that are strings. *)
Definition site_ids (new_transects : Frame string (value F)) : list string :=
  unique (omap (λ r, match r.2 !! "site_id" with
                     | Some (Str s) => Some s
                     | _ => None
                     end) (rows new_transects)).

(** Lines 71-169: one turn of the loop over the sites.  Every column of the
    site's time series is estimated. *)
Definition estimate_site data transects (site_id : string)
    : result (Frame string (value F)) :=
  match data !! site_id with
  | Some (mkSiteFiles (Some csv) (Some tides) _) =>
    '(df, tides) ← align_dates (set_index_dates csv) tides;
    freqs_max ← find_tide_peak (index df) ((λ r, r.2 !! "tide") <$> rows tides);
    slope_est ← for_each (estimate_transect tide_correct integrate_power_spectrum
                            df tides freqs_max) (columns df) [];
    let transects :=
      foldl (λ transects kv, loc_assign transects kv.1 "beach_slope" (Num kv.2.1))
        transects slope_est in
    Ok (foldl (λ transects kv,
                 loc_assign (loc_assign transects kv.1 "cil" (Num kv.2.2.1))
                   kv.1 "ciu" (Num kv.2.2.2))
          transects slope_est)
  | _ => Ok transects
  end.

(** [estimate_slopes(sites)]: the transect table after the run. *)
Definition estimate_slopes (sites : option (list string)) data transects
    : result (Frame string (value F)) :=
  let new_transects := new_transects sites transects in
  if decide (rows new_transects = []) then Ok transects
  else for_each (estimate_site data) (site_ids new_transects) transects.
End estimate.
End slope_estimation.

Module slope_estimation_wrapper.
Section estimate.
Context {F : Type} `{Float F} {Freq TS : Type}.
Variable find_tide_peak : list Z → list (option F) → result Freq.
Variable tide_correct : list F → list (option F) → TS.
Variable integrate_power_spectrum : list Z → TS → Freq → result (F * (F * F)).

Implicit Types (transects : Frame string (value F)).

(** Lines 50-53: the transects of the site that have no slope yet. *)
Definition transects_at_site transects (site_id : string)
    : Frame string (value F) :=
  mkFrame (columns transects) (numeric transects)
    (filter (λ r, r.2 !! "site_id" = Some (Str site_id) ∧
                  r.2 !! "beach_slope" = None)
       (rows transects)).

(** Line 127: only the transects that need a slope and have a series. *)
Definition transect_ids_to_process transects (site_id : string)
    (df : Frame Z F) : list string :=
  filter (λ t, t ∈ columns df) (index (transects_at_site transects site_id)).

(** [if key in updated_transects.index: updated_transects.loc[key, col] = v] *)
Definition assign_if_present transects (key col : string) (v : value F)
    : Frame string (value F) :=
  if decide (key ∈ index transects) then loc_assign transects key col v
  else transects.

(** [estimate_slopes_for_site]: the transects of the site written to
    [output_path]. *)
Definition estimate_slopes_for_site (site_id : string)
    (csv : Frame (Z * string) F) (tides : Frame Z F) transects
    : result (Frame string (value F)) :=
  if decide (rows (transects_at_site transects site_id) = []) then
    Ok (at_site transects site_id)
  else
    '(df, tides) ← align_dates (set_index_dates csv) tides;
    if decide (rows df = []) then Raise (SystemExit 1)
    else
      freqs_max ← find_tide_peak (index df) ((λ r, r.2 !! "tide") <$> rows tides);
      slope_est ← for_each (estimate_transect tide_correct integrate_power_spectrum
                              df tides freqs_max)
                     (transect_ids_to_process transects site_id df) [];
      if decide (slope_est = []) then Ok (at_site transects site_id)
      else
        let updated_transects := at_site transects site_id in
        let updated_transects :=
          foldl (λ updated kv,
                   assign_if_present updated kv.1 "beach_slope" (Num kv.2.1))
            updated_transects slope_est in
        Ok (foldl (λ updated kv,
                     assign_if_present
                       (assign_if_present updated kv.1 "cil" (Num kv.2.2.1))
                       kv.1 "ciu" (Num kv.2.2.2))
              updated_transects slope_est).
End estimate.
End slope_estimation_wrapper.

(** ** Fetching tides: [fetch_tides] of scripts/tidal_correction.py, and
       tools/tidal-correction-fetch/tidal_correction_fetch_wrapper.py *)

Section fetch_sites.
Context {F Point : Type}.
Variable provider : nat → Point → Z → response F.
Implicit Types (data : gmap string (site_files F)).

(** The loop of [fetch_tides] over the sites (lines 135-163): the files and
    the clock after it, and how it ended.  A site without a polygon stops
    the loop with KeyError. *)
Fixpoint fetch_sites (poly : gmap string Point) (sites_to_process : list string)
    data (now : clock) : clock * gmap string (site_files F) * result () :=
  match sites_to_process with
  | [] => (now, data, Ok ())
  | sitename :: sites =>
    match data !! sitename ≫= transect_time_series with
    | None => (now, data, Raise FileNotFoundError)
    | Some csv =>
      match poly !! sitename with
      | None => (now, data, Raise KeyError)
      | Some point =>
        let '(now, results) :=
          fetch_dates provider point (sat_times csv) now in
        if decide (results = []) then fetch_sites poly sites data now
        else
          fetch_sites poly sites
            (alter (λ files,
                      mkSiteFiles (transect_time_series files)
                        (Some (mkFrame ["tide"] ["tide"] results))
                        (transect_time_series_tidally_corrected files))
               sitename data)
            now
      end
    end
  end.
End fetch_sites.

Module tidal_correction_fetch.
Section fetch_tides.
Context {F Point : Type}.
Variable provider : nat → Point → Z → response F.
Implicit Types (data : gmap string (site_files F)).

(** Lines 111-126 of [fetch_tides]: the sites asked for that have a time
    series and no [tides.csv]. *)
Definition sites_to_process (sites : option (list string)) data : list string :=
  let files := tidal_correction.glob_time_series data in
  let files :=
    match sites with
    | Some ((_ :: _) as sites) => filter (λ s, s ∈ sites) files
    | _ => files
    end in
  filter (λ s, data !! s ≫= tides_csv = None) files.

(** [fetch_tides(sites)], [poly] being the polygons' centroids by site. *)
Definition fetch_tides (sites : option (list string)) (poly : gmap string Point)
    data (now : clock) : clock * gmap string (site_files F) * result () :=
  fetch_sites provider poly (sites_to_process sites data) data now.
End fetch_tides.
End tidal_correction_fetch.

Module tidal_correction_fetch_wrapper.
Section main.
Context {F Point : Type}.
Variable provider : nat → Point → Z → response F.

(** [main] of the wrapper: the clock after the run and the table written to
    the output file, or [sys.exit(1)]. *)
Definition main (args_api_key env_api_key : option string)
    (poly : gmap string Point) (site_id : string) (csv : Frame (Z * string) F)
    (now : clock) : clock * result (Frame Z F) :=
  let api_key :=
    match args_api_key with
    | Some (String _ _ as key) => Some key
    | _ => env_api_key
    end in
  match api_key with
  | Some (String _ _) =>
    match (if String.prefix "nzd" site_id then poly !! site_id else None) with
    | None => (now, Raise (SystemExit 1))
    | Some point =>
      let dates := sat_times csv in
      if decide (dates = []) then (now, Raise (SystemExit 1))
      else
        let '(now, results) := fetch_dates provider point dates now in
        if decide (results = []) then (now, Raise (SystemExit 1))
        else (now, Ok (mkFrame ["tide"] ["tide"] results))
    end
  | _ => (now, Raise (SystemExit 1))
  end.
End main.
End tidal_correction_fetch_wrapper.

(** ** Trends: [get_trends] of CoastSat-minimal/scripts/linear_models.py and
       tools/linear-models/linear_models_wrapper.py *)

(** What scikit-learn gives for one transect: the slope and intercept of the
    fitted line and the scores of its predictions, [None] for NaN. *)
Record regression (F : Type) : Type := mkRegression {
  coef_ : option F;
  intercept_ : option F;
  r2_score : option F;
  mean_absolute_error : option F;
  mean_squared_error : option F;
  sqrt_mean_squared_error : option F;
}.
Arguments mkRegression {F} _ _ _ _ _ _.
Arguments coef_ {F} r.
Arguments intercept_ {F} r.
Arguments r2_score {F} r.
Arguments mean_absolute_error {F} r.
Arguments mean_squared_error {F} r.
Arguments sqrt_mean_squared_error {F} r.

(** What is found at the path of the smoothed version of a series: no
    file, a file that [pd.read_csv] cannot read, a table whose [dates]
    column is missing or cannot be parsed, or a series. *)
Inductive smoothed_file (A : Type) : Type :=
  | NotSmoothed
  | SmoothedUnreadable
  | SmoothedUndated
  | Smoothed (df : A).
Arguments NotSmoothed {A}.
Arguments SmoothedUnreadable {A}.
Arguments SmoothedUndated {A}.
Arguments Smoothed {A} df.

Section trends.
Context {F : Type} `{Float F}.

(** The float 365.25. *)
Variable days_per_year : F.

(** [LinearRegression().fit(x, y)] with its predictions and scores, on the
    points (years, chainage) of a transect; it may raise. *)
Variable LinearRegression : list (option F * F) → result (regression F).

(** The columns of a table of trends. *)
Definition trend_columns : list string :=
  ["trend"; "intercept"; "n_points"; "n_points_nonan"; "r2_score"; "mae";
   "mse"; "rmse"].

(** The cells of a row of the table of a dict, nulls left out. *)
Definition cells (l : list (string * option F)) : gmap string (value F) :=
  list_to_map (omap (λ cx, (λ x, (cx.1, Num x)) <$> cx.2) l).

(** [df.index.min()] *)
Definition index_min {K} (df : Frame (Z * K) F) : option Z :=
  match (λ r, r.1.1) <$> rows df with
  | [] => None
  | t :: ts => Some (foldr Z.min t ts)
  end.

(** [(df.index - df.index.min()).days / 365.25] at one timestamp. *)
Definition years_since (first t : Z) : option F :=
  fdiv (float_of_Z ((t - first) / 86400)) days_per_year.

(** Lines 91-113 of [get_trends] (76-99 of the wrapper): the trend of one
    transect, [None] when it has no chainage. *)
Definition transect_trend {K} (df : Frame (Z * K) F) (transect_id : string)
    : result (option (string * gmap string (value F))) :=
  let sub_df := dropna (column df transect_id) in
  if decide (length sub_df = 0%nat) then Ok None
  else
    let first := default 0 (index_min df) in
    linear_model ← LinearRegression
                     ((λ kv, (years_since first kv.1.1, kv.2)) <$> sub_df);
    Ok (Some (transect_id,
              cells [("trend", coef_ linear_model);
                     ("intercept", intercept_ linear_model);
                     ("n_points", Some (float_of_Z (Z.of_nat (length (rows df)))));
                     ("n_points_nonan", Some (float_of_Z (Z.of_nat (length sub_df))));
                     ("r2_score", r2_score linear_model);
                     ("mae", mean_absolute_error linear_model);
                     ("mse", mean_squared_error linear_model);
                     ("rmse", sqrt_mean_squared_error linear_model)])).

(** [pd.DataFrame(trends)], the [transect_id] of a row being its label,
    which is what the caller makes of it with [set_index]; no column at all
    when there is no trend. *)
Definition DataFrame_of_trends (trends : list (string * gmap string (value F)))
    : Frame string (value F) :=
  match trends with
  | [] => empty_frame
  | _ => mkFrame trend_columns trend_columns trends
  end.

(** [df.drop(columns=["satname", "Unnamed: 0"], errors="ignore")], the
    satellite name being part of the row label here. *)
Definition transect_columns {K} (df : Frame (Z * K) F) : list string :=
  filter (λ c, c ≠ "Unnamed: 0") (columns df).

(** [get_trends(filepath)]: [file] is what is found at [filepath] and
    [smoothed] what is found at the path of its smoothed version.  A file
    that cannot be read, or has no [dates] column, gives an empty table.  A
    smoothed version that is read but has no dates leaves a table without a
    time index, on which [.days] raises. *)
Definition get_trends (filepath : string)
    (file : stored (Frame (Z * option string) F))
    (smoothed : smoothed_file (Frame (Z * option string) F))
    : result (Frame string (value F)) :=
  match file with
  | Stored df =>
    df ← (if decide (is_Some (String.index 0 "sar" filepath) ∨
                     is_Some (String.index 0 "ber" filepath))
          then
            match smoothed with
            | Smoothed df' => Ok df'
            | SmoothedUndated => Raise AttributeError
            | NotSmoothed | SmoothedUnreadable => Ok df
            end
          else Ok df);
    trends ← mapM (transect_trend df) (transect_columns df);
    Ok (DataFrame_of_trends (omap id trends))
  | _ => Ok empty_frame
  end.
End trends.

Module linear_models_wrapper.
Section wrapper.
Context {F : Type} `{Float F}.
Variable days_per_year : F.
Variable LinearRegression : list (option F * F) → result (regression F).

(** Lines 73-102: the trends of the transects of the site that are columns
    of the series; a transect whose fit raises is skipped. *)
Definition site_trends (transects_at_site : Frame string (value F))
    (df : Frame (Z * option string) F) : list (string * gmap string (value F)) :=
  let transect_ids_to_process :=
    filter (λ t, t ∈ transect_columns df) (index transects_at_site) in
  omap (λ transect_id,
          match transect_trend days_per_year LinearRegression df transect_id with
          | Ok trend => trend
          | Raise _ => None
          end)
    transect_ids_to_process.

(** [calculate_trends_for_site]: the transects of the site written to
    [output_path]. *)
Definition calculate_trends_for_site (site_id : string)
    (file : stored (Frame (Z * option string) F))
    (transects : Frame string (value F)) : result (Frame string (value F)) :=
  let transects_at_site := at_site transects site_id in
  if decide (rows transects_at_site = []) then Ok transects_at_site
  else
    match file with
    | Stored df =>
      let trends := site_trends transects_at_site df in
      if decide (trends = []) then Ok transects_at_site
      else
        let trends_df := mkFrame trend_columns trend_columns trends in
        let common_columns :=
          filter (λ c, c ∈ columns transects_at_site) (columns trends_df) in
        updated_transects ←
          (if decide (common_columns = []) then Ok transects_at_site
           else update transects_at_site (select_columns trends_df common_columns));
        let new_columns :=
          filter (λ c, c ∉ columns updated_transects) (columns trends_df) in
        if decide (new_columns = []) then Ok updated_transects
        else Ok (join updated_transects (select_columns trends_df new_columns))
    | _ => Ok transects_at_site
    end.
End wrapper.
End linear_models_wrapper.

(** ** The outlier test of the coastsat package *)

Section outlier_test.
Context {F : Type}.

(** The numerical core of the test: whether the deviation of the point at
    position [i] of the chainages from the estimate of its neighbourhood
    exceeds the threshold.  It may raise. *)
Variable exceeds : list F → nat → F → result bool.

(** Modelled from the spec: [SDS_transects.identify_outliers] of the
    coastsat package, which the [despike] functions call and which is not
    among the sources.  Section 4.2 of the spec has it flag a point if its
    deviation from a local neighbourhood estimate exceeds [threshold] and
    leaves the neighbourhood statistic to the numerical core, [exceeds]
    here; the points that are not flagged are returned, the chainages and
    their dates. *)
Definition spec_identify_outliers (chainage : list F) (dates : list Z)
    (threshold : F) : result (list F * list Z) :=
  flags ← mapM (λ i, exceeds chainage i threshold) (seq 0 (length chainage));
  let kept := filter (λ x, x.1 = false) (zip flags (zip dates chainage)) in
  Ok (kept.*2.*2, kept.*2.*1).
End outlier_test.

(** ** Vocabulary of the statements *)

Section vocabulary.
Context {K V : Type} `{EqDecision K}.
Implicit Types (site B M : Frame K V) (rb rm : K * gmap string V).

(** A merged row keeps the label of the base row; each of its cells, in the
    columns [cols], is the base cell or a non-null cell of a fragment row of
    that label. *)
Definition merged_row site (cols : string → Prop) rb rm : Prop :=
  rm.1 = rb.1 ∧
  ∀ c, cols c →
    rm.2 !! c = rb.2 !! c ∨
    ∃ rf, (rb.1, rf) ∈ rows site ∧ is_Some (rf !! c) ∧ rm.2 !! c = rf !! c.

(** A merged frame has the columns of the base and, row for row, merged
    rows. *)
Definition merged_frame site (cols : string → Prop) B M : Prop :=
  columns M = columns B ∧ numeric M = numeric B ∧
  Forall2 (merged_row site cols) (rows B) (rows M).

(** The rows of [updated] are those of [base], changed at most where the
    label is one of [keys]. *)
Definition kept_off (keys : list K) B M : Prop :=
  Forall2 (λ rb rm, rm.1 = rb.1 ∧ (rb.1 ∉ keys → rm = rb)) (rows B) (rows M).
End vocabulary.

Section vocabulary_series.
Context {F : Type}.

End vocabulary_series.

Section vocabulary_more.
Context {K V : Type} `{EqDecision K}.

(** The row the aggregation of a per-site table leaves in place of a row of
    the base: in the columns [cols], the non-null cells of the row of the
    site table that has its label replace the base cells. *)
Definition aggregated_row (cols : list string) (site : Frame K V)
    (r : K * gmap string V) : K * gmap string V :=
  match loc_rows site r.1 with
  | [that] => (r.1, update_row cols r.2 that)
  | _ => r
  end.
End vocabulary_more.

(** ** Sample inputs

    Small tables in rational arithmetic, on which the definitions are run.
    Timestamps: 1577872800 is 2020-01-01 10:00:00, 1579255200 is 2020-01-17
    10:00:00 and 1593511200 is 2020-06-30 10:00:00. *)

(** A base table of two transects and the trend fragment of one site. *)
Definition base0 : Frame string (value Q) :=
  mkFrame ["site_id"; "beach_slope"] ["beach_slope"]
    [("nzd0001-0000",
      {["site_id" := Str "nzd0001"; "beach_slope" := Num (1 # 10)%Q]});
     ("nzd0002-0000",
      {["site_id" := Str "nzd0002"; "beach_slope" := Num (1 # 20)%Q]})].

Definition frag0 : Frame string (value Q) :=
  mkFrame ["site_id"; "beach_slope"; "trend"] ["beach_slope"; "trend"]
    [("nzd0001-0000",
      {["site_id" := Str "nzd0001"; "trend" := Num (1 # 2)%Q]})].

(** A stored series from 2020-01-01 to 2020-06-30, one new observation, and
    a test-mode environment starting on 2023-01-01. *)
Definition stored0 : Frame (Z * string) Q :=
  mkFrame ["nzd0001-0000"] ["nzd0001-0000"]
    [((1577872800, "L8"), {["nzd0001-0000" := (12345 # 100)%Q]});
     ((1593511200, "L8"), {["nzd0001-0000" := 120%Q]})].

Definition new0 : Frame (Z * string) Q :=
  mkFrame ["nzd0001-0000"] ["nzd0001-0000"]
    [((1593511200, "L9"), {["nzd0001-0000" := 119%Q]})].

Definition env0 : batch_process_NZ.environ :=
  {| batch_process_NZ.TEST_MODE := true;
     batch_process_NZ.TEST_START_DATE := 19358;
     batch_process_NZ.TEST_END_DATE := 20088;
     batch_process_NZ.TEST_SATELLITES := ["L8"; "L9"];
     batch_process_NZ.FORCE_START_DATE := None |}.

(** A site with one transect of slope 0.1, observed on two days at 10:00. *)
Definition transects0 : Frame string (value Q) :=
  mkFrame ["site_id"; "beach_slope"] ["beach_slope"]
    [("nzd0001-0000",
      {["site_id" := Str "nzd0001"; "beach_slope" := Num (1 # 10)%Q]})].

Definition csv0 : Frame (Z * string) Q :=
  mkFrame ["nzd0001-0000"] ["nzd0001-0000"]
    [((1577872800, "L8"), {["nzd0001-0000" := 100%Q]});
     ((1579255200, "L8"), {["nzd0001-0000" := 101%Q]})].

(** Tide samples: one at 10:03 of the first day, one at 10:00 of the
    second. *)
Definition tides0 : Frame Z Q :=
  mkFrame ["tide"] ["tide"]
    [(1577872980, {["tide" := 1%Q]}); (1579255200, {["tide" := (1 # 2)%Q]})].

(** A tide sample of another year. *)
Definition tides1 : Frame Z Q :=
  mkFrame ["tide"] ["tide"] [(1262340000, {["tide" := 1%Q]})].

(** A tide sample for each observation of [csv0]. *)
Definition tides2 : Frame Z Q :=
  mkFrame ["tide"] ["tide"]
    [(1577872800, {["tide" := 1%Q]}); (1579255200, {["tide" := (1 # 2)%Q]})].

(** The observations of [csv0] shifted to 10:03. *)
Definition csv_off_grid : Frame (Z * string) Q :=
  mkFrame ["nzd0001-0000"] ["nzd0001-0000"]
    [((1577872980, "L8"), {["nzd0001-0000" := 100%Q]});
     ((1579255380, "L8"), {["nzd0001-0000" := 101%Q]})].

(** A site with two transects, the first with a slope already, and their
    series. *)
Definition transects1 : Frame string (value Q) :=
  mkFrame ["site_id"; "beach_slope"] ["beach_slope"]
    [("nzd0001-0000",
      {["site_id" := Str "nzd0001"; "beach_slope" := Num (1 # 10)%Q]});
     ("nzd0001-0001", {["site_id" := Str "nzd0001"]})].

Definition csv1 : Frame (Z * string) Q :=
  mkFrame ["nzd0001-0000"; "nzd0001-0001"] ["nzd0001-0000"; "nzd0001-0001"]
    [((1577872800, "L8"), {["nzd0001-0000" := 100%Q; "nzd0001-0001" := 90%Q]});
     ((1579255200, "L8"), {["nzd0001-0000" := 101%Q; "nzd0001-0001" := 91%Q]})].

(** An outlier test that keeps every point. *)
Definition keep_all (chainage : list Q) (dates : list Z) (threshold : Q)
    : result (list Q * list Z) := Ok (chainage, dates).

(** A numerical core of the outlier test that flags the chainages whose
    absolute value exceeds the threshold. *)
Definition far_from_zero (chainage : list Q) (i : nat) (threshold : Q)
    : result bool :=
  Ok (negb (Qle_bool (Qabs (nth i chainage 0%Q)) threshold)).

(** A frame of columns that carry distinct timestamps: a row per timestamp,
    in order. *)
Definition frame_of_columns (cols : list (string * list (Z * Q)))
    : result (Frame Z Q) :=
  let times := merge_sort Z.le (remove_dups (mjoin ((λ c, c.2.*1) <$> cols))) in
  Ok (mkFrame (cols.*1) (cols.*1)
        ((λ t, (t, list_to_map
                     (omap (λ c, (λ v, (c.1, v)) <$>
                                   (list_to_map c.2 : gmap Z Q) !! t)
                        cols)))
           <$> times)).

(** A slope primitive that answers 0.05 with the interval (0.04, 0.1). *)
Definition constant_slope (dates : list Z) (tsall : ()) (freqs_max : ())
    : result (Q * (Q * Q)) :=
  Ok ((1 # 20)%Q, ((1 # 25)%Q, (1 # 10)%Q)).

(** The fragment of a second site, with a slope for its transect. *)
Definition frag1 : Frame string (value Q) :=
  mkFrame ["site_id"; "beach_slope"] ["beach_slope"]
    [("nzd0002-0000",
      {["site_id" := Str "nzd0002"; "beach_slope" := Num (7 # 100)%Q]})].

(** A base table with a trend for each of two transects, and a table of
    trends where both transects have the same statistics. *)
Definition base_trends0 : Frame string (value Q) :=
  mkFrame ["site_id"; "trend"] ["trend"]
    [("nzd0001-0000", {["site_id" := Str "nzd0001"; "trend" := Num 1%Q]});
     ("nzd0001-0001", {["site_id" := Str "nzd0001"; "trend" := Num 2%Q]})].

Definition twin_trends0 : Frame string (value Q) :=
  mkFrame ["trend"] ["trend"]
    [("nzd0001-0000", {["trend" := Num 3%Q]});
     ("nzd0001-0001", {["trend" := Num 3%Q]})].

(** An observation of 2020-07-01, the day after the last of [stored0]. *)
Definition new1 : Frame (Z * string) Q :=
  mkFrame ["nzd0001-0000"] ["nzd0001-0000"]
    [((1593597600, "L9"), {["nzd0001-0000" := 118%Q]})].

(** A provider that answers every request with the tides of the two
    observation times of [csv0]. *)
Definition provider0 (n : nat) (point : ()) (day : Z) : response Q :=
  Response 200 (Some {[1577872800 := 1%Q; 1579255200 := (1 # 2)%Q]}).

(** Three sites with a series and no tides. *)
Definition data0 : gmap string (site_files Q) :=
  {["nzd0001" := mkSiteFiles (Some csv0) None None;
    "nzd0002" := mkSiteFiles (Some csv0) None None;
    "nzd0003" := mkSiteFiles (Some csv0) None None]}.

(** Polygons for the first and the third of them. *)
Definition poly0 : gmap string () := {["nzd0001" := (); "nzd0003" := ()]}.

(** The corrected series of the site of [transects1]. *)
Definition corrected1 : Frame (Z * option string) Q :=
  mkFrame ["nzd0001-0000"; "nzd0001-0001"] ["nzd0001-0000"; "nzd0001-0001"]
    [((1577872800, Some "L8"),
      {["nzd0001-0000" := 110%Q; "nzd0001-0001" := 100%Q]});
     ((1579255200, Some "L8"), {["nzd0001-0000" := 111%Q]})].

(** A regression primitive that answers a line of slope 1/2 and intercept
    100, with null scores. *)
Definition constant_line (points : list (option Q * Q)) : result (regression Q) :=
  Ok (mkRegression (Some (1 # 2)%Q) (Some 100%Q) None None None None).

(** A provider that has the tide of the second observation of [csv0]
    only. *)
Definition provider1 (n : nat) (point : ()) (day : Z) : response Q :=
  Response 200 (Some {[1579255200 := (1 # 2)%Q]}).

(** Three observations of 2020-01-01, at 10:00, 10:03 and 10:20, the first
    two within the same ten minutes; the tides of 10:00 and 10:20 at the
    provider; and a table of tides with 10:00 once and 10:20 twice. *)
Definition csv_twin : Frame (Z * string) Q :=
  mkFrame ["nzd0001-0000"] ["nzd0001-0000"]
    [((1577872800, "L8"), {["nzd0001-0000" := 100%Q]});
     ((1577872980, "L9"), {["nzd0001-0000" := 101%Q]});
     ((1577874000, "L8"), {["nzd0001-0000" := 102%Q]})].

Definition provider2 (n : nat) (point : ()) (day : Z) : response Q :=
  Response 200 (Some {[1577872800 := 1%Q; 1577874000 := 2%Q]}).


(** * Properties *)

Section control.
Context {A S : Type}.

Lemma for_each_ok (P : S → Prop) (body : S → A → result S) xs s :
  P s →
  (∀ s x, x ∈ xs → P s → ∃ s', body s x = Ok s' ∧ P s') →
  ∃ s', for_each body xs s = Ok s' ∧ P s'.
Proof.
  revert s. induction xs as [|x xs IH]; intros s Hs Hbody; simpl.
  - eauto.
  - destruct (Hbody s x) as (s1 & -> & Hs1); [left | done |].
    simpl. apply IH; [done |]. intros s2 y Hy. apply Hbody. by right.
Qed.
End control.

Section frame_facts.
Context {K V : Type} `{EqDecision K} `{EqDecision V}.
Implicit Types (df base site self other : Frame K V).
Implicit Types (r : K * gmap string V) (k : K) (c col : string).

Lemma filter_none {A} (P : A → Prop) `{∀ x, Decision (P x)} (l : list A) :
  (∀ x, x ∈ l → ¬ P x) → filter P l = [].
Proof.
  induction l as [|x l IH]; intros Hl; [done |].
  rewrite filter_cons_False by (apply Hl; left).
  apply IH. intros y Hy. apply Hl. by right.
Qed.

Lemma elem_of_unique (l : list K) k : k ∈ unique l ↔ k ∈ l.
Proof.
  induction l as [|k' l IH]; simpl; [done |].
  rewrite !elem_of_cons, list_elem_of_filter, IH.
  destruct (decide (k = k')); tauto.
Qed.

Lemma elem_of_intersection (a b : list K) k :
  k ∈ intersection a b ↔ k ∈ a ∧ k ∈ b.
Proof. unfold intersection. rewrite list_elem_of_filter, elem_of_unique. tauto. Qed.

Lemma elem_of_loc_rows df k (row : gmap string V) :
  row ∈ loc_rows df k ↔ (k, row) ∈ rows df.
Proof.
  unfold loc_rows. rewrite list_elem_of_fmap. split.
  - intros ([k' row'] & -> & Hin). apply list_elem_of_filter in Hin as [Hk Hin].
    simpl in *. by subst.
  - intros Hin. exists (k, row). split; [done |]. by apply list_elem_of_filter.
Qed.

Lemma loc_rows_NoDup df k :
  NoDup (index df) → k ∈ index df →
  ∃ row, loc_rows df k = [row] ∧ (k, row) ∈ rows df.
Proof.
  unfold index, loc_rows. induction (rows df) as [|[k' row'] rs IH]; simpl.
  - intros _ Hin. by apply elem_of_nil in Hin.
  - intros Hnd Hin. apply NoDup_cons in Hnd as [Hk' Hnd].
    rewrite filter_cons. simpl. destruct (decide (k' = k)) as [-> | Hne].
    + exists row'. split; [| left].
      rewrite filter_none; [done |].
      intros [k2 r2] Hin2 Heq. simpl in Heq. subst.
      apply Hk'. apply list_elem_of_fmap. by exists (k, r2).
    + apply elem_of_cons in Hin as [-> | Hin]; [done |].
      destruct (IH Hnd Hin) as (row & Heq & Hrow). exists row. split; [done | by right].
Qed.

Lemma loc_rows_not_elem df k : k ∉ index df → loc_rows df k = [].
Proof.
  intros Hk. unfold loc_rows. rewrite filter_none; [done |].
  intros [k2 r2] Hin Heq. simpl in Heq. subst.
  apply Hk. apply list_elem_of_fmap. by exists (k, r2).
Qed.

Lemma rows_NoDup_eq df k (row1 row2 : gmap string V) :
  NoDup (index df) → (k, row1) ∈ rows df → (k, row2) ∈ rows df → row1 = row2.
Proof.
  intros Hnd H1 H2. destruct (loc_rows_NoDup df k Hnd) as (row & Heq & _).
  { apply list_elem_of_fmap. by exists (k, row1). }
  apply elem_of_loc_rows in H1, H2. rewrite Heq in H1, H2.
  apply list_elem_of_singleton in H1, H2. congruence.
Qed.
End frame_facts.

Section merge_relation.
Context {K V : Type} `{EqDecision K} `{EqDecision V}.
Implicit Types (r rb rm : K * gmap string V) (k : K) (c col : string).

Lemma merged_row_refl site cols r : merged_row site cols r r.
Proof. split; [done |]. intros c _. by left. Qed.

Lemma merged_row_uncovered site (cols : string → Prop) rb rm c :
  merged_row site cols rb rm → cols c → rb.1 ∉ index site →
  rm.2 !! c = rb.2 !! c.
Proof.
  intros [_ Hm] Hc Hk. destruct (Hm c Hc) as [-> | (rf & Hin & _)]; [done |].
  exfalso. apply Hk. apply list_elem_of_fmap. by exists (rb.1, rf).
Qed.

Lemma merged_row_null site (cols : string → Prop) rb rm rf c :
  NoDup (index site) → merged_row site cols rb rm → cols c →
  (rb.1, rf) ∈ rows site → rf !! c = None →
  rm.2 !! c = rb.2 !! c.
Proof.
  intros Hnd [_ Hm] Hc Hin Hnull.
  destruct (Hm c Hc) as [-> | (rf' & Hin' & [v Hv] & _)]; [done |].
  rewrite (rows_NoDup_eq site _ rf' rf Hnd Hin' Hin) in Hv. congruence.
Qed.

Lemma update_row_lookup (cols : list string) (this that : gmap string V) c :
  update_row cols this that !! c =
    if decide (c ∈ cols) then
      match that !! c with Some v => Some v | None => this !! c end
    else this !! c.
Proof.
  unfold update_row. induction cols as [|c' cols IH]; cbn [foldr].
  - by rewrite decide_False by apply not_elem_of_nil.
  - destruct (decide (c = c')) as [-> | Hne].
    + rewrite (decide_True (P := c' ∈ c' :: cols)) by left.
      destruct (that !! c') eqn:E.
      * by rewrite lookup_insert_eq.
      * rewrite IH. case_decide; by rewrite ?E.
    + assert (c ∈ c' :: cols ↔ c ∈ cols) as Hiff.
      { rewrite elem_of_cons. tauto. }
      rewrite (decide_ext _ _ _ _ Hiff).
      destruct (that !! c'); by rewrite ?lookup_insert_ne.
Qed.

Lemma set_columns_lookup (cols : list string) (that this : gmap string V) c :
  set_columns cols that this !! c =
    if decide (c ∈ cols) then that !! c else this !! c.
Proof.
  unfold set_columns. induction cols as [|c' cols IH]; cbn [foldr].
  - by rewrite decide_False by apply not_elem_of_nil.
  - destruct (decide (c = c')) as [-> | Hne].
    + rewrite (decide_True (P := c' ∈ c' :: cols)) by left.
      destruct (that !! c') eqn:E.
      * by rewrite lookup_insert_eq.
      * by rewrite lookup_delete_eq.
    + assert (c ∈ c' :: cols ↔ c ∈ cols) as Hiff.
      { rewrite elem_of_cons. tauto. }
      rewrite (decide_ext _ _ _ _ Hiff).
      destruct (that !! c'); by rewrite ?lookup_insert_ne, ?lookup_delete_ne.
Qed.
End merge_relation.

Section merged_frames.
Context {K V : Type} `{EqDecision K} `{EqDecision V}.
Implicit Types (B M site : Frame K V) (k : K) (c col : string).

Lemma merged_frame_refl site cols B : merged_frame site cols B B.
Proof.
  repeat split. apply Forall_Forall2_diag, Forall_forall.
  intros r _. apply merged_row_refl.
Qed.

Lemma merged_frame_index site cols B M :
  merged_frame site cols B M → index M = index B.
Proof.
  intros (_ & _ & Hrows). unfold index.
  induction Hrows as [|rb rm ? ? [Hk _] _ IH]; [done |]. cbn. by rewrite Hk, IH.
Qed.

Lemma merged_frame_lookup site cols B M i rb :
  merged_frame site cols B M → rows B !! i = Some rb →
  ∃ rm, rows M !! i = Some rm ∧ merged_row site cols rb rm.
Proof. intros (_ & _ & Hrows) Hi. by eapply Forall2_lookup_l. Qed.

Lemma loc_set_merged site cols B M k c (rf : gmap string V) (v : V) :
  (k, rf) ∈ rows site → rf !! c = Some v →
  merged_frame site cols B M → merged_frame site cols B (loc_set M k c v).
Proof.
  intros Hin Hv (Hc & Hn & Hrows). repeat split; [done.. |]. cbn [rows loc_set].
  apply Forall2_fmap_r.
  eapply Forall2_impl; [done |]. intros rb rm [Hk Hm]. cbn.
  case_decide as Hkey; [| done]. split; [done |]. intros c' Hc'. cbn.
  destruct (decide (c' = c)) as [-> | Hne].
  - right. exists rf. rewrite lookup_insert_eq, Hv, <- Hk, Hkey. eauto.
  - rewrite lookup_insert_ne by done. by apply Hm.
Qed.
End merged_frames.

Section aggregate_facts.
Import aggregate_transects_wrapper.
Context {F : Type} `{Float F}.
Implicit Types (base_gdf site_gdf B M : Frame string (value F)).

Lemma update_cell_ok cols site_gdf B M transect_id col :
  NoDup (index site_gdf) → transect_id ∈ index site_gdf →
  merged_frame site_gdf cols B M →
  ∃ M', update_cell site_gdf transect_id M col = Ok M' ∧
        merged_frame site_gdf cols B M'.
Proof.
  intros Hnd Hin HM. unfold update_cell, loc.
  destruct (loc_rows_NoDup site_gdf transect_id Hnd Hin) as (rf & -> & Hrf).
  cbn. destruct (rf !! col) as [v|] eqn:Hv; [| by eauto].
  eexists. split; [done |]. by eapply loc_set_merged.
Qed.

Lemma merge_site_ok update_columns site_gdf B M :
  NoDup (index site_gdf) →
  merged_frame site_gdf (λ _, True) B M →
  ∃ M', merge_site update_columns M site_gdf = Ok M' ∧
        merged_frame site_gdf (λ _, True) B M'.
Proof.
  intros Hnd HM. unfold merge_site.
  case_decide; [by eauto |]. case_decide; [by eauto |].
  apply (for_each_ok (merged_frame site_gdf (λ _, True) B)); [done |].
  intros M1 transect_id Hid HM1. apply elem_of_intersection in Hid as [_ Hid].
  apply (for_each_ok (merged_frame site_gdf (λ _, True) B)); [done |].
  intros M2 col _ HM2. by apply update_cell_ok.
Qed.

Lemma aggregate_transects_ok update_columns B site_gdf :
  NoDup (index site_gdf) →
  ∃ M, aggregate_transects B [Some site_gdf] update_columns = Ok M ∧
       merged_frame site_gdf (λ _, True) B M.
Proof.
  intros Hnd. unfold aggregate_transects. cbn [for_each].
  destruct (merge_site_ok update_columns site_gdf B B Hnd) as (M & -> & HM).
  { apply merged_frame_refl. }
  by exists M.
Qed.
End aggregate_facts.

Section update_join_facts.
Context {K V : Type} `{EqDecision K} `{EqDecision V}.
Implicit Types (df self other B M site : Frame K V) (k : K) (c col : string).

Lemma keep_first_sublist (rs : list (K * gmap string V)) :
  keep_first rs `sublist_of` rs.
Proof.
  induction rs as [|r rs IH]; cbn; [done |]. apply sublist_skip.
  etrans; [apply sublist_filter | done].
Qed.

Lemma drop_duplicates_rows df : rows (drop_duplicates df) ⊆ rows df.
Proof. apply sublist_subseteq, keep_first_sublist. Qed.

Lemma drop_duplicates_NoDup df :
  NoDup (index df) → NoDup (index (drop_duplicates df)).
Proof.
  unfold index. cbn. intros Hnd. eapply sublist_NoDup; [done |].
  apply fmap_sublist, keep_first_sublist.
Qed.

(** What [reindex] returns: one row per target label, a row of the frame of
    that label or the fill row. *)
Lemma reindex_spec df (target : list K) (fill : gmap string V) :
  NoDup (index df) →
  ∃ df', reindex df target fill = Ok df' ∧
    columns df' = columns df ∧
    Forall2 (λ k r, r.1 = k ∧
                    ((k, r.2) ∈ rows df ∨ ((k ∉ index df) ∧ r.2 = fill)))
      target (rows df').
Proof.
  intros Hnd. unfold reindex. case_decide as Heq.
  - eexists. split; [done |]. split; [done |]. subst target. unfold index.
    rewrite <- (list_fmap_id (rows df)) at 2. apply Forall2_fmap.
    apply Forall_Forall2_diag, Forall_forall. intros [k r] Hin. cbn. eauto.
  - rewrite decide_True by done. eexists. split; [done |]. split; [done |].
    cbn [rows]. apply Forall2_fmap_r.
    apply Forall_Forall2_diag, Forall_forall. intros k _. cbn. split; [done |].
    destruct (decide (k ∈ index df)) as [Hin | Hnin].
    + destruct (loc_rows_NoDup df k Hnd Hin) as (row & -> & Hrow). by left.
    + rewrite loc_rows_not_elem by done. by right.
Qed.

Lemma update_ok self other :
  NoDup (index other) →
  ∃ M, update self other = Ok M ∧ merged_frame other (λ _, True) self M.
Proof.
  intros Hnd. unfold update.
  destruct (reindex_spec other (index self) ∅ Hnd) as (o' & -> & _ & Hrows).
  cbn. eexists. split; [done |]. repeat split. cbn.
  unfold index in Hrows. apply Forall2_fmap_l in Hrows.
  revert Hrows. generalize (rows o'). induction (rows self) as [|r rs IH];
    intros os Hrows; inversion Hrows as [|? o ? os' [Hk Ho] Hrest]; subst; cbn;
    constructor; [| by apply IH].
  split; [done |]. intros c _. cbn. rewrite update_row_lookup.
  case_decide; [| by left]. destruct (o.2 !! c) as [v|] eqn:Hv; [| by left].
  right. destruct Ho as [Ho | [_ Ho]].
  - exists o.2. by rewrite Hv.
  - rewrite Ho, lookup_empty in Hv. done.
Qed.

(** With distinct labels in [other], the join keeps the rows of [self] one
    for one. *)
Lemma join_rows self other :
  NoDup (index other) →
  Forall2 (λ r r', r'.1 = r.1 ∧ ∀ c,
     r'.2 !! c =
       if decide (c ∈ columns other) then
         match loc_rows other r.1 with
         | [] => None
         | that :: _ => that !! c
         end
       else r.2 !! c)
    (rows self) (rows (join self other)).
Proof.
  intros Hnd. cbn [rows join]. induction (rows self) as [|r rs IH];
    [constructor |]. rewrite bind_cons.
  assert (∃ that, (match loc_rows other r.1 with [] => [∅] | ms => ms end)
                  = [that] ∧
                  ∀ c, that !! c = match loc_rows other r.1 with
                                   | [] => None | t :: _ => t !! c end)
    as (that & -> & Hthat).
  { destruct (decide (r.1 ∈ index other)) as [Hin | Hnin].
    - destruct (loc_rows_NoDup other r.1 Hnd Hin) as (row & -> & _). eauto.
    - rewrite loc_rows_not_elem by done. exists ∅. split; [done |].
      intros c. apply lookup_empty. }
  cbn [fmap list_fmap app]. constructor; [| done]. split; [done |]. intros c.
  cbn [snd]. rewrite set_columns_lookup. by rewrite Hthat.
Qed.

Lemma select_columns_loc_rows df cols k :
  loc_rows (select_columns df cols) k
  = (λ row, filter (λ kv : string * V, kv.1 ∈ cols) row) <$> loc_rows df k.
Proof.
  unfold loc_rows. cbn [rows select_columns].
  induction (rows df) as [|r rs IH]; [done |].
  rewrite fmap_cons, !filter_cons. cbn [fst]. case_decide; by rewrite ?fmap_cons, IH.
Qed.

Lemma select_columns_index df cols : index (select_columns df cols) = index df.
Proof. unfold index. cbn. rewrite <- list_fmap_compose. done. Qed.

Lemma concat_singleton df : rows (concat [df]) = rows df.
Proof. cbn. apply app_nil_r. Qed.
End update_join_facts.

Section linear_models_facts.
Import linear_models.
Context {F : Type} `{Float F}.
Implicit Types (B M trends : Frame string (value F)).

Lemma lookup_select (cols : list string) (row : gmap string (value F)) c :
  c ∈ cols → filter (λ kv : string * value F, kv.1 ∈ cols) row !! c = row !! c.
Proof.
  intros Hc. rewrite map_lookup_filter. destruct (row !! c) as [v|]; [| done].
  cbn. by rewrite option_guard_True.
Qed.

(** What the trend merge returns for one trend table with distinct
    labels. *)
Lemma calculate_linear_models_ok B trends :
  NoDup (index trends) →
  ∃ M, calculate_linear_models B [trends] = Ok M ∧
    Forall2 (merged_row trends (λ c, c ∈ columns B)) (rows B) (rows M) ∧
    (rows trends ≠ [] →
     ∀ c, c ∈ columns trends → c ∉ columns B →
       c ∈ columns M ∧
       Forall (λ r, r.2 !! c = match loc_rows trends r.1 with
                               | [] => None
                               | that :: _ => that !! c
                               end) (rows M)).
Proof.
  intros Hnd. unfold calculate_linear_models.
  destruct (decide (rows trends = [])) as [Hrows | Hrows].
  { rewrite filter_cons_False by (intros Hne; by apply Hne).
    rewrite filter_nil, decide_True by done. exists B. split; [done |].
    split; [| done].
    apply Forall_Forall2_diag, Forall_forall. intros r _. apply merged_row_refl. }
  rewrite filter_cons_True, filter_nil, decide_False by done.
  set (tr := concat [trends]).
  assert (rows tr = rows trends) as Htr by apply concat_singleton.
  assert (∀ c, c ∈ columns tr ↔ c ∈ columns trends) as Hcols.
  { intros c. unfold tr. cbn. by rewrite elem_of_remove_dups, app_nil_r. }
  assert (NoDup (index tr)) as Hnd' by (unfold index; by rewrite Htr).
  destruct (update_ok B (drop_duplicates tr)) as (M1 & -> & HcM1 & _ & HM1).
  { by apply drop_duplicates_NoDup. }
  cbn [mbind result_bind]. rewrite HcM1.
  assert (Forall2 (merged_row trends (λ _, True)) (rows B) (rows M1)) as HM1'.
  { eapply Forall2_impl; [done |]. intros rb rm [Hk Hm]. split; [done |].
    intros c _. destruct (Hm c I) as [? | (rf & Hin & ?)]; [by left |].
    right. exists rf. split; [| done].
    apply drop_duplicates_rows in Hin. by rewrite Htr in Hin. }
  set (new_columns := filter (λ c, c ∉ columns B) (columns tr)).
  case_decide as Hnew.
  { exists M1. split; [done |]. split.
    - eapply Forall2_impl; [done |]. intros rb rm [Hk Hm]. split; [done |]. eauto.
    - intros _ c Hc HcB. exfalso.
      assert (c ∈ new_columns) as Hin
        by (apply list_elem_of_filter; split; [done | by apply Hcols]).
      rewrite Hnew in Hin. by apply elem_of_nil in Hin. }
  eexists. split; [done |].
  pose proof (join_rows M1 (select_columns tr new_columns)) as Hjoin.
  rewrite select_columns_index in Hjoin. specialize (Hjoin Hnd').
  split.
  - revert Hjoin. generalize (rows (join M1 (select_columns tr new_columns))).
    intros rsM Hjoin.
    assert (∀ rb r1 rm,
      merged_row trends (λ _, True) rb r1 →
      (rm.1 = r1.1 ∧ ∀ c, rm.2 !! c =
         if decide (c ∈ columns (select_columns tr new_columns)) then
           match loc_rows (select_columns tr new_columns) r1.1 with
           | [] => None | that :: _ => that !! c end
         else r1.2 !! c) →
      merged_row trends (λ c, c ∈ columns B) rb rm) as Hstep.
    { intros rb r1 rm [Hk Hm] [Hk' Hm']. split; [congruence |].
      intros c Hc. rewrite Hm'. rewrite decide_False; [by apply Hm |].
      cbn. intros Hin. apply list_elem_of_filter in Hin as [Hin _]. done. }
    clear -HM1' Hjoin Hstep. revert rsM Hjoin.
    induction HM1' as [|rb r1 rsB rs1 Hhd _ IH]; intros rsM Hjoin;
      inversion Hjoin; subst; constructor; eauto.
  - intros _ c Hc HcB.
    assert (c ∈ new_columns) as Hin
      by (apply list_elem_of_filter; split; [done | by apply Hcols]).
    split; [cbn; apply elem_of_app; by right |].
    apply Forall_forall. intros rm Hrm.
    apply list_elem_of_lookup in Hrm as [i Hi].
    destruct (Forall2_lookup_r _ _ _ _ _ Hjoin Hi) as (r1 & Hi1 & Hk & Hc').
    rewrite Hc'. rewrite decide_True by done.
    rewrite select_columns_loc_rows, Hk. unfold loc_rows. rewrite Htr.
    destruct (filter _ (rows trends)).*2 as [|that rest]; [done |].
    cbn. by apply lookup_select.
Qed.
End linear_models_facts.

Section merge_claims.
Context {F : Type} `{Float F}.
Implicit Types (B frag M : Frame string (value F)).

(** C1 (merge base-preservation).  For a base table [B] and a fragment
    [frag] keyed by transect id (its labels are distinct), both merges, the
    aggregation of a per-site file and the trend merge, return a table with
    the labels of [B], row for row, and a row of [B] whose label is not in
    [frag] is unchanged in every column of [B]: in the aggregation it is the
    same row.  No row of [frag] is inserted. *)
Theorem merge_base_preservation B frag (update_columns : option (list string)) :
  NoDup (index frag) →
  (∃ M, aggregate_transects_wrapper.aggregate_transects
          B [Some frag] update_columns = Ok M ∧
        index M = index B ∧
        ∀ i r, rows B !! i = Some r → r.1 ∉ index frag → rows M !! i = Some r) ∧
  (∃ M, linear_models.calculate_linear_models B [frag] = Ok M ∧
        index M = index B ∧
        ∀ i r, rows B !! i = Some r → r.1 ∉ index frag →
          ∃ r', rows M !! i = Some r' ∧ r'.1 = r.1 ∧
                ∀ c, c ∈ columns B → r'.2 !! c = r.2 !! c).
Proof.
  intros Hnd. split.
  - destruct (aggregate_transects_ok update_columns B frag Hnd)
      as (M & HM & Hmerged).
    exists M. split; [done |]. split; [by eapply merged_frame_index |].
    intros i r Hi Hr.
    destruct (merged_frame_lookup _ _ _ _ _ _ Hmerged Hi) as (rm & Hrm & Hrow).
    rewrite Hrm. f_equal. destruct rm as [km rowm], r as [k row].
    pose proof (proj1 Hrow) as Hk. cbn in Hk. subst km. f_equal.
    apply map_eq. intros c. by apply (merged_row_uncovered _ _ _ _ c Hrow).
  - destruct (calculate_linear_models_ok B frag Hnd) as (M & HM & Hrows & _).
    exists M. split; [done |]. split.
    + unfold index. clear -Hrows.
      induction Hrows as [|rb rm ? ? [Hk _] _ IH]; [done |]. cbn. by rewrite Hk, IH.
    + intros i r Hi Hr.
      destruct (Forall2_lookup_l _ _ _ _ _ Hrows Hi) as (rm & Hrm & Hrow).
      exists rm. split; [done |]. split; [apply Hrow |].
      intros c Hc. by apply (merged_row_uncovered _ _ _ _ c Hrow).
Qed.

(** C2 (merge null-safety).  When the fragment row of a label has a null in
    column [c], present in both tables, and the base row holds [v] there,
    the merged row holds [v] in [c], in both merges. *)
Theorem merge_null_safety B frag (update_columns : option (list string))
    (i : nat) (r : string * gmap string (value F)) (rf : gmap string (value F))
    (c : string) (v : value F) :
  NoDup (index frag) →
  rows B !! i = Some r → c ∈ columns B → c ∈ columns frag →
  (r.1, rf) ∈ rows frag → rf !! c = None → r.2 !! c = Some v →
  (∃ M r', aggregate_transects_wrapper.aggregate_transects
          B [Some frag] update_columns = Ok M ∧
           rows M !! i = Some r' ∧ r'.1 = r.1 ∧ r'.2 !! c = Some v) ∧
  (∃ M r', linear_models.calculate_linear_models B [frag] = Ok M ∧
           rows M !! i = Some r' ∧ r'.1 = r.1 ∧ r'.2 !! c = Some v).
Proof.
  intros Hnd Hi HcB HcF Hrf Hnull Hv. split.
  - destruct (aggregate_transects_ok update_columns B frag Hnd)
      as (M & HM & Hmerged).
    destruct (merged_frame_lookup _ _ _ _ _ _ Hmerged Hi) as (rm & Hrm & Hrow).
    exists M, rm. repeat split; [done.. | apply Hrow |].
    by rewrite (merged_row_null _ _ _ _ _ c Hnd Hrow I Hrf Hnull).
  - destruct (calculate_linear_models_ok B frag Hnd) as (M & HM & Hrows & _).
    destruct (Forall2_lookup_l _ _ _ _ _ Hrows Hi) as (rm & Hrm & Hrow).
    exists M, rm. repeat split; [done.. | apply Hrow |].
    by rewrite (merged_row_null _ _ _ _ _ c Hnd Hrow HcB Hrf Hnull).
Qed.

(** C9, as amended.  In the trend merge a column of a non-empty fragment
    that the base lacks is joined onto the base by label: the merged table
    has the column, a base row the fragment covers takes the fragment's
    cell, and one it does not cover holds a null.  The aggregation of
    per-site files keeps the columns of the base: such a column is not
    added. *)
Theorem new_columns_left_joined B frag (c : string) :
  NoDup (index frag) → rows frag ≠ [] →
  c ∈ columns frag → c ∉ columns B →
  (∃ M, linear_models.calculate_linear_models B [frag] = Ok M ∧
        c ∈ columns M ∧ index M = index B ∧
        ∀ r', r' ∈ rows M →
          (r'.1 ∉ index frag → r'.2 !! c = None) ∧
          (∀ rf, (r'.1, rf) ∈ rows frag → r'.2 !! c = rf !! c)) ∧
  (∀ update_columns : option (list string),
     ∃ M, aggregate_transects_wrapper.aggregate_transects
          B [Some frag] update_columns = Ok M ∧
          columns M = columns B ∧ c ∉ columns M).
Proof.
  intros Hnd Hne HcF HcB. split.
  - destruct (calculate_linear_models_ok B frag Hnd) as (M & HM & Hrows & Hnew).
    destruct (Hnew Hne c HcF HcB) as [HcM Hcells].
    exists M. split; [done |]. split; [done |]. split.
    + unfold index. clear -Hrows.
      induction Hrows as [|rb rm ? ? [Hk _] _ IH]; [done |]. cbn. by rewrite Hk, IH.
    + intros r' Hr'. rewrite Forall_forall in Hcells. specialize (Hcells r' Hr').
      split.
      * intros Hk. by rewrite loc_rows_not_elem in Hcells.
      * intros rf Hrf.
        destruct (loc_rows_NoDup frag r'.1 Hnd) as (row & Hloc & Hrow).
        { apply list_elem_of_fmap. by exists (r'.1, rf). }
        rewrite Hloc in Hcells. rewrite Hcells.
        by rewrite (rows_NoDup_eq frag _ row rf Hnd Hrow Hrf).
  - intros update_columns.
    destruct (aggregate_transects_ok update_columns B frag Hnd) as (M & HM & HcM & _).
    exists M. split; [done |]. split; [done |]. by rewrite HcM.
Qed.
End merge_claims.

(** The hypothesis of C1 holds of a fragment with one transect. *)
Lemma merge_base_preservation_witness :
  (∃ M, aggregate_transects_wrapper.aggregate_transects base0 [Some frag0] None = Ok M ∧
        index M = index base0 ∧
        ∀ i r, rows base0 !! i = Some r → r.1 ∉ index frag0 → rows M !! i = Some r) ∧
  (∃ M, linear_models.calculate_linear_models base0 [frag0] = Ok M ∧
        index M = index base0 ∧
        ∀ i r, rows base0 !! i = Some r → r.1 ∉ index frag0 →
          ∃ r', rows M !! i = Some r' ∧ r'.1 = r.1 ∧
                ∀ c, c ∈ columns base0 → r'.2 !! c = r.2 !! c).
Proof.
  apply (merge_base_preservation base0 frag0 None).
  apply (bool_decide_unpack _). vm_compute. exact I.
Defined.

(** The hypotheses of C2 hold of the first transect: the fragment has no
    [beach_slope] for it, the base has 0.1. *)
Lemma merge_null_safety_witness :
  NoDup (index frag0) ∧
  rows base0 !! 0%nat
    = Some ("nzd0001-0000",
            {["site_id" := Str "nzd0001"; "beach_slope" := Num (1 # 10)%Q]}) ∧
  (∃ M r', aggregate_transects_wrapper.aggregate_transects
             base0 [Some frag0] None = Ok M ∧
           rows M !! 0%nat = Some r' ∧ r'.1 = "nzd0001-0000" ∧
           r'.2 !! "beach_slope" = Some (Num (1 # 10)%Q)) ∧
  (∃ M r', linear_models.calculate_linear_models base0 [frag0] = Ok M ∧
           rows M !! 0%nat = Some r' ∧ r'.1 = "nzd0001-0000" ∧
           r'.2 !! "beach_slope" = Some (Num (1 # 10)%Q)).
Proof.
  assert (NoDup (index frag0)) as Hnd
    by (apply (bool_decide_unpack _); vm_compute; exact I).
  split; [exact Hnd |]. split; [reflexivity |].
  apply (merge_null_safety base0 frag0 None 0
           ("nzd0001-0000",
            {["site_id" := Str "nzd0001"; "beach_slope" := Num (1 # 10)%Q]})
           {["site_id" := Str "nzd0001"; "trend" := Num (1 # 2)%Q]}
           "beach_slope" (Num (1 # 10)%Q) Hnd).
  - reflexivity.
  - apply (bool_decide_unpack _). vm_compute. exact I.
  - apply (bool_decide_unpack _). vm_compute. exact I.
  - left.
  - reflexivity.
  - reflexivity.
Defined.

(** The hypotheses of C9 hold of the column [trend]. *)
Lemma new_columns_left_joined_witness :
  NoDup (index frag0) ∧ rows frag0 ≠ [] ∧
  "trend" ∈ columns frag0 ∧ ("trend" ∉ columns base0) ∧
  ∃ M, linear_models.calculate_linear_models base0 [frag0] = Ok M ∧
       "trend" ∈ columns M ∧ index M = index base0 ∧
       ∀ r', r' ∈ rows M →
         (r'.1 ∉ index frag0 → r'.2 !! "trend" = None) ∧
         (∀ rf, (r'.1, rf) ∈ rows frag0 → r'.2 !! "trend" = rf !! "trend").
Proof.
  assert (NoDup (index frag0)) as Hnd
    by (apply (bool_decide_unpack _); vm_compute; exact I).
  assert (rows frag0 ≠ []) as Hne by discriminate.
  assert ("trend" ∈ columns frag0) as Hin
    by (apply (bool_decide_unpack _); vm_compute; exact I).
  assert ("trend" ∉ columns base0) as Hnin
    by (apply (bool_decide_unpack _); vm_compute; exact I).
  split; [exact Hnd |]. split; [exact Hne |]. split; [exact Hin |].
  split; [exact Hnin |].
  exact (proj1 (new_columns_left_joined base0 frag0 "trend" Hnd Hne Hin Hnin)).
Defined.

(** C9, counterexample.  The fragment has a numeric column [trend] with a
    value for the first transect; the base has no such column.  The aggregated
    table has no [trend] column and no [trend] cell. *)
Lemma aggregate_discards_new_column :
  "trend" ∈ columns frag0 ∧ ("trend" ∉ columns base0) ∧
  ∃ M, aggregate_transects_wrapper.aggregate_transects base0 [Some frag0] None = Ok M ∧
       ("trend" ∉ columns M) ∧ Forall (λ r, r.2 !! "trend" = None) (rows M).
Proof.
  split; [| split].
  - apply (bool_decide_unpack _). vm_compute. exact I.
  - apply (bool_decide_unpack _). vm_compute. exact I.
  - eexists. split; [vm_compute; reflexivity |]. split.
    + apply (bool_decide_unpack _). vm_compute. exact I.
    + apply (bool_decide_unpack _). vm_compute. exact I.
Qed.

Section sorters.
Context {A : Type} (before : Z → Z → bool) (key : A → Z).
Hypothesis before_total : ∀ x y, if before x y then x ≤ y else y ≤ x.

Lemma insert_by_perm (x : A) (l : list A) : insert_by before key x l ≡ₚ x :: l.
Proof.
  induction l as [|y l IH]; cbn; [done |].
  destruct (before (key x) (key y)); [done |].
  rewrite IH. apply Permutation_swap.
Qed.

Lemma insertion_sort_perm (l : list A) : insertion_sort before key l ≡ₚ l.
Proof.
  unfold insertion_sort. induction l as [|x l IH]; cbn; [done |].
  by rewrite insert_by_perm, IH.
Qed.

Lemma insert_by_sorted (x : A) (l : list A) :
  Sorted (λ a b, key a ≤ key b) l →
  Sorted (λ a b, key a ≤ key b) (insert_by before key x l).
Proof.
  induction 1 as [|y l Hs IH Hhd]; cbn.
  - repeat constructor.
  - pose proof (before_total (key x) (key y)) as Hxy.
    destruct (before (key x) (key y)).
    + repeat constructor; done.
    + constructor; [done |]. destruct Hhd as [|z l Hyz]; cbn.
      * by constructor.
      * destruct (before (key x) (key z)); by constructor.
Qed.

Lemma insertion_sort_sorted (l : list A) :
  Sorted (λ a b, key a ≤ key b) (insertion_sort before key l).
Proof.
  unfold insertion_sort. induction l as [|x l IH]; cbn; [constructor |].
  by apply insert_by_sorted.
Qed.
End sorters.

(** Rows of equal key stay in input order. *)
#[local, refine] Instance stable_sorter : Sorter :=
  {| sort_by A key l := insertion_sort Z.leb key l |}.
Proof.
  - intros A key l. apply insertion_sort_perm.
  - intros A key l. apply insertion_sort_sorted. intros x y.
    destruct (Z.leb_spec x y); lia.
Defined.

(** Rows of equal key come out in reverse input order. *)
#[local, refine] Instance reversing_sorter : Sorter :=
  {| sort_by A key l := insertion_sort Z.ltb key l |}.
Proof.
  - intros A key l. apply insertion_sort_perm.
  - intros A key l. apply insertion_sort_sorted. intros x y.
    destruct (Z.ltb_spec x y); lia.
Defined.

Section store_claims.
Context {F : Type} `{Float F} `{Sorter}.
Implicit Types (df existing new_observations : Frame (Z * string) F).

Lemma append_rows existing new_observations :
  rows (append existing new_observations)
  ≡ₚ rows existing ++ rows new_observations.
Proof. unfold append. cbn. by rewrite sort_by_perm, app_nil_r. Qed.

(** Whatever order the sort gives rows of equal date, the append keeps
    every row of the existing series and every new observation
    (it is a permutation of their concatenation: no identity key is
    deduplicated), the merged series is in ascending date order, and
    appending the same observations a second time yields both copies. *)
Theorem append_keeps_every_row existing new_observations :
  rows (append existing new_observations)
    ≡ₚ rows existing ++ rows new_observations ∧
  Sorted (λ a b, a.1.1 ≤ b.1.1) (rows (append existing new_observations)) ∧
  rows (append (append existing new_observations) new_observations)
    ≡ₚ rows existing ++ rows new_observations ++ rows new_observations.
Proof.
  split; [apply append_rows |]. split.
  - unfold append. cbn. apply (sort_by_sorted (λ r : (Z * string) * gmap string F, r.1.1)).
  - by rewrite !append_rows, <- app_assoc.
Qed.

Lemma foldr_max_spec (t0 : Z) (ts : list Z) :
  Forall (λ t, t ≤ foldr Z.max t0 ts) (t0 :: ts) ∧ foldr Z.max t0 ts ∈ t0 :: ts.
Proof.
  induction ts as [|t ts [IH1 IH2]]; cbn.
  - split; [by repeat constructor | left].
  - apply Forall_cons in IH1 as [Ht0 IH1]. split.
    + repeat constructor; [lia.. |].
      eapply Forall_impl; [done |]. cbn. lia.
    + destruct (Z.max_spec t (foldr Z.max t0 ts)) as [[_ ->] | [_ ->]].
      * apply elem_of_cons in IH2 as [-> | ?]; [left | right; by right].
      * right; left.
Qed.

Lemma dates_max_spec df t :
  dates_max df = Some t →
  Forall (λ r, r.1.1 ≤ t) (rows df) ∧ t ∈ (λ r, r.1.1) <$> rows df.
Proof.
  unfold dates_max. destruct (rows df) as [|r rs]; [done |].
  rewrite fmap_cons. intros [= <-].
  destruct (foldr_max_spec r.1.1 ((λ r, r.1.1) <$> rs)) as [Hle Hin].
  split; [| done].
  change (Forall (λ t0, t0 ≤ foldr Z.max r.1.1 ((λ r, r.1.1) <$> rs))
            ((λ r : Z * string * gmap string F, r.1.1) <$> r :: rs)) in Hle.
  rewrite Forall_fmap in Hle. exact Hle.
Qed.

(** C5, as amended.  For a stored series whose latest timestamp is [t]:
    the CWL tool requests the day after [t], or [start_date] when that is
    later; with a forced start date it starts from an empty series and
    requests the forced date, or [start_date] when that is later.  The batch
    script uses a forced start date as it is, and without one requests the
    day after [t], clamped to the test start date in test mode only. *)
Theorem watermark_advance (env : batch_process_NZ.environ) (start_date : Z)
    df (t forced : Z) :
  dates_max df = Some t →
  (Forall (λ r, r.1.1 ≤ t) (rows df) ∧ t ∈ (λ r, r.1.1) <$> rows df) ∧
  batch_process_nz_wrapper.min_date start_date None (Stored df)
    = (df, ISO (Z.max (t / 86400 + 1) start_date)) ∧
  batch_process_nz_wrapper.min_date start_date (Some forced) (Stored df)
    = (empty_frame, ISO (Z.max forced start_date)) ∧
  (batch_process_NZ.FORCE_START_DATE env = Some forced →
   batch_process_NZ.min_date env (Stored df) = Ok (empty_frame, ISO forced)) ∧
  (batch_process_NZ.FORCE_START_DATE env = None →
   batch_process_NZ.min_date env (Stored df)
     = Ok (df, ISO (if batch_process_NZ.TEST_MODE env
                    then Z.max (t / 86400 + 1) (batch_process_NZ.TEST_START_DATE env)
                    else t / 86400 + 1))).
Proof.
  intros Hmax. split; [by apply dates_max_spec |].
  unfold batch_process_nz_wrapper.min_date, batch_process_NZ.min_date,
    day_after_last. rewrite Hmax. cbn [str_lt].
  repeat split.
  - destruct (Z.ltb_spec (t / 86400 + 1) start_date); do 2 f_equal; lia.
  - destruct (Z.ltb_spec forced start_date); do 2 f_equal; lia.
  - by intros ->.
  - intros ->. destruct (batch_process_NZ.TEST_MODE env); cbn [andb]; [| done].
    destruct (Z.ltb_spec (t / 86400 + 1) (batch_process_NZ.TEST_START_DATE env));
      do 3 f_equal; lia.
Qed.
End store_claims.

(** The series ends on 2020-06-30: the next start date is 2020-07-01. *)
Lemma watermark_advance_witness :
  dates_max stored0 = Some 1593511200 ∧
  batch_process_nz_wrapper.min_date 5113 None (Stored stored0)
    = (stored0, ISO 18444).
Proof.
  split; [reflexivity |].
  exact (proj1 (proj2 (watermark_advance env0 5113 stored0 1593511200 18262
                         eq_refl))).
Defined.

(** C5, counterexample.  The CWL tool is run with start date 2023-01-01
    and the forced start date 2020-01-01: the start date it requests is
    2023-01-01, not the forced date. *)
Lemma forced_start_is_clamped :
  batch_process_nz_wrapper.min_date 19358 (Some 18262) (Stored stored0)
    = (empty_frame, ISO 19358) ∧
  ISO 19358 ≠ ISO 18262.
Proof. split; [reflexivity | discriminate]. Qed.

Section despike_claim.
Context {F : Type} `{Float F}.
Variable exceeds : list F → nat → F → result bool.

Lemma dropna_sublist (chainage : list (Z * option F)) :
  ((λ kv, (kv.1, Some kv.2)) <$> dropna chainage) `sublist_of` chainage.
Proof.
  unfold dropna. induction chainage as [|[t [v|]] l IH]; cbn.
  - done.
  - by apply sublist_skip.
  - by apply sublist_cons.
Qed.

Lemma unflagged_sublist {A} (flags : list bool) (l : list A) :
  (filter (λ x : bool * A, x.1 = false) (zip flags l)).*2 `sublist_of` l.
Proof.
  revert l. induction flags as [|b flags IH]; intros [|x l];
    try apply sublist_nil_l.
  cbn [zip zip_with]. rewrite filter_cons. cbn [fst]. destruct b.
  - rewrite decide_False by done. by apply sublist_cons.
  - rewrite decide_True by done. rewrite fmap_cons. by apply sublist_skip.
Qed.

Lemma mapM_raises {A B} (f : A → result B) (l : list A) (e : exn) :
  mapM f l = Raise e → ∃ x, x ∈ l ∧ f x = Raise e.
Proof.
  induction l as [|x l IH]; cbn; [done |].
  destruct (f x) as [y|e'] eqn:Hx; cbn.
  - destruct (mapM f l) as [ys|e']; cbn; [done |].
    intros [= ->]. destruct IH as (x' & Hin & Hx'); [done |].
    exists x'. split; [by right | done].
  - intros [= ->]. exists x. split; [left | done].
Qed.

(** The outlier test of the spec on the points of a series: the points it
    keeps are a subsequence, or the numerical core raises at a position. *)
Lemma identified_series (chainage : list (Z * F)) (threshold : F) :
  match
    ('(kept, dates) ←
       spec_identify_outliers exceeds (chainage.*2) (chainage.*1) threshold;
     Series kept dates)
  with
  | Ok out => out `sublist_of` chainage
  | Raise e =>
    ∃ i, (i < length chainage)%nat ∧ exceeds (chainage.*2) i threshold = Raise e
  end.
Proof.
  unfold spec_identify_outliers.
  destruct (mapM _ _) as [flags|e] eqn:Hflags; cbn [mbind result_bind].
  - unfold Series. rewrite decide_True by (by rewrite !length_fmap).
    set (kept := filter _ _).
    assert (zip (kept.*2.*1) (kept.*2.*2) = kept.*2) as ->
      by apply zip_fst_snd.
    unfold kept. rewrite <- (zip_fst_snd chainage) at 3.
    apply unflagged_sublist.
  - apply mapM_raises in Hflags as (i & Hi & Hraise).
    exists i. split; [| done].
    apply elem_of_seq in Hi. rewrite length_fmap in Hi. lia.
Qed.

(** C6 (despike subsequence law).  With the outlier test of the spec, both
    [despike] functions return, for every series and threshold, a
    subsequence of the non-null points of the series, each with its own
    timestamp and value, in their order, so the output is no longer than
    [series.dropna()]; they raise only when the numerical core of the test
    does. *)
Theorem despike_subsequence (chainage : list (Z * option F)) (threshold : F) :
  ((λ kv, (kv.1, Some kv.2)) <$> dropna chainage) `sublist_of` chainage ∧
  match despike (spec_identify_outliers exceeds) chainage threshold with
  | Ok out =>
    out `sublist_of` dropna chainage ∧
    (length out ≤ length (dropna chainage))%nat
  | Raise e =>
    ∃ i, (i < length (dropna chainage))%nat ∧
         exceeds ((dropna chainage).*2) i threshold = Raise e
  end ∧
  match
    linear_models.despike (spec_identify_outliers exceeds) chainage threshold
  with
  | Ok out =>
    out `sublist_of` dropna chainage ∧
    (length out ≤ length (dropna chainage))%nat
  | Raise e =>
    ∃ i, (i < length (dropna chainage))%nat ∧
         exceeds ((dropna chainage).*2) i threshold = Raise e
  end.
Proof.
  split; [apply dropna_sublist |].
  pose proof (identified_series (dropna chainage) threshold) as Hid.
  split.
  - unfold despike. destruct (_ ≫= _) as [out|e]; [| done].
    split; [done | by apply sublist_length].
  - unfold linear_models.despike. case_decide as Hlen.
    + split; [apply sublist_nil_l | cbn; lia].
    + destruct (_ ≫= _) as [out|e]; [| done].
      split; [done | by apply sublist_length].
Qed.
End despike_claim.

(** [despike] run on three points, one null and one beyond the
    threshold. *)
Lemma despike_subsequence_witness :
  despike (spec_identify_outliers far_from_zero)
    [(600, Some 10%Q); (1200, None); (1800, Some 99%Q)] 40%Q
    = Ok [(600, 10%Q)] ∧
  [(600, 10%Q)]
    `sublist_of` dropna [(600, Some 10%Q); (1200, None); (1800, Some 99%Q)].
Proof.
  pose proof (despike_subsequence far_from_zero
                [(600, Some 10%Q); (1200, None); (1800, Some 99%Q)] 40%Q)
    as (_ & Hout & _).
  assert (despike (spec_identify_outliers far_from_zero)
            [(600, Some 10%Q); (1200, None); (1800, Some 99%Q)] 40%Q
          = Ok [(600, 10%Q)]) as Hrun by (vm_compute; reflexivity).
  rewrite Hrun in Hout. split; [exact Hrun | exact (proj1 Hout)].
Defined.

Section correction_facts.
Context {F : Type} `{Float F}.
Implicit Types (raw_intersects tides corrections : Frame Z F).
Implicit Types (transects_at_site : Frame string (value F)).

Lemma zero_row_lookup (cols : list string) c :
  c ∈ cols → zero_row cols !! c = Some (float_of_Z 0).
Proof.
  unfold zero_row. induction cols as [|c' cols IH]; intros Hc; cbn.
  - by apply elem_of_nil in Hc.
  - destruct (decide (c = c')) as [-> | Hne]; [by rewrite lookup_insert_eq |].
    rewrite lookup_insert_ne by done. apply IH.
    by apply elem_of_cons in Hc as [? | ?].
Qed.

Lemma tide_corrections_ok tides (slopes : list (string * option F)) :
  rows tides ≠ [] →
  ∃ corrections, tide_corrections tides slopes = Ok corrections ∧
    index corrections = index tides ∧ columns corrections = slopes.*1.
Proof.
  intros Hne. unfold tide_corrections. rewrite decide_False by done.
  eexists. split; [done |]. split; [| done].
  unfold index. cbn. rewrite <- list_fmap_compose. done.
Qed.




Lemma round_10min_grid (t : Z) : ∃ q, round_10min t = 600 * q.
Proof.
  unfold round_10min. repeat case_match; eauto.
Qed.

Lemma round_10min_idem (t : Z) : round_10min (round_10min t) = round_10min t.
Proof.
  destruct (round_10min_grid t) as [q ->]. unfold round_10min.
  rewrite (Z.mul_comm 600 q), Z.mod_mul, Z.div_mul by lia. cbn. lia.
Qed.

End correction_facts.


(** Observations at 10:03 with tide samples at 10:00: both samples are
    selected, by the rounded observation times, and both corrections are
    0, the raw timestamps having no sample. *)
Lemma off_grid_observations_get_zero :
  ∃ transects_at_site raw_intersects tides corrections,
    tidal_correction_apply_wrapper.matching_tides
      transects0 "nzd0001" csv_off_grid tides2
      = Ok (transects_at_site, raw_intersects, tides) ∧
    rows tides = rows tides2 ∧
    aligned_corrections raw_intersects tides transects_at_site = Ok corrections ∧
    rows corrections
      = [(1577872980, {["nzd0001-0000" := 0%Q]});
         (1579255380, {["nzd0001-0000" := 0%Q]})].
Proof.
  do 4 eexists. split; [vm_compute; reflexivity |].
  split; [reflexivity |]. split; vm_compute; reflexivity.
Qed.

Section control_raise.
Context {A S : Type}.

End control_raise.

Section mask_facts.
Context {F : Type} `{Float F}.
Implicit Types (df tides : Frame Z F) (key : string).




End mask_facts.

Section valid_inputs_facts.
Context {F : Type} `{Float F}.
Implicit Types (df tides : Frame Z F) (key : string).





End valid_inputs_facts.

Section stage_facts.
Context {F : Type} `{Float F} {Freq TS : Type}.
Variable find_tide_peak : list Z → list (option F) → result Freq.
Variable tide_correct : list F → list (option F) → TS.
Variable integrate_power_spectrum : list Z → TS → Freq → result (F * (F * F)).
Implicit Types (df tides : Frame Z F) (key : string).




End stage_facts.

(** C7, at the failing input.  The site has a transect with slope 0.1 and
    one without a slope; the time series has a column for each.  The script
    [slope_estimation.py] estimates both and overwrites the slope 0.1 with
    the new estimate 0.05; the CWL wrapper estimates the missing slope only
    and leaves 0.1 in place. *)
Lemma solved_transect_is_recomputed :
  loc transects1 "nzd0001-0000" "beach_slope" = Ok (Some (Num (1 # 10)%Q)) ∧
  (∃ saved,
     slope_estimation.estimate_slopes (λ _ _, Ok ()) (λ _ _, ()) constant_slope
       None {["nzd0001" := mkSiteFiles (Some csv1) (Some tides2) None]}
       transects1 = Ok saved ∧
     loc saved "nzd0001-0000" "beach_slope" = Ok (Some (Num (1 # 20)%Q))) ∧
  (∃ saved,
     slope_estimation_wrapper.estimate_slopes_for_site (λ _ _, Ok ())
       (λ _ _, ()) constant_slope "nzd0001" csv1 tides2 transects1 = Ok saved ∧
     loc saved "nzd0001-0000" "beach_slope" = Ok (Some (Num (1 # 10)%Q)) ∧
     loc saved "nzd0001-0001" "beach_slope" = Ok (Some (Num (1 # 20)%Q))).
Proof.
  split; [reflexivity |]. split.
  - eexists. split; [vm_compute; reflexivity |]. vm_compute. reflexivity.
  - eexists. split; [vm_compute; reflexivity |]. split; vm_compute; reflexivity.
Qed.

Section wrapper_scope.
Import slope_estimation_wrapper.
Context {F : Type} `{Float F} {Freq TS : Type}.
Variable find_tide_peak : list Z → list (option F) → result Freq.
Variable tide_correct : list F → list (option F) → TS.
Variable integrate_power_spectrum : list Z → TS → Freq → result (F * (F * F)).
Implicit Types (transects base updated : Frame string (value F)).

Lemma estimate_transect_step (df tides : Frame Z F) freqs_max (key : string)
    (acc acc' : list (string * (F * (F * F)))) :
  estimate_transect tide_correct integrate_power_spectrum
    df tides freqs_max acc key = Ok acc' →
  acc' = acc ∨ ∃ estimate, acc' = acc ++ [(key, estimate)].
Proof.
  unfold estimate_transect.
  destruct (valid_inputs df tides key) as [[[[dates tide] composite]|]|e];
    cbn; [| by intros [= <-]; left | done].
  destruct (integrate_power_spectrum _ _ _) as [estimate|e]; intros [= <-];
    [right; by exists estimate | by left].
Qed.

Lemma estimated_keys (df tides : Frame Z F) freqs_max (keys : list string)
    (acc slope_est : list (string * (F * (F * F)))) :
  Forall (λ kv, kv.1 ∈ keys) acc →
  for_each (estimate_transect tide_correct integrate_power_spectrum
              df tides freqs_max) keys acc = Ok slope_est →
  Forall (λ kv, kv.1 ∈ keys) slope_est.
Proof.
  assert (∀ todo, todo ⊆ keys → ∀ acc,
    Forall (λ kv, kv.1 ∈ keys) acc →
    for_each (estimate_transect tide_correct integrate_power_spectrum
                df tides freqs_max) todo acc = Ok slope_est →
    Forall (λ kv, kv.1 ∈ keys) slope_est) as Hgen.
  { induction todo as [|key todo IH]; intros Hsub acc' Hacc; cbn [for_each].
    - by intros [= <-].
    - destruct (estimate_transect _ _ _ _ _ acc' key) as [acc''|e] eqn:Hstep;
        cbn [mbind result_bind]; [| done].
      apply IH; [set_solver |].
      apply estimate_transect_step in Hstep as [-> | [estimate ->]]; [done |].
      apply Forall_app. split; [done |]. repeat constructor. cbn. set_solver. }
  intros Hacc. by apply Hgen.
Qed.

Lemma kept_off_refl keys base : kept_off keys base base.
Proof. apply Forall_Forall2_diag, Forall_forall. by intros r _. Qed.

Lemma assign_if_present_kept keys base updated (key col : string) (v : value F) :
  key ∈ keys → kept_off keys base updated →
  kept_off keys base (assign_if_present updated key col v).
Proof.
  intros Hkey Hkept. unfold assign_if_present, loc_assign.
  case_decide as Hin; [| done].
  unfold kept_off in *. cbn [rows loc_set]. apply Forall2_fmap_r.
  eapply Forall2_impl; [done |]. intros rb rm [Hk Hrm]. cbn.
  case_decide as Hlabel; [| done]. split; [done |].
  intros Hnot. exfalso. apply Hnot. congruence.
Qed.

Lemma needs_slope_row transects site_id (key : string) :
  key ∈ index (transects_at_site transects site_id) →
  ∃ row, (key, row) ∈ rows (at_site transects site_id) ∧
         row !! "beach_slope" = None.
Proof.
  unfold index, transects_at_site, at_site. cbn.
  intros ([k row] & -> & Hin)%list_elem_of_fmap.
  apply list_elem_of_filter in Hin as [[Hsite Hnull] Hin]. cbn in *.
  exists row. split; [| done]. by apply list_elem_of_filter.
Qed.

(** The CWL wrapper leaves every transect of the site that has a slope as
    it is, when the transect ids of the site are distinct. *)
Theorem wrapper_estimates_missing_slopes_only (site_id : string)
    (csv : Frame (Z * string) F) (tides : Frame Z F) transects out :
  NoDup (index (at_site transects site_id)) →
  estimate_slopes_for_site find_tide_peak tide_correct integrate_power_spectrum
    site_id csv tides transects = Ok out →
  Forall2 (λ rb rm, rm.1 = rb.1 ∧ (is_Some (rb.2 !! "beach_slope") → rm = rb))
    (rows (at_site transects site_id)) (rows out).
Proof.
  intros Hnd Hout.
  assert (∀ df, kept_off (transect_ids_to_process transects site_id df)
                  (at_site transects site_id) out →
    Forall2 (λ rb rm, rm.1 = rb.1 ∧ (is_Some (rb.2 !! "beach_slope") → rm = rb))
      (rows (at_site transects site_id)) (rows out)) as Hfinal.
  { intros df Hkept. unfold kept_off in Hkept.
    apply Forall2_same_length_lookup. split; [by eapply Forall2_length |].
    intros i rb rm Hrb Hrm.
    destruct (Forall2_lookup_l _ _ _ _ _ Hkept Hrb) as (rm' & Hrm' & Hk & Hsame).
    assert (rm' = rm) as -> by congruence. split; [done |].
    intros [v Hv]. apply Hsame. intros Hin.
    apply list_elem_of_filter in Hin as [_ Hin].
    destruct (needs_slope_row _ _ _ Hin) as (row & Hrow & Hnull).
    assert (rb.2 = row) as Heq.
    { eapply (rows_NoDup_eq (at_site transects site_id)); [done | | done].
      destruct rb. by eapply list_elem_of_lookup_2. }
    congruence. }
  unfold estimate_slopes_for_site in Hout.
  case_decide; [injection Hout as <-; apply (Hfinal empty_frame), kept_off_refl |].
  destruct (align_dates _ _) as [[df tides']|e]; cbn in Hout; [| done].
  case_decide; [done |].
  destruct (find_tide_peak _ _) as [freqs_max|e]; cbn in Hout; [| done].
  destruct (for_each _ _ _) as [slope_est|e] eqn:Hest; cbn in Hout; [| done].
  apply estimated_keys in Hest; [| constructor].
  case_decide; [injection Hout as <-; apply (Hfinal empty_frame), kept_off_refl |].
  injection Hout as <-. apply (Hfinal df).
  assert (∀ (step : Frame string (value F) → string * (F * (F * F)) →
                    Frame string (value F)) est base updated,
    (∀ updated kv, kv ∈ est →
       kept_off (transect_ids_to_process transects site_id df) base updated →
       kept_off (transect_ids_to_process transects site_id df) base
         (step updated kv)) →
    kept_off (transect_ids_to_process transects site_id df) base updated →
    kept_off (transect_ids_to_process transects site_id df) base
      (foldl step updated est)) as Hfold.
  { induction est as [|kv est IH]; intros base updated Hstep Hkept; cbn; [done |].
    apply IH; [intros; apply Hstep; [by right | done] |].
    apply Hstep; [left | done]. }
  rewrite Forall_forall in Hest.
  apply Hfold.
  - intros updated kv Hkv Hkept.
    do 2 (apply assign_if_present_kept; [by apply Hest |]). done.
  - apply Hfold; [| apply kept_off_refl].
    intros updated kv Hkv Hkept. apply assign_if_present_kept; [by apply Hest | done].
Qed.
End wrapper_scope.

(** The hypotheses hold of the site of [transects1]: the wrapper leaves the
    transect that has a slope as it is. *)
Lemma wrapper_estimates_missing_slopes_only_witness :
  NoDup (index (at_site transects1 "nzd0001")) ∧
  ∃ out,
    slope_estimation_wrapper.estimate_slopes_for_site (λ _ _, Ok ())
      (λ _ _, ()) constant_slope "nzd0001" csv1 tides2 transects1 = Ok out ∧
    Forall2 (λ rb rm, rm.1 = rb.1 ∧
                      (is_Some (rb.2 !! "beach_slope") → rm = rb))
      (rows (at_site transects1 "nzd0001")) (rows out).
Proof.
  assert (NoDup (index (at_site transects1 "nzd0001"))) as Hnd
    by (apply (bool_decide_unpack _); vm_compute; exact I).
  split; [exact Hnd |]. eexists. split; [vm_compute; reflexivity |].
  apply (wrapper_estimates_missing_slopes_only (λ _ _, Ok ()) (λ _ _, ())
           constant_slope "nzd0001" csv1 tides2 transects1 _ Hnd).
  vm_compute. reflexivity.
Defined.

(** ** Lists *)

Lemma filter_all {A} (P : A → Prop) `{∀ x, Decision (P x)} (l : list A) :
  (∀ x, x ∈ l → P x) → filter P l = l.
Proof.
  induction l as [|x l IH]; intros Hl; [done |].
  rewrite filter_cons_True by (apply Hl; left).
  f_equal. apply IH. intros y Hy. apply Hl. by right.
Qed.

Lemma sublist_same_length {A} (l1 l2 : list A) :
  l1 `sublist_of` l2 → length l1 = length l2 → l1 = l2.
Proof.
  induction 1 as [|x l1 l2 _ IH | x l1 l2 Hsub _]; cbn; intros Hlen.
  - done.
  - f_equal. apply IH. lia.
  - apply sublist_length in Hsub. lia.
Qed.

Lemma Forall2_zip_labels {A B C} (P : A → C → Prop) (f : A → B)
    (rs : list A) (ys : list C) :
  Forall2 P rs ys → Forall2 (λ r p, P r p.2) rs (zip (f <$> rs) ys).
Proof. induction 1; cbn; by constructor. Qed.

Lemma fmap_eq_Forall2 {A B C} (f : A → C) (g : B → C) (l1 : list A) (l2 : list B) :
  f <$> l1 = g <$> l2 → Forall2 (λ a b, f a = g b) l1 l2.
Proof.
  revert l2. induction l1 as [|a l1 IH]; intros [|b l2]; cbn; try done.
  intros [= Hab Hrest]. constructor; [done | by apply IH].
Qed.

Lemma Forall2_same_labels {A B K} (f : A → K) (g : B → K) (ks : list K)
    (l1 : list A) (l2 : list B) :
  Forall2 (λ k r, f r = k) ks l1 → Forall2 (λ k t, g t = k) ks l2 →
  Forall2 (λ r t, f r = g t) l1 l2.
Proof.
  intros H1. revert l2. induction H1 as [|k r ks l1 Hr _ IH]; intros l2 H2;
    inversion H2 as [|? t ? ? Ht Hrest]; subst; constructor; [congruence |].
  by apply IH.
Qed.

Lemma Forall2_with_Forall {A B} (P : A → Prop) (R Q : A → B → Prop)
    (l : list A) (k : list B) :
  Forall P l → Forall2 R l k → (∀ a b, P a → R a b → Q a b) → Forall2 Q l k.
Proof.
  intros HP HR Himpl. induction HR as [|a b l k Hab _ IH]; constructor.
  - apply Himpl; [| done]. by apply Forall_cons in HP as [? _].
  - apply IH. by apply Forall_cons in HP as [_ ?].
Qed.

(** ** The observation store: order of the merged series *)

Section sorted_facts.
Context {A : Type} (key : A → Z).

Lemma elem_of_same_key (l : list A) (x y : A) :
  NoDup (key <$> l) → x ∈ l → y ∈ l → key x = key y → x = y.
Proof.
  intros Hnd Hx Hy Hk.
  apply list_elem_of_lookup in Hx as [i Hi], Hy as [j Hj].
  assert ((key <$> l) !! i = Some (key x)) as Hi' by (by rewrite list_lookup_fmap, Hi).
  assert ((key <$> l) !! j = Some (key x)) as Hj' by (by rewrite list_lookup_fmap, Hj, Hk).
  pose proof (NoDup_lookup _ _ _ _ Hnd Hi' Hj') as ->. congruence.
Qed.

#[local] Instance key_le_trans : Transitive (λ a b : A, key a ≤ key b).
Proof. intros x y z. lia. Qed.

Lemma sorted_rows_unique (l1 l2 : list A) :
  NoDup (key <$> l1) → l1 ≡ₚ l2 →
  Sorted (λ a b, key a ≤ key b) l1 → Sorted (λ a b, key a ≤ key b) l2 →
  l1 = l2.
Proof.
  intros Hnd Hperm H1 H2.
  apply (Sorted_unique_strong (λ a b, key a ≤ key b)); [| done..].
  intros x1 x2 Hx1 Hx2 Hle1 Hle2. rewrite <- Hperm in Hx2.
  apply (elem_of_same_key l1); [done.. | lia].
Qed.

(** A sorted list is its rows below a bound followed by the others. *)
Lemma sorted_split (bound : Z) (l : list A) :
  Sorted (λ a b, key a ≤ key b) l →
  l = filter (λ a, key a < bound) l ++ filter (λ a, ¬ key a < bound) l.
Proof.
  intros Hs. apply Sorted_StronglySorted in Hs; [| apply _].
  induction Hs as [|x l Hs IH Hall]; [done |].
  rewrite !filter_cons. destruct (decide (key x < bound)) as [Hx | Hx].
  - rewrite decide_False by tauto. cbn. by rewrite <- IH.
  - rewrite decide_True by done.
    rewrite (filter_none (λ a, key a < bound) l).
    + cbn. f_equal. rewrite IH at 1.
      rewrite (filter_none (λ a, key a < bound) l); [done |].
      intros y Hy. rewrite Forall_forall in Hall. specialize (Hall y Hy). lia.
    + intros y Hy. rewrite Forall_forall in Hall. specialize (Hall y Hy). lia.
Qed.

Lemma sorted_strict (l : list A) :
  NoDup (key <$> l) → Sorted (λ a b, key a ≤ key b) l →
  StronglySorted (λ a b, key a < key b) l.
Proof.
  intros Hnd Hs. apply Sorted_StronglySorted in Hs; [| apply _].
  induction Hs as [|x l Hs IH Hall]; constructor.
  - apply IH. rewrite fmap_cons in Hnd. by apply NoDup_cons in Hnd as [_ ?].
  - rewrite fmap_cons in Hnd. apply NoDup_cons in Hnd as [Hx _].
    rewrite Forall_forall in Hall |- *. intros y Hy. specialize (Hall y Hy).
    assert (key x ≠ key y); [| lia].
    intros Heq. apply Hx. rewrite Heq. apply list_elem_of_fmap. by exists y.
Qed.
End sorted_facts.

Section store_more.
Context {F : Type}.
Implicit Types (df existing new_observations : Frame (Z * string) F).

(** When no two rows carry the same timestamp the merged series does not
    depend on the sorting algorithm. *)
Theorem append_is_determined_by_dates (s1 s2 : Sorter) existing new_observations :
  NoDup ((λ r, r.1.1) <$> rows existing ++ rows new_observations) →
  @append F s1 existing new_observations = @append F s2 existing new_observations ∧
  StronglySorted (λ a b, a.1.1 < b.1.1)
    (rows (@append F s1 existing new_observations)).
Proof.
  intros Hnd.
  assert (∀ s : Sorter, rows (@append F s existing new_observations)
                        ≡ₚ rows existing ++ rows new_observations) as Hperm.
  { intros s. unfold append. cbn. by rewrite sort_by_perm, app_nil_r. }
  assert (∀ s : Sorter, Sorted (λ a b : (Z * string) * gmap string F, a.1.1 ≤ b.1.1)
                          (rows (@append F s existing new_observations))) as Hsorted.
  { intros s. unfold append. cbn.
    apply (sort_by_sorted (λ r : (Z * string) * gmap string F, r.1.1)). }
  assert (rows (@append F s1 existing new_observations)
          = rows (@append F s2 existing new_observations)) as Hrows.
  { apply (sorted_rows_unique (λ r : (Z * string) * gmap string F, r.1.1));
      [| by rewrite !Hperm | done..].
    by rewrite (Hperm s1). }
  split.
  - unfold append in *. cbn in *. by rewrite Hrows.
  - apply (sorted_strict (λ r : (Z * string) * gmap string F, r.1.1));
      [by rewrite (Hperm s1) | done].
Qed.

(** Without a forced start date the requested start day is after the day of
    every stored observation; when the new observations are of that day or
    later, they are placed after all the stored rows. *)
Theorem new_observations_follow_stored `{Sorter} (env : batch_process_NZ.environ)
    (start_date : Z) existing new_observations (d : Z) :
  (batch_process_nz_wrapper.min_date start_date None (Stored existing)
     = (existing, ISO d) ∨
   (batch_process_NZ.FORCE_START_DATE env = None ∧
    batch_process_NZ.min_date env (Stored existing) = Ok (existing, ISO d))) →
  Forall (λ r, d ≤ r.1.1 / 86400) (rows new_observations) →
  Forall (λ r, r.1.1 / 86400 < d) (rows existing) ∧
  ∃ l_old l_new,
    rows (append existing new_observations) = l_old ++ l_new ∧
    l_old ≡ₚ rows existing ∧ l_new ≡ₚ rows new_observations.
Proof.
  intros Hdate Hnew.
  assert (∃ t, dates_max existing = Some t ∧ t / 86400 + 1 ≤ d) as (t & Ht & Hd).
  { destruct Hdate as [Hw | [Hforce Hs]].
    - unfold batch_process_nz_wrapper.min_date, day_after_last in Hw.
      destruct (dates_max existing) as [t|]; cbn in Hw; [| done].
      exists t. split; [done |].
      destruct (Z.ltb_spec (t / 86400 + 1) start_date); injection Hw as <-; lia.
    - unfold batch_process_NZ.min_date, day_after_last in Hs. rewrite Hforce in Hs.
      destruct (dates_max existing) as [t|]; cbn in Hs.
      + exists t. split; [done |].
        destruct (batch_process_NZ.TEST_MODE env); cbn in Hs;
          [| injection Hs as <-; lia].
        destruct (Z.ltb_spec (t / 86400 + 1) (batch_process_NZ.TEST_START_DATE env));
          injection Hs as <-; lia.
      + by rewrite andb_false_r in Hs. }
  destruct (dates_max_spec existing t Ht) as [Hle _].
  assert (Forall (λ r, r.1.1 / 86400 < d) (rows existing)) as Hold.
  { eapply Forall_impl; [done |]. cbn. intros r Hr.
    pose proof (Z.div_le_mono r.1.1 t 86400). lia. }
  split; [done |].
  set (key := λ r : (Z * string) * gmap string F, r.1.1).
  set (L := rows (append existing new_observations)).
  assert (L ≡ₚ rows existing ++ rows new_observations) as Hperm.
  { unfold L, append. cbn. by rewrite sort_by_perm, app_nil_r. }
  assert (Sorted (λ a b, key a ≤ key b) L) as Hsorted.
  { unfold L, append. cbn. apply (sort_by_sorted key). }
  exists (filter (λ a, key a < 86400 * d) L), (filter (λ a, ¬ key a < 86400 * d) L).
  split; [by apply sorted_split |].
  rewrite !Hperm, !filter_app. split.
  - rewrite (filter_all _ (rows existing)), (filter_none _ (rows new_observations)).
    + by rewrite app_nil_r.
    + intros r Hr. rewrite Forall_forall in Hnew. specialize (Hnew r Hr).
      unfold key. pose proof (Z.mul_div_le r.1.1 86400). lia.
    + intros r Hr. rewrite Forall_forall in Hold. specialize (Hold r Hr).
      unfold key. pose proof (Z.mod_pos_bound r.1.1 86400).
      pose proof (Z.div_mod r.1.1 86400). lia.
  - rewrite (filter_none _ (rows existing)), (filter_all _ (rows new_observations)).
    + done.
    + intros r Hr. rewrite Forall_forall in Hnew. specialize (Hnew r Hr).
      unfold key. pose proof (Z.mul_div_le r.1.1 86400). lia.
    + intros r Hr. rewrite Forall_forall in Hold. specialize (Hold r Hr).
      unfold key. pose proof (Z.mod_pos_bound r.1.1 86400).
      pose proof (Z.div_mod r.1.1 86400). lia.
Qed.
End store_more.

(** The timestamps of [stored0] and [new1] are distinct: a stable sort and
    one that reverses ties give the same series. *)
Lemma append_is_determined_by_dates_witness :
  NoDup ((λ r, r.1.1) <$> rows stored0 ++ rows new1) ∧
  @append Q stable_sorter stored0 new1 = @append Q reversing_sorter stored0 new1 ∧
  StronglySorted (λ a b, a.1.1 < b.1.1)
    (rows (@append Q stable_sorter stored0 new1)).
Proof.
  assert (NoDup ((λ r, r.1.1) <$> rows stored0 ++ rows new1)) as Hnd
    by (apply (bool_decide_unpack _); vm_compute; exact I).
  split; [exact Hnd |].
  exact (append_is_determined_by_dates stable_sorter reversing_sorter
           stored0 new1 Hnd).
Defined.

(** The store [stored0] ends on 2020-06-30, day 18443; the observation of
    [new1] is of the next day. *)
Lemma new_observations_follow_stored_witness :
  batch_process_nz_wrapper.min_date 0 None (Stored stored0)
    = (stored0, ISO 18444) ∧
  Forall (λ r, 18444 ≤ r.1.1 / 86400) (rows new1) ∧
  Forall (λ r, r.1.1 / 86400 < 18444) (rows stored0) ∧
  ∃ l_old l_new,
    rows (@append Q stable_sorter stored0 new1) = l_old ++ l_new ∧
    l_old ≡ₚ rows stored0 ∧ l_new ≡ₚ rows new1.
Proof.
  assert (batch_process_nz_wrapper.min_date 0 None (Stored stored0)
          = (stored0, ISO 18444)) as Hdate by (vm_compute; reflexivity).
  assert (Forall (λ r, 18444 ≤ r.1.1 / 86400) (rows new1)) as Hnew
    by (apply (bool_decide_unpack _); vm_compute; exact I).
  split; [exact Hdate |]. split; [exact Hnew |].
  exact (@new_observations_follow_stored Q stable_sorter env0 0 stored0 new1
           18444 (or_introl Hdate) Hnew).
Defined.

(** ** Tidal correction: slopes, matched and unmatched rows *)

Section gap_filling_facts.
Context {F : Type} `{Float F}.
Implicit Types (l : list (option F)).

(** [kept x y]: a valid value is still there. *)
#[local] Abbreviation kept := (λ x y : option F, is_Some x → y = x).

Lemma Forall2_kept_trans l1 l2 l3 :
  Forall2 kept l1 l2 → Forall2 kept l2 l3 → Forall2 kept l1 l3.
Proof.
  intros H12 H23. eapply Forall2_trans; [| done..].
  intros x y z Hxy Hyz Hx. rewrite <- (Hxy Hx). apply Hyz. by rewrite (Hxy Hx).
Qed.

Lemma interpolate_from_kept (a : F) (k : nat) l :
  Forall2 kept l (interpolate_from a k l).
Proof.
  revert a k. induction l as [|[b|] l IH]; intros a k; cbn; constructor;
    try done; by intros [? ?].
Qed.

Lemma interpolate_kept l : Forall2 kept l (interpolate l).
Proof.
  induction l as [|[a|] l IH]; cbn; constructor;
    try done; try apply interpolate_from_kept; by intros [? ?].
Qed.

Lemma ffill_from_kept (last : option F) l : Forall2 kept l (ffill_from last l).
Proof.
  revert last. induction l as [|[a|] l IH]; intros last; cbn; constructor;
    try done; by intros [? ?].
Qed.

Lemma bfill_kept l : Forall2 kept l (bfill l).
Proof.
  unfold bfill, ffill. rewrite <- (reverse_involutive l) at 1.
  apply Forall2_reverse, ffill_from_kept.
Qed.

Lemma ffill_from_valid (v : F) l : Forall is_Some (ffill_from (Some v) l).
Proof.
  revert v. induction l as [|[a|] l IH]; intros v; cbn; constructor; eauto.
Qed.

Lemma ffill_from_all_valid (last : option F) l :
  Forall is_Some l → Forall is_Some (ffill_from last l).
Proof.
  revert last. induction l as [|[a|] l IH]; intros last Hl; cbn; [done | ..];
    apply Forall_cons in Hl as [Ha Hl]; [| by destruct Ha].
  constructor; eauto.
Qed.

Lemma ffill_from_app (last : option F) l1 (v : F) l2 :
  ffill_from last (l1 ++ Some v :: l2)
  = ffill_from last l1 ++ Some v :: ffill_from (Some v) l2.
Proof.
  revert last. induction l1 as [|[a|] l1 IH]; intros last; cbn; [done | ..];
    by rewrite IH.
Qed.

(** After [bfill] and [ffill] a series with a valid value has no null. *)
Lemma bfill_ffill_valid l (v : F) :
  Some v ∈ l → Forall is_Some (ffill (bfill l)).
Proof.
  intros (l1 & l2 & ->)%list_elem_of_split. unfold bfill, ffill.
  rewrite reverse_app, reverse_cons, <- app_assoc. cbn [app].
  rewrite ffill_from_app, reverse_app, reverse_cons, <- app_assoc. cbn [app].
  rewrite ffill_from_app. apply Forall_app. split.
  - apply ffill_from_all_valid, Forall_reverse, ffill_from_valid.
  - constructor; [by eexists |]. apply ffill_from_valid.
Qed.

Lemma ffill_from_null l :
  Forall (λ x, x = None) l → ffill_from None l = l.
Proof. induction 1 as [|x l -> _ IH]; cbn; by rewrite ?IH. Qed.

Lemma interpolate_null l : Forall (λ x, x = None) l → interpolate l = l.
Proof. induction 1 as [|x l -> _ IH]; cbn; by rewrite ?IH. Qed.
End gap_filling_facts.

Section beach_slopes_facts.
Context {F : Type} `{Float F}.
Implicit Types (transects_at_site : Frame string (value F)).

#[local] Abbreviation kept := (λ x y : option F, is_Some x → y = x).

Lemma filled_slopes_kept (l : list (option F)) :
  Forall2 kept l (ffill (bfill (interpolate l))).
Proof.
  eapply Forall2_kept_trans; [apply interpolate_kept |].
  eapply Forall2_kept_trans; [apply bfill_kept | apply ffill_from_kept].
Qed.

Lemma beach_slopes_index transects_at_site :
  (beach_slopes transects_at_site).*1 = index transects_at_site.
Proof.
  unfold beach_slopes. apply fst_zip.
  rewrite <- (Forall2_length _ _ _ (filled_slopes_kept _)).
  unfold index. by rewrite !length_fmap.
Qed.

(** The slopes used by the tidal correction: one per transect of the site,
    in order; a slope the table has is used as it is; when the table has a
    slope for some transect of the site, every transect gets one; when it
    has none, no transect does. *)
Theorem beach_slopes_fill_every_gap transects_at_site :
  (beach_slopes transects_at_site).*1 = index transects_at_site ∧
  Forall2 (λ r p, ∀ s, float_cell (r.2 !! "beach_slope") = Some s → p.2 = Some s)
    (rows transects_at_site) (beach_slopes transects_at_site) ∧
  ((∃ r s, r ∈ rows transects_at_site ∧
           float_cell (r.2 !! "beach_slope") = Some s) →
   Forall (λ p, is_Some p.2) (beach_slopes transects_at_site)) ∧
  ((∀ r, r ∈ rows transects_at_site → float_cell (r.2 !! "beach_slope") = None) →
   Forall (λ p, p.2 = None) (beach_slopes transects_at_site)).
Proof.
  unfold beach_slopes.
  set (slopes := (λ r : string * gmap string (value F),
                    float_cell (r.2 !! "beach_slope")) <$> rows transects_at_site).
  pose proof (filled_slopes_kept slopes) as Hkept.
  assert (length (index transects_at_site)
          = length (ffill (bfill (interpolate slopes)))) as Hlen.
  { rewrite <- (Forall2_length _ _ _ Hkept). unfold slopes, index.
    by rewrite !length_fmap. }
  split; [apply beach_slopes_index |]. split; [| split].
  - assert (Forall2 (λ r y, ∀ s, float_cell (r.2 !! "beach_slope") = Some s →
                              y = Some s)
              (rows transects_at_site) (ffill (bfill (interpolate slopes)))) as Hrows.
    { unfold slopes in Hkept. apply Forall2_fmap_l in Hkept.
      eapply Forall2_impl; [done |]. cbn. intros r y Hy s Hs.
      rewrite <- Hs. apply Hy. by rewrite Hs. }
    by apply (Forall2_zip_labels _ fst) in Hrows.
  - intros (r & s & Hr & Hs).
    assert (Some s ∈ interpolate slopes) as Hin.
    { assert (Some s ∈ slopes) as Hin.
      { rewrite <- Hs. unfold slopes. apply list_elem_of_fmap. by exists r. }
      apply list_elem_of_lookup in Hin as [i Hi].
      destruct (Forall2_lookup_l _ _ _ _ _ (interpolate_kept slopes) Hi)
        as (y & Hy & Hk).
      rewrite Hk in Hy by eauto. by eapply list_elem_of_lookup_2. }
    pose proof (bfill_ffill_valid _ _ Hin) as Hall.
    apply (proj1 (Forall_fmap snd is_Some _)). by rewrite snd_zip by lia.
  - intros Hnone.
    assert (Forall (λ x, x = None) slopes) as Hall.
    { unfold slopes. apply Forall_fmap, Forall_forall. intros r Hr. by apply Hnone. }
    assert (ffill (bfill (interpolate slopes)) = slopes) as Heq.
    { rewrite interpolate_null by done. unfold bfill, ffill.
      rewrite (ffill_from_null (reverse slopes)) by (by apply Forall_reverse).
      rewrite reverse_involutive. by apply ffill_from_null. }
    rewrite Heq in Hlen |- *.
    apply (proj1 (Forall_fmap snd (λ x : option F, x = None) _)).
    by rewrite snd_zip by lia.
Qed.
End beach_slopes_facts.

Section correction_rows.
Context {F : Type} `{Float F}.
Implicit Types (raw_intersects tides corrections : Frame Z F).
Implicit Types (transects_at_site : Frame string (value F)).

Lemma correction_row_keys (slopes : list (string * option F)) (tide : option F) :
  (omap (λ '(id, slope), s ← slope; t ← tide; x ← fdiv t s; Some (id, x))
     slopes).*1 `sublist_of` slopes.*1.
Proof.
  induction slopes as [|[id slope] slopes IH]; cbn; [done |].
  destruct (slope ≫= _) as [[id' x]|] eqn:E; cbn.
  - destruct slope as [s|]; [| done]. destruct tide as [t|]; [| done].
    cbn in E. destruct (fdiv t s); [| done]. injection E as <- <-.
    by apply sublist_skip.
  - by apply sublist_cons.
Qed.

(** A cell of [tide / beach_slopes]. *)
Lemma correction_row_lookup (slopes : list (string * option F))
    (tide slope : option F) (c : string) :
  NoDup (slopes.*1) → (c, slope) ∈ slopes →
  correction_row slopes tide !! c = (s ← slope; t ← tide; fdiv t s).
Proof.
  intros Hnd Hin. unfold correction_row.
  set (cells := omap _ slopes).
  assert (NoDup (cells.*1)) as Hnd'.
  { eapply sublist_NoDup; [done | apply correction_row_keys]. }
  destruct (slope ≫= _) as [x|] eqn:E.
  - apply elem_of_list_to_map; [done |]. apply list_elem_of_omap.
    exists (c, slope). split; [done |]. cbn.
    destruct slope as [s|]; [| done]. destruct tide as [t|]; [| done].
    cbn in *. by rewrite E.
  - apply not_elem_of_list_to_map. intros Hc.
    apply list_elem_of_fmap in Hc as ([c' x] & -> & Hx). cbn in *.
    apply list_elem_of_omap in Hx as ([c2 slope2] & Hin2 & Hx). cbn in Hx.
    assert (c2 = c' ∧ (s ← slope2; t ← tide; fdiv t s) = Some x) as [-> Hx'].
    { destruct slope2 as [s|]; [| done]. destruct tide as [t|]; [| done].
      cbn in *. destruct (fdiv t s); [| done]. by injection Hx as <- <-. }
    assert (slope2 = slope) as ->; [| congruence].
    pose proof (elem_of_list_to_map_1 (M := gmap string) _ _ _ Hnd Hin) as H1.
    pose proof (elem_of_list_to_map_1 (M := gmap string) _ _ _ Hnd Hin2) as H2.
    congruence.
Qed.

(** The corrections row by row: a raw row whose timestamp carries a tide
    sample gets that sample over the slopes, any other gets zeros. *)
Lemma aligned_corrections_rows raw_intersects tides transects_at_site :
  rows tides ≠ [] → NoDup (index tides) →
  ∃ corrections,
    aligned_corrections raw_intersects tides transects_at_site = Ok corrections ∧
    columns corrections = index transects_at_site ∧
    Forall2 (λ r cr, cr.1 = r.1 ∧
       ((∃ trow, (r.1, trow) ∈ rows tides ∧
                 cr.2 = correction_row (beach_slopes transects_at_site)
                          (trow !! "tide")) ∨
        ((r.1 ∉ index tides) ∧
         cr.2 = zero_row (index transects_at_site))))
      (rows raw_intersects) (rows corrections).
Proof.
  intros Hne Hnd. unfold aligned_corrections.
  destruct (tide_corrections_ok tides (beach_slopes transects_at_site) Hne)
    as (c0 & Hc0 & Hidx & Hcols).
  rewrite Hc0. cbn [mbind result_bind].
  assert (columns c0 = index transects_at_site) as Hcols'.
  { rewrite Hcols. apply beach_slopes_index. }
  destruct (reindex_spec c0 (index raw_intersects) (zero_row (columns c0)))
    as (c1 & -> & Hcols1 & Hrows); [by rewrite Hidx |].
  exists c1. split; [done |]. split; [congruence |].
  unfold index in Hrows at 1. apply Forall2_fmap_l in Hrows.
  eapply Forall2_impl; [done |]. cbn. intros r cr [Hk Hcase]. split; [done |].
  destruct Hcase as [Hin | [Hnin ->]].
  - left. unfold tide_corrections in Hc0. rewrite decide_False in Hc0 by done.
    injection Hc0 as <-. cbn in Hin.
    apply list_elem_of_fmap in Hin as ([t trow] & [= Ht Hrow] & Hin).
    exists trow. split; [by rewrite Ht | done].
  - right. split; [by rewrite <- Hidx | by rewrite Hcols'].
Qed.

Lemma frame_add_lookup (a b : Frame Z F) (i : nat) ra rb :
  rows a !! i = Some ra → rows b !! i = Some rb →
  rows (frame_add a b) !! i = Some (ra.1, intersection_with fadd ra.2 rb.2).
Proof.
  intros Ha Hb. unfold frame_add. cbn [rows].
  rewrite lookup_zip_with, Ha. cbn. by rewrite Hb.
Qed.

(** A raw row whose own timestamp carries a tide sample is corrected by the
    tide over the slope of each transect: the corrected chainage is the raw
    chainage plus tide / slope. *)
Theorem matched_rows_get_tide_over_slope raw_intersects tides transects_at_site
    (i : nat) (t : Z) (row trow : gmap string F) (c : string) :
  NoDup (index tides) → NoDup (index transects_at_site) →
  rows raw_intersects !! i = Some (t, row) → (t, trow) ∈ rows tides →
  c ∈ index transects_at_site →
  ∃ corrections corrected slope crow orow,
    aligned_corrections raw_intersects tides transects_at_site = Ok corrections ∧
    tidally_corrected raw_intersects tides transects_at_site = Ok corrected ∧
    (c, slope) ∈ beach_slopes transects_at_site ∧
    rows corrections !! i = Some (t, crow) ∧
    crow !! c = (s ← slope; v ← trow !! "tide"; fdiv v s) ∧
    rows corrected !! i = Some (t, orow) ∧
    orow !! c = (y ← row !! c; x ← crow !! c; fadd y x).
Proof.
  intros Hnd Hids Hi Hin Hc.
  assert (rows tides ≠ []) as Hne by (intros Heq; rewrite Heq in Hin; set_solver).
  destruct (aligned_corrections_rows raw_intersects tides transects_at_site
              Hne Hnd) as (corrections & Hcorr & Hcols & Hrows).
  destruct (Forall2_lookup_l _ _ _ _ _ Hrows Hi) as ([t' crow] & Hi' & Ht & Hcase).
  cbn in Ht, Hcase. subst t'.
  assert (∃ slope, (c, slope) ∈ beach_slopes transects_at_site) as [slope Hslope].
  { rewrite <- beach_slopes_index in Hc.
    apply list_elem_of_fmap in Hc as ([c' slope] & -> & Hin'). by exists slope. }
  exists corrections, (frame_add raw_intersects corrections), slope, crow,
    (intersection_with fadd row crow).
  split; [done |]. split.
  { unfold tidally_corrected. by rewrite Hcorr. }
  split; [done |]. split; [done |]. split; [| split].
  - destruct Hcase as [(trow' & Hin' & ->) | [Hnin _]].
    + rewrite (rows_NoDup_eq tides t trow' trow Hnd Hin' Hin).
      apply correction_row_lookup; [by rewrite beach_slopes_index | done].
    + exfalso. apply Hnin. apply list_elem_of_fmap. by exists (t, trow).
  - by rewrite (frame_add_lookup _ _ _ _ _ Hi Hi').
  - rewrite lookup_intersection_with.
    destruct (row !! c), (crow !! c); done.
Qed.

End correction_rows.

(** The first observation of [csv0] has the tide 1 in [tides2]; the slope
    of the transect is 1/10. *)
Lemma matched_rows_get_tide_over_slope_witness :
  NoDup (index tides2) ∧ NoDup (index transects0) ∧
  (1577872800, ({["tide" := 1%Q]} : gmap string Q)) ∈ rows tides2 ∧
  "nzd0001-0000" ∈ index transects0 ∧
  ∃ corrections corrected slope crow orow,
    aligned_corrections (set_index_dates csv0) tides2 transects0 = Ok corrections ∧
    tidally_corrected (set_index_dates csv0) tides2 transects0 = Ok corrected ∧
    ("nzd0001-0000", slope) ∈ beach_slopes transects0 ∧
    rows corrections !! 0%nat = Some (1577872800, crow) ∧
    crow !! "nzd0001-0000"
      = (s ← slope; v ← ({["tide" := 1%Q]} : gmap string Q) !! "tide"; fdiv v s) ∧
    rows corrected !! 0%nat = Some (1577872800, orow) ∧
    orow !! "nzd0001-0000"
      = (y ← ({["nzd0001-0000" := 100%Q]} : gmap string Q) !! "nzd0001-0000";
         x ← crow !! "nzd0001-0000"; fadd y x).
Proof.
  assert (NoDup (index tides2)) as Hnd1
    by (apply (bool_decide_unpack _); vm_compute; exact I).
  assert (NoDup (index transects0)) as Hnd2
    by (apply (bool_decide_unpack _); vm_compute; exact I).
  assert ((1577872800, ({["tide" := 1%Q]} : gmap string Q)) ∈ rows tides2) as Hin
    by left.
  assert ("nzd0001-0000" ∈ index transects0) as Hc by left.
  split; [exact Hnd1 |]. split; [exact Hnd2 |]. split; [exact Hin |].
  split; [exact Hc |].
  exact (matched_rows_get_tide_over_slope (set_index_dates csv0) tides2 transects0
           0 1577872800 {["nzd0001-0000" := 100%Q]} {["tide" := 1%Q]}
           "nzd0001-0000" Hnd1 Hnd2 eq_refl Hin Hc).
Defined.

(** ** Fetching tides *)

Section fetch_facts.
Context {F Point : Type}.
Variable provider : nat → Point → Z → response F.

Lemma attempt_sleep (r : response F) (datetime sleep_seconds : Z) :
  attempt r datetime = inr sleep_seconds → 5 ≤ sleep_seconds ≤ 30.
Proof.
  unfold attempt. destruct r as [status_code values|]; [| intros [= <-]; lia].
  repeat case_decide; try (intros [= <-]; lia).
  destruct (values ≫= _); [done | intros [= <-]; lia].
Qed.

(** [get_tide_for_dt] asks the provider until an answer carries the tide,
    [max_retries] times at most: it returns the tide of the first such
    answer, and raises RuntimeError when none of the [max_retries] answers
    does; it sleeps 5 to 30 seconds after each answer without the tide. *)
Theorem get_tide_for_dt_returns_first_tide (max_retries : nat) (point : Point)
    (datetime : Z) (now : clock) :
  ∃ n : nat,
    (n ≤ max_retries)%nat ∧
    (∀ i, (i < n)%nat →
       ∃ sleep_seconds,
         attempt (provider (requests now + i) point (datetime / 86400)) datetime
         = inr sleep_seconds) ∧
    match (get_tide_for_dt provider max_retries point datetime now).2 with
    | Tide tide =>
      (n < max_retries)%nat ∧
      attempt (provider (requests now + n) point (datetime / 86400)) datetime
        = inl tide ∧
      requests (get_tide_for_dt provider max_retries point datetime now).1
        = S (requests now + n)
    | RuntimeError =>
      n = max_retries ∧
      requests (get_tide_for_dt provider max_retries point datetime now).1
        = (requests now + n)%nat
    end ∧
    slept now + 5 * Z.of_nat n
      ≤ slept (get_tide_for_dt provider max_retries point datetime now).1
      ≤ slept now + 30 * Z.of_nat n.
Proof.
  revert now. induction max_retries as [|retries_left IH]; intros now.
  - exists 0%nat. cbn. repeat split; try lia.
  - cbn [get_tide_for_dt].
    destruct (attempt (provider (requests now) point (datetime / 86400)) datetime)
      as [tide | sleep_seconds] eqn:Hattempt.
    + exists 0%nat. cbn. rewrite Nat.add_0_r. repeat split; try lia; try done.
    + pose proof (attempt_sleep _ _ _ Hattempt) as Hsleep.
      destruct (IH (mkClock (S (requests now)) (slept now + sleep_seconds)))
        as (n & Hn & Hfailed & Hend & Hslept).
      exists (S n). split; [lia |]. split; [| split].
      * intros [|i] Hi.
        -- rewrite Nat.add_0_r. by exists sleep_seconds.
        -- destruct (Hfailed i) as [secs Hsecs]; [lia |]. exists secs.
           cbn in Hsecs. by rewrite Nat.add_succ_r.
      * cbn [requests] in Hend.
        destruct (get_tide_for_dt provider retries_left point datetime _).2.
        -- destruct Hend as (? & Hgood & ->). rewrite Nat.add_succ_r.
           split; [lia |]. split; [done | lia].
        -- destruct Hend as [-> ->]. split; [done | lia].
      * cbn [slept] in Hslept. lia.
Qed.

Lemma get_tide_for_dt_requests (max_retries : nat) (point : Point)
    (datetime : Z) (now : clock) :
  (requests now
   ≤ requests (get_tide_for_dt provider max_retries point datetime now).1)%nat.
Proof.
  revert now. induction max_retries as [|n IH]; intros now; cbn; [done |].
  destruct (attempt _ _); cbn; [lia |].
  etrans; [| apply IH]. cbn. lia.
Qed.

Lemma fetch_dates_cons (point : Point) (date : Z) (dates : list Z) (now : clock) :
  fetch_dates provider point (date :: dates) now
  = (let out := get_tide_for_dt provider 5 point date now in
     let rest := fetch_dates provider point dates out.1 in
     (rest.1,
      match out.2 with
      | Tide tide => (date, {["tide" := tide]}) :: rest.2
      | RuntimeError => rest.2
      end)).
Proof.
  cbn [fetch_dates]. destruct (get_tide_for_dt provider 5 point date now).
  cbn [fst snd]. by destruct (fetch_dates provider point dates _).
Qed.

(** The dates fetched are among those asked for, in their order, and each
    comes with its tide. *)
Lemma fetch_dates_sublist (point : Point) (dates : list Z) (now : clock) :
  (fetch_dates provider point dates now).2.*1 `sublist_of` dates ∧
  Forall (λ r, is_Some (r.2 !! "tide"))
    (fetch_dates provider point dates now).2.
Proof.
  revert now. induction dates as [|date dates IH]; intros now; [done |].
  rewrite fetch_dates_cons. cbn zeta. cbn [fst snd].
  destruct (IH (get_tide_for_dt provider 5 point date now).1) as [Hsub Hall].
  destruct (get_tide_for_dt provider 5 point date now).2 as [tide|].
  - split; [by apply sublist_skip |]. constructor; [| done].
    cbn. rewrite lookup_singleton_eq. by eexists.
  - split; [by apply sublist_cons | done].
Qed.

(** When every tide can be fetched, there is a row for each date. *)
Lemma fetch_dates_complete (point : Point) (dates : list Z) (now : clock) :
  length (fetch_dates provider point dates now).2 = length dates →
  (fetch_dates provider point dates now).2.*1 = dates.
Proof.
  intros Hlen. destruct (fetch_dates_sublist point dates now) as [Hsub _].
  apply sublist_same_length in Hsub; [done |]. by rewrite length_fmap.
Qed.

Implicit Types (data : gmap string (site_files F)).

Lemma fetch_sites_cons (poly : gmap string Point) (sitename : string)
    (sites : list string) data (now : clock) :
  fetch_sites provider poly (sitename :: sites) data now
  = match data !! sitename ≫= transect_time_series with
    | None => (now, data, Raise FileNotFoundError)
    | Some csv =>
      match poly !! sitename with
      | None => (now, data, Raise KeyError)
      | Some point =>
        let out := fetch_dates provider point (sat_times csv) now in
        if decide (out.2 = []) then fetch_sites provider poly sites data out.1
        else
          fetch_sites provider poly sites
            (alter (λ files,
                      mkSiteFiles (transect_time_series files)
                        (Some (mkFrame ["tide"] ["tide"] out.2))
                        (transect_time_series_tidally_corrected files))
               sitename data)
            out.1
      end
    end.
Proof.
  cbn [fetch_sites].
  destruct (data !! sitename ≫= transect_time_series) as [csv|]; [| done].
  destruct (poly !! sitename) as [point|]; [| done].
  by destruct (fetch_dates provider point (sat_times csv) now).
Qed.

(** What the loop over the sites leaves at a site: its files as they were,
    or, for a site of the list, its files with the tides fetched for the
    rounded times of its series. *)
Lemma fetch_sites_spec (poly : gmap string Point) (todo : list string) data
    (now : clock) (s : string) :
  NoDup todo →
  (s ∉ todo → (fetch_sites provider poly todo data now).1.2 !! s = data !! s) ∧
  ((fetch_sites provider poly todo data now).1.2 !! s = data !! s ∨
   ∃ files csv point now0,
     s ∈ todo ∧ data !! s = Some files ∧
     transect_time_series files = Some csv ∧ poly !! s = Some point ∧
     (fetch_dates provider point (sat_times csv) now0).2 ≠ [] ∧
     (fetch_sites provider poly todo data now).1.2 !! s
     = Some (mkSiteFiles (Some csv)
               (Some (mkFrame ["tide"] ["tide"]
                        (fetch_dates provider point (sat_times csv) now0).2))
               (transect_time_series_tidally_corrected files))).
Proof.
  revert data now. induction todo as [|sitename todo IH]; intros data now Hnd.
  { cbn. split; [done | by left]. }
  apply NoDup_cons in Hnd as [Hfresh Hnd]. rewrite fetch_sites_cons.
  destruct (data !! sitename ≫= transect_time_series) as [csv|] eqn:Hcsv;
    [| cbn; split; [done | by left]].
  destruct (poly !! sitename) as [point|] eqn:Hpoint;
    [| cbn; split; [done | by left]].
  cbn zeta. case_decide as Hres.
  - destruct (IH data (fetch_dates provider point (sat_times csv) now).1 Hnd)
      as [Hout Hin]. split.
    + intros Hs. apply Hout. intros ?. apply Hs. by right.
    + destruct Hin as [? | (files & csv' & point' & now0 & ? & ?)]; [by left |].
      right. exists files, csv', point', now0. split; [by right | done].
  - set (data1 := alter _ sitename data).
    destruct (IH data1 (fetch_dates provider point (sat_times csv) now).1 Hnd)
      as [Hout Hin].
    destruct (decide (s = sitename)) as [-> | Hne].
    + split; [intros Hs; exfalso; apply Hs; left |]. right.
      destruct (data !! sitename) as [files|] eqn:Hfiles; [| done]. cbn in Hcsv.
      exists files, csv, point, now. split; [left |].
      split; [done |]. split; [done |]. split; [done |]. split; [done |].
      rewrite Hout by done. unfold data1. rewrite lookup_alter_eq, Hfiles. cbn.
      by rewrite Hcsv.
    + assert (data1 !! s = data !! s) as Hsame
        by (unfold data1; by rewrite lookup_alter_ne).
      split.
      * intros Hs. rewrite Hout by (intros ?; apply Hs; by right). done.
      * destruct Hin as [Hin | (files & csv' & point' & now0 & ? & Hfiles & ?)].
        -- left. by rewrite Hin.
        -- right. exists files, csv', point', now0. split; [by right |].
           split; [by rewrite <- Hsame | done].
Qed.
End fetch_facts.

Section fetch_tides_facts.
Context {F Point : Type}.
Variable provider : nat → Point → Z → response F.
Implicit Types (data : gmap string (site_files F)).

Lemma glob_time_series_NoDup data : NoDup (tidal_correction.glob_time_series data).
Proof.
  unfold tidal_correction.glob_time_series. rewrite merge_sort_Permutation.
  apply NoDup_filter, NoDup_elements.
Qed.

Lemma fetch_sites_to_process_NoDup (sites : option (list string)) data :
  NoDup (tidal_correction_fetch.sites_to_process sites data).
Proof.
  unfold tidal_correction_fetch.sites_to_process. apply NoDup_filter.
  destruct sites as [[|site sites]|]; try apply glob_time_series_NoDup.
  apply NoDup_filter, glob_time_series_NoDup.
Qed.

(** [fetch_tides] leaves the files of a site as they are, or, for a site
    that has a time series and no [tides.csv], writes a [tides.csv]: a table
    that is not empty, of rounded times of the series in their order, each
    with its tide.  It never replaces a [tides.csv] and never touches a time
    series. *)
Theorem fetch_tides_only_adds_missing_tides (sites : option (list string))
    (poly : gmap string Point) data (now : clock) (s : string) :
  (tidal_correction_fetch.fetch_tides provider sites poly data now).1.2 !! s
    = data !! s ∨
  ∃ files csv tides,
    data !! s = Some files ∧ tides_csv files = None ∧
    transect_time_series files = Some csv ∧
    (tidal_correction_fetch.fetch_tides provider sites poly data now).1.2 !! s
    = Some (mkSiteFiles (Some csv) (Some tides)
              (transect_time_series_tidally_corrected files)) ∧
    columns tides = ["tide"] ∧ rows tides ≠ [] ∧
    index tides `sublist_of` sat_times csv ∧
    Forall (λ r, is_Some (r.2 !! "tide")) (rows tides).
Proof.
  unfold tidal_correction_fetch.fetch_tides.
  destruct (fetch_sites_spec provider poly
              (tidal_correction_fetch.sites_to_process sites data) data now s
              (fetch_sites_to_process_NoDup sites data))
    as [_ [Hsame | (files & csv & point & now0 & Hin & Hfiles & Hcsv & _ & Hne & Hout)]];
    [by left |].
  right. exists files, csv, (mkFrame ["tide"] ["tide"]
                               (fetch_dates provider point (sat_times csv) now0).2).
  split; [done |]. split.
  { apply list_elem_of_filter in Hin as [Hnone _]. by rewrite Hfiles in Hnone. }
  split; [done |]. split; [done |]. split; [done |]. split; [done |].
  apply fetch_dates_sublist.
Qed.
End fetch_tides_facts.

Section fetch_wrapper_facts.
Context {F Point : Type}.
Variable provider : nat → Point → Z → response F.

(** The fetch wrapper writes a table of tides that is not empty, of rounded
    times of the series in their order, for a site whose name starts with
    [nzd] and that has a polygon; any other run ends in [sys.exit(1)]: no
    key, no such site, no observation, or no tide that could be fetched. *)
Theorem fetch_wrapper_writes_tides_or_exits (args_api_key env_api_key : option string)
    (poly : gmap string Point) (site_id : string) (csv : Frame (Z * string) F)
    (now : clock) :
  match (tidal_correction_fetch_wrapper.main provider args_api_key env_api_key
           poly site_id csv now).2 with
  | Ok tides =>
    String.prefix "nzd" site_id = true ∧ is_Some (poly !! site_id) ∧
    (args_api_key ≠ None ∨ env_api_key ≠ None) ∧
    columns tides = ["tide"] ∧ rows tides ≠ [] ∧
    index tides `sublist_of` sat_times csv ∧
    Forall (λ r, is_Some (r.2 !! "tide")) (rows tides)
  | Raise e => e = SystemExit 1
  end.
Proof.
  unfold tidal_correction_fetch_wrapper.main.
  destruct (match args_api_key with
            | Some (String _ _ as key) => Some key
            | _ => env_api_key
            end) as [[|a key]|] eqn:Hkey; [done | | done].
  destruct (String.prefix "nzd" site_id); [| done].
  destruct (poly !! site_id) as [point|]; [| done].
  case_decide; [done |].
  destruct (fetch_dates provider point (sat_times csv) now) as [now1 results] eqn:E.
  case_decide; [done |]. cbn.
  split; [done |]. split; [by eexists |]. split.
  { destruct args_api_key as [[|? ?]|], env_api_key; by eauto. }
  split; [done |]. split; [done |].
  pose proof (fetch_dates_sublist provider point (sat_times csv) now) as Hsub.
  by rewrite E in Hsub.
Qed.
End fetch_wrapper_facts.

Section fetch_stops.
Context {F Point : Type}.
Variable provider : nat → Point → Z → response F.
Implicit Types (data : gmap string (site_files F)).

Lemma fetch_sites_stops (poly : gmap string Point) (pre : list string)
    (s : string) (post : list string) data (now : clock) :
  Forall (λ p, is_Some (data !! p ≫= transect_time_series)) (pre ++ [s]) →
  Forall (λ p, is_Some (poly !! p)) pre → poly !! s = None →
  (fetch_sites provider poly (pre ++ s :: post) data now).2 = Raise KeyError ∧
  ∀ s', s' ∉ pre →
    (fetch_sites provider poly (pre ++ s :: post) data now).1.2 !! s' = data !! s'.
Proof.
  intros Hseries Hpoly Hnone. revert data now Hseries.
  induction Hpoly as [|p pre [point Hpoint] _ IH]; intros data now Hseries;
    cbn [app]; rewrite fetch_sites_cons.
  - apply Forall_cons in Hseries as [[csv ->] _]. by rewrite Hnone.
  - apply Forall_cons in Hseries as [[csv Hcsv] Hseries].
    rewrite Hcsv, Hpoint. cbn zeta. case_decide as Hres.
    + destruct (IH data (fetch_dates provider point (sat_times csv) now).1 Hseries)
        as [Hraise Hout].
      split; [done |]. intros s' Hs'. apply Hout.
      intros Hin. apply Hs'. by right.
    + set (data1 := alter _ p data).
      assert (∀ q, is_Some (data !! q ≫= transect_time_series) →
                   is_Some (data1 !! q ≫= transect_time_series)) as Hkeep.
      { intros q Hq. unfold data1. destruct (decide (q = p)) as [-> | Hne].
        - rewrite lookup_alter_eq. by destruct (data !! p).
        - by rewrite lookup_alter_ne. }
      destruct (IH data1 (fetch_dates provider point (sat_times csv) now).1)
        as [Hraise Hout].
      { eapply Forall_impl; [exact Hseries | exact Hkeep]. }
      split; [done |]. intros s' Hs'. rewrite Hout.
      * unfold data1. rewrite lookup_alter_ne; [done |].
        intros ->. apply Hs'. left.
      * intros Hin. apply Hs'. by right.
Qed.

(** [fetch_tides] stops at the first site that has no polygon: the call
    ends in KeyError, and that site and the sites that come after it in the
    loop are left without tides. *)
Theorem fetch_tides_stops_at_site_without_polygon (sites : option (list string))
    (poly : gmap string Point) data (now : clock)
    (pre : list string) (s : string) (post : list string) :
  tidal_correction_fetch.sites_to_process sites data = pre ++ s :: post →
  Forall (λ p, is_Some (poly !! p)) pre → poly !! s = None →
  (tidal_correction_fetch.fetch_tides provider sites poly data now).2
    = Raise KeyError ∧
  ∀ s', s' ∈ s :: post →
    (tidal_correction_fetch.fetch_tides provider sites poly data now).1.2 !! s'
    = data !! s'.
Proof.
  intros Htodo Hpoly Hnone. unfold tidal_correction_fetch.fetch_tides.
  pose proof (fetch_sites_to_process_NoDup sites data) as Hnd.
  assert (Forall (λ p, is_Some (data !! p ≫= transect_time_series))
            (tidal_correction_fetch.sites_to_process sites data)) as Hseries.
  { apply Forall_forall. intros p Hp.
    unfold tidal_correction_fetch.sites_to_process in Hp.
    apply list_elem_of_filter in Hp as [_ Hp].
    assert (p ∈ tidal_correction.glob_time_series data) as Hglob.
    { destruct sites as [[|? ?]|]; try done.
      by apply list_elem_of_filter in Hp as [_ ?]. }
    unfold tidal_correction.glob_time_series in Hglob.
    rewrite merge_sort_Permutation in Hglob.
    by apply list_elem_of_filter in Hglob as [[_ ?] _]. }
  rewrite Htodo in Hnd, Hseries |- *.
  destruct (fetch_sites_stops poly pre s post data now) as [Hraise Hout];
    [| done.. |].
  { apply Forall_app in Hseries as [Hpre Hrest].
    apply Forall_app. split; [done |].
    apply Forall_cons in Hrest as [? _]. by constructor. }
  split; [done |]. intros s' Hs'. apply Hout.
  apply NoDup_app in Hnd as (_ & Hdisjoint & _).
  intros Hin. by apply (Hdisjoint s' Hin).
Qed.
End fetch_stops.

(** The second of the three sites of [data0] has no polygon. *)
Lemma fetch_tides_stops_at_site_without_polygon_witness :
  tidal_correction_fetch.sites_to_process None data0
    = ["nzd0001"] ++ "nzd0002" :: ["nzd0003"] ∧
  Forall (λ p, is_Some (poly0 !! p)) ["nzd0001"] ∧ poly0 !! "nzd0002" = None ∧
  (tidal_correction_fetch.fetch_tides provider0 None poly0 data0 (mkClock 0 0)).2
    = Raise KeyError ∧
  ∀ s', s' ∈ ["nzd0002"; "nzd0003"] →
    (tidal_correction_fetch.fetch_tides provider0 None poly0 data0
       (mkClock 0 0)).1.2 !! s'
    = data0 !! s'.
Proof.
  assert (tidal_correction_fetch.sites_to_process None data0
          = ["nzd0001"] ++ "nzd0002" :: ["nzd0003"]) as Htodo
    by (vm_compute; reflexivity).
  assert (Forall (λ p, is_Some (poly0 !! p)) ["nzd0001"]) as Hpre
    by (apply (bool_decide_unpack _); vm_compute; exact I).
  split; [exact Htodo |]. split; [exact Hpre |]. split; [reflexivity |].
  exact (fetch_tides_stops_at_site_without_polygon provider0 None poly0 data0
           (mkClock 0 0) ["nzd0001"] "nzd0002" ["nzd0003"] Htodo Hpre eq_refl).
Defined.

(** ** Tidal correction: the tides used, and the scope of a failure *)

Section used_tides.
Context {F Point : Type} `{Float F} `{Sorter}.
Variable provider : nat → Point → Z → response F.
Implicit Types (tides : Frame Z F) (poly : gmap string Point).
Implicit Types (transects_at_site : Frame string (value F)).

Lemma isin_sat_times_index tides (sat_times : list Z) :
  index (isin_sat_times tides sat_times) ⊆ sat_times.
Proof.
  intros t ([t' row] & -> & Hin)%list_elem_of_fmap.
  by apply list_elem_of_filter in Hin as [Hin _].
Qed.

(** The tides used once the missing ones are fetched: every sample there
    was, and samples fetched for times that were asked for. *)
Lemma fetch_missing_used poly (sitename : string) (sat_times : list Z) tides
    (now : clock) tides' (written : bool) :
  (tidal_correction.fetch_missing provider poly sitename sat_times tides now).2
    = Ok (tides', written) →
  (∀ r, r ∈ rows tides → r ∈ rows tides') ∧
  (index tides ⊆ sat_times → index tides' ⊆ sat_times).
Proof.
  unfold tidal_correction.fetch_missing.
  case_decide; [by intros [= <- _] |].
  destruct (poly !! sitename) as [point|]; [| done].
  pose proof (fetch_dates_sublist provider point
                (filter (λ t, t ∉ index tides) sat_times) now) as [Hsub _].
  destruct (fetch_dates provider point _ now) as [now' results].
  cbn [fst snd] in *. case_decide; [by intros [= <- _] |].
  intros [= <- _]. cbn [rows concat fmap list_fmap mjoin]. split.
  - intros r Hr. rewrite sort_by_perm. apply elem_of_app. by left.
  - intros Hgrid t ([t' row] & -> & Hin)%list_elem_of_fmap. cbn.
    cbn in Hin. rewrite sort_by_perm, app_nil_r in Hin.
    apply elem_of_app in Hin as [Hin | Hin].
    + apply Hgrid. apply list_elem_of_fmap. by exists (t', row).
    + assert (t' ∈ filter (λ t, t ∉ index tides) sat_times) as Ht.
      { eapply elem_of_sublist; [| exact Hsub].
        apply list_elem_of_fmap. by exists (t', row). }
      by apply list_elem_of_filter in Ht as [_ Ht].
Qed.

(** With no sample to start from, the tides of all the rounded times are
    asked for. *)
Lemma fetch_missing_none poly (sitename : string) (sat_times : list Z) tides
    (now : clock) :
  rows tides = [] → sat_times ≠ [] →
  tidal_correction.fetch_missing provider poly sitename sat_times tides now
  = match poly !! sitename with
    | None => (now, Raise KeyError)
    | Some point =>
      let fetched := fetch_dates provider point sat_times now in
      (fetched.1,
       Ok (if decide (fetched.2 = []) then (tides, false)
           else (mkFrame (remove_dups (columns tides ++ ["tide"]))
                   (remove_dups (numeric tides ++ ["tide"]))
                   (sort_by fst fetched.2), true)))
    end.
Proof.
  intros Hnone Hsome. unfold tidal_correction.fetch_missing, index.
  rewrite Hnone. rewrite decide_False.
  2:{ destruct sat_times as [|t ts]; [done |]. intros Hall.
      apply Forall_cons in Hall as [Ht _]. by apply elem_of_nil in Ht. }
  destruct (poly !! sitename) as [point|]; [| done].
  rewrite filter_all by (intros t _; apply not_elem_of_nil).
  destruct (fetch_dates provider point sat_times now) as [now' results].
  cbn [fst snd]. case_decide; [done |].
  unfold concat. cbn. rewrite Hnone. cbn. by rewrite app_nil_r.
Qed.


(** When two of the tide samples used carry the same timestamp, and the
    timestamps of the samples are not those of the raw rows one for one,
    the correction raises ValueError: pandas does not reindex on repeated
    labels. *)
Theorem repeated_tide_times_raise (raw_intersects : Frame Z F) tides
    transects_at_site :
  rows tides ≠ [] → ¬ NoDup (index tides) →
  index tides ≠ index raw_intersects →
  aligned_corrections raw_intersects tides transects_at_site
    = Raise ValueError ∧
  tidally_corrected raw_intersects tides transects_at_site = Raise ValueError.
Proof.
  intros Hne Hdup Hdiff.
  assert (aligned_corrections raw_intersects tides transects_at_site
          = Raise ValueError) as Hraise.
  { unfold aligned_corrections.
    destruct (tide_corrections_ok tides (beach_slopes transects_at_site) Hne)
      as (c0 & -> & Hidx & _). cbn [mbind result_bind].
    unfold reindex. rewrite Hidx. rewrite decide_False by done.
    by rewrite decide_False. }
  split; [done |]. unfold tidally_corrected. by rewrite Hraise.
Qed.

(** A raw row whose timestamp is not on the 10-minute grid gets a correction
    of zero in every transect column, when some sample is used and no two
    samples used carry the same timestamp: the samples that are used, those
    selected from [tides.csv] and those the batch script fetches, all carry
    a rounded observation time. *)
Theorem off_grid_rows_are_not_corrected (csv : Frame (Z * string) F)
    (tides_file tides : Frame Z F) poly (sitename : string) (now : clock)
    (written : bool) transects_at_site
    (i : nat) (o : (Z * string) * gmap string F) :
  tides = isin_sat_times tides_file (sat_times csv) ∨
  (tidal_correction.fetch_missing provider poly sitename (sat_times csv)
     (isin_sat_times tides_file (sat_times csv)) now).2
    = Ok (tides, written) →
  rows tides ≠ [] → NoDup (index tides) →
  rows csv !! i = Some o → round_10min o.1.1 ≠ o.1.1 →
  ∃ corrections corrected crow orow,
    aligned_corrections (set_index_dates csv) tides transects_at_site
      = Ok corrections ∧
    tidally_corrected (set_index_dates csv) tides transects_at_site
      = Ok corrected ∧
    rows corrections !! i = Some (o.1.1, crow) ∧
    (∀ c, c ∈ index transects_at_site → crow !! c = Some (float_of_Z 0)) ∧
    rows corrected !! i = Some (o.1.1, orow) ∧
    (∀ c, c ∈ index transects_at_site →
       orow !! c = (y ← o.2 !! c; fadd y (float_of_Z 0))).
Proof.
  intros Htides Hne Hnd Hi Hoff.
  assert (index tides ⊆ sat_times csv) as Hgrid.
  { destruct Htides as [-> | Hfetch]; [apply isin_sat_times_index |].
    apply fetch_missing_used in Hfetch as [_ Hgrid].
    apply Hgrid, isin_sat_times_index. }
  destruct (aligned_corrections_rows (set_index_dates csv) tides transects_at_site
              Hne Hnd) as (corrections & Hcorr & Hcols & Hrows).
  assert (rows (set_index_dates csv) !! i = Some (o.1.1, o.2)) as Hi'.
  { unfold set_index_dates. cbn. by rewrite list_lookup_fmap, Hi. }
  destruct (Forall2_lookup_l _ _ _ _ _ Hrows Hi') as ([t' crow] & Hic & Ht & Hcase).
  cbn in Ht, Hcase. subst t'.
  exists corrections, (frame_add (set_index_dates csv) corrections), crow,
    (intersection_with fadd o.2 crow).
  split; [done |]. split.
  { unfold tidally_corrected. by rewrite Hcorr. }
  split; [done |].
  assert (∀ c, c ∈ index transects_at_site → crow !! c = Some (float_of_Z 0))
    as Hzero.
  { destruct Hcase as [(trow & Hin & _) | [_ ->]].
    - exfalso. apply Hoff.
      assert (o.1.1 ∈ sat_times csv) as Hsat.
      { apply Hgrid. apply list_elem_of_fmap. by exists (o.1.1, trow). }
      apply list_elem_of_fmap in Hsat as (o' & -> & _). apply round_10min_idem.
    - intros c Hc. by apply zero_row_lookup. }
  split; [done |]. split.
  - by rewrite (frame_add_lookup _ _ _ _ _ Hi' Hic).
  - intros c Hc. rewrite lookup_intersection_with, (Hzero c Hc).
    by destruct (o.2 !! c).
Qed.
End used_tides.


(** The first two observations of [csv_twin] round to 10:00: the tides
    fetched for its rounded times have 10:00 twice. *)
Lemma repeated_tide_times_raise_witness :
  (fetch_dates provider2 () (sat_times csv_twin) (mkClock 0 0)).2
    = [(1577872800, {["tide" := 1%Q]}); (1577872800, {["tide" := 1%Q]});
       (1577874000, {["tide" := 2%Q]})] ∧
  tidally_corrected (set_index_dates csv_twin)
    (mkFrame ["tide"] ["tide"]
       (fetch_dates provider2 () (sat_times csv_twin) (mkClock 0 0)).2)
    transects0
  = Raise ValueError.
Proof.
  split; [vm_compute; reflexivity |].
  refine (proj2 (repeated_tide_times_raise (set_index_dates csv_twin)
                   (mkFrame ["tide"] ["tide"]
                      (fetch_dates provider2 () (sat_times csv_twin)
                         (mkClock 0 0)).2)
                   transects0 _ _ _)).
  - vm_compute. discriminate.
  - apply (bool_decide_unpack _). vm_compute. exact I.
  - vm_compute. discriminate.
Defined.

(** The second observation of [csv_off_grid], at 10:03, gets no correction
    although [tides2] has the tide of 10:00. *)
Lemma off_grid_rows_are_not_corrected_witness :
  rows (isin_sat_times tides2 (sat_times csv_off_grid)) ≠ [] ∧
  NoDup (index (isin_sat_times tides2 (sat_times csv_off_grid))) ∧
  round_10min 1579255380 ≠ 1579255380 ∧
  ∃ corrections corrected crow orow,
    aligned_corrections (set_index_dates csv_off_grid)
      (isin_sat_times tides2 (sat_times csv_off_grid)) transects0
      = Ok corrections ∧
    tidally_corrected (set_index_dates csv_off_grid)
      (isin_sat_times tides2 (sat_times csv_off_grid)) transects0
      = Ok corrected ∧
    rows corrections !! 1%nat = Some (1579255380, crow) ∧
    (∀ c, c ∈ index transects0 → crow !! c = Some 0%Q) ∧
    rows corrected !! 1%nat = Some (1579255380, orow) ∧
    (∀ c, c ∈ index transects0 →
       orow !! c = (y ← ({["nzd0001-0000" := 101%Q]} : gmap string Q) !! c;
                    fadd y 0%Q)).
Proof.
  assert (rows (isin_sat_times tides2 (sat_times csv_off_grid)) ≠ []) as Hne
    by (vm_compute; discriminate).
  assert (NoDup (index (isin_sat_times tides2 (sat_times csv_off_grid)))) as Hnd
    by (apply (bool_decide_unpack _); vm_compute; exact I).
  assert (round_10min 1579255380 ≠ 1579255380) as Hoff by (vm_compute; discriminate).
  split; [exact Hne |]. split; [exact Hnd |]. split; [exact Hoff |].
  exact (@off_grid_rows_are_not_corrected Q () _ stable_sorter provider0
           csv_off_grid tides2 _ poly0 "nzd0001" (mkClock 0 0) false transects0
           1 ((1579255380, "L8"), {["nzd0001-0000" := 101%Q]})
           (or_introl eq_refl) Hne Hnd eq_refl Hoff).
Defined.

Section site_scope.
Import tidal_correction.
Context {F Point : Type} `{Float F} `{Sorter}.
Variable identify_outliers : list F → list Z → F → result (list F * list Z).
Variable DataFrame_of_columns : list (string * list (Z * F)) → result (Frame Z F).
Variable provider : nat → Point → Z → response F.
Implicit Types (data : gmap string (site_files F)) (s sitename : string).
Implicit Types (poly : gmap string Point) (now : clock).

#[local] Abbreviation process_site :=
  (process_site identify_outliers DataFrame_of_columns provider).
#[local] Abbreviation process_sites :=
  (process_sites identify_outliers DataFrame_of_columns provider).
#[local] Abbreviation apply_correction :=
  (apply_correction identify_outliers DataFrame_of_columns provider).
#[local] Abbreviation corrected_of :=
  (corrected_series identify_outliers DataFrame_of_columns).

(** [process_site] at a site that has transects, a series and tides. *)
Lemma process_site_files sitename poly transects data now
    (csv : Frame (Z * string) F) (tides : Frame Z F) corrected :
  rows (at_site transects sitename) ≠ [] →
  data !! sitename = Some (mkSiteFiles (Some csv) (Some tides) corrected) →
  process_site sitename poly transects data now
  = let fetched :=
      fetch_missing provider poly sitename (sat_times csv)
        (isin_sat_times tides (sat_times csv)) now in
    match fetched.2 with
    | Raise e => (fetched.1, data, Raise e)
    | Ok (tides, written) =>
      let data :=
        if written
        then <[sitename := mkSiteFiles (Some csv) (Some tides) corrected]> data
        else data in
      match corrected_of csv tides (at_site transects sitename) with
      | Raise e => (fetched.1, data, Raise e)
      | Ok None => (fetched.1, data, Ok ())
      | Ok (Some out) =>
        (fetched.1,
         alter (λ files, mkSiteFiles (transect_time_series files)
                           (tides_csv files) (Some out)) sitename data,
         Ok ())
      end
    end.
Proof.
  intros Hsome Hfiles. unfold tidal_correction.process_site.
  rewrite decide_False by done. rewrite Hfiles.
  by destruct (fetch_missing _ _ _ _ _ _) as [now' [[tides' written]|e]].
Qed.

(** Processing a site leaves the files of every other site as they are. *)
Lemma process_site_frame sitename poly transects data now s :
  s ≠ sitename →
  (process_site sitename poly transects data now).1.2 !! s = data !! s.
Proof.
  intros Hne. unfold tidal_correction.process_site. case_decide; [done |].
  destruct (data !! sitename) as [[[csv|] [tides|] corrected]|]; try done.
  destruct (fetch_missing _ _ _ _ _ _) as [now' [[tides' written]|e]]; [| done].
  assert ((if written
           then <[sitename := mkSiteFiles (Some csv) (Some tides') corrected]> data
           else data) !! s = data !! s) as Hdata.
  { destruct written; [by rewrite lookup_insert_ne | done]. }
  destruct (corrected_series _ _ _ _ _) as [[out|]|e];
    cbn [fst snd]; try done.
  by rewrite lookup_alter_ne.
Qed.

(** What processing a site does to its files, and to the clock, depends on
    its files only. *)
Lemma process_site_local sitename poly transects data1 data2 now :
  data1 !! sitename = data2 !! sitename →
  (process_site sitename poly transects data1 now).1.2 !! sitename
  = (process_site sitename poly transects data2 now).1.2 !! sitename.
Proof.
  intros Heq. unfold tidal_correction.process_site. case_decide; [done |].
  rewrite <- Heq.
  destruct (data1 !! sitename) as [[[csv|] [tides|] corrected]|] eqn:E;
    try (cbn [fst snd]; congruence).
  destruct (fetch_missing _ _ _ _ _ _) as [now' [[tides' written]|e]];
    [| cbn [fst snd]; congruence].
  assert ((if written
           then <[sitename := mkSiteFiles (Some csv) (Some tides') corrected]> data1
           else data1) !! sitename
          = (if written
             then <[sitename := mkSiteFiles (Some csv) (Some tides') corrected]> data2
             else data2) !! sitename) as Hdata.
  { destruct written; [by rewrite !lookup_insert_eq | congruence]. }
  destruct (corrected_series _ _ _ _ _) as [[out|]|e];
    cbn [fst snd]; try done.
  by rewrite !lookup_alter_eq, Hdata.
Qed.

Lemma sites_to_process_NoDup sites data : NoDup (sites_to_process sites data).
Proof.
  unfold sites_to_process. apply NoDup_filter.
  assert (NoDup (glob_time_series data)) as Hglob.
  { unfold glob_time_series. rewrite merge_sort_Permutation.
    apply NoDup_filter, NoDup_elements. }
  destruct sites as [[|site sites]|]; try done. by apply NoDup_filter.
Qed.

Lemma process_sites_cons poly transects sitename (todo : list string) data now :
  process_sites poly transects (sitename :: todo) data now
  = process_sites poly transects todo
      (process_site sitename poly transects data now).1.2
      (process_site sitename poly transects data now).1.1.
Proof.
  unfold tidal_correction.process_sites. cbn [foldl fst snd].
  by destruct (tidal_correction.process_site _ _ _ _ _ _ _ _) as [[now' data'] r].
Qed.

Lemma process_sites_app poly transects (pre post : list string) data now :
  process_sites poly transects (pre ++ post) data now
  = process_sites poly transects post
      (process_sites poly transects pre data now).2
      (process_sites poly transects pre data now).1.
Proof.
  unfold tidal_correction.process_sites. rewrite foldl_app.
  by destruct (foldl _ (now, data) pre).
Qed.

(** The loop over the sites leaves the files of a site that is not in the
    list as they are. *)
Lemma process_sites_frame poly transects (todo : list string) data now s :
  s ∉ todo → (process_sites poly transects todo data now).2 !! s = data !! s.
Proof.
  revert data now. induction todo as [|x todo IH]; intros data now Hs; [done |].
  rewrite process_sites_cons, IH by (intros ?; apply Hs; by right).
  apply process_site_frame. intros ->. apply Hs. left.
Qed.

(** The files of a site of the list after the loop are those its own turn
    leaves, at the clock the loop has reached by then. *)
Lemma process_sites_turn poly transects (pre post : list string) data now s :
  NoDup (pre ++ s :: post) →
  (process_sites poly transects (pre ++ s :: post) data now).2 !! s
  = (process_site s poly transects data
       (process_sites poly transects pre data now).1).1.2 !! s.
Proof.
  intros Hnd. apply NoDup_app in Hnd as (_ & Hpre & Hpost).
  apply NoDup_cons in Hpost as [Hpost _].
  assert (s ∉ pre) as Hs by (intros Hin; apply (Hpre s Hin); left).
  rewrite process_sites_app, process_sites_cons, process_sites_frame by done.
  apply process_site_local. by apply process_sites_frame.
Qed.

(** C4, as amended.  In the tidal-correction-apply tool, when no tide sample
    carries the rounded timestamp of an observation, the run stops with
    [sys.exit(1)] before any correction is computed, for the one site the
    tool is run for.  In the batch script the tides of the rounded times
    are asked of the provider instead: a site without a polygon raises
    KeyError, a site for which no tide is obtained raises AttributeError,
    and otherwise [tides.csv] is rewritten with the tides obtained and the
    correction goes on with them.  The files of a site after
    [apply_correction] are those that its own turn leaves, whatever happens
    at the other sites, and the files of a site that is not processed are
    untouched. *)
Theorem alignment_failure_is_site_scoped
    (transects : Frame string (value F)) (site_id : string)
    (csv : Frame (Z * string) F) (tides : Frame Z F)
    (sites : option (list string)) poly data now (s : string) :
  rows (isin_sat_times tides (sat_times csv)) = [] →
  tidal_correction_apply_wrapper.matching_tides transects site_id csv tides
    = Raise (SystemExit 1) ∧
  tidal_correction_apply_wrapper.main identify_outliers DataFrame_of_columns
    transects site_id csv tides = Raise (SystemExit 1) ∧
  (∀ sitename corrected,
     rows (at_site transects sitename) ≠ [] → rows csv ≠ [] →
     data !! sitename = Some (mkSiteFiles (Some csv) (Some tides) corrected) →
     match poly !! sitename with
     | None =>
       process_site sitename poly transects data now
       = (now, data, Raise KeyError)
     | Some point =>
       let fetched := fetch_dates provider point (sat_times csv) now in
       if decide (fetched.2 = []) then
         process_site sitename poly transects data now
         = (fetched.1, data, Raise AttributeError)
       else
         let fetched_tides :=
           mkFrame (remove_dups (columns tides ++ ["tide"]))
             (remove_dups (numeric tides ++ ["tide"]))
             (sort_by fst fetched.2) in
         let rewritten :=
           <[sitename := mkSiteFiles (Some csv) (Some fetched_tides) corrected]>
             data in
         process_site sitename poly transects data now
         = match
             corrected_of csv fetched_tides (at_site transects sitename)
           with
           | Raise e => (fetched.1, rewritten, Raise e)
           | Ok None => (fetched.1, rewritten, Ok ())
           | Ok (Some out) =>
             (fetched.1,
              <[sitename :=
                  mkSiteFiles (Some csv) (Some fetched_tides) (Some out)]>
                data,
              Ok ())
           end
     end) ∧
  (∀ pre post, sites_to_process sites data = pre ++ s :: post →
     (apply_correction sites poly transects data now).2 !! s
     = (process_site s poly (loaded_transects transects) data
          (process_sites poly (loaded_transects transects) pre data now).1).1.2
       !! s) ∧
  (s ∉ sites_to_process sites data →
   (apply_correction sites poly transects data now).2 !! s = data !! s).
Proof.
  intros Hnone.
  assert (tidal_correction_apply_wrapper.matching_tides transects site_id csv tides
          = Raise (SystemExit 1)) as Hraise.
  { unfold tidal_correction_apply_wrapper.matching_tides.
    case_decide; [done |]. by rewrite decide_True. }
  split; [done |]. split.
  { unfold tidal_correction_apply_wrapper.main. by rewrite Hraise. }
  split; [| split].
  - intros sitename corrected Hsite Hcsv Hfiles.
    assert (sat_times csv ≠ []) as Hsat.
    { unfold sat_times. by destruct (rows csv). }
    rewrite (process_site_files _ _ _ _ _ csv tides corrected) by done.
    rewrite (fetch_missing_none provider) by done.
    destruct (poly !! sitename) as [point|]; [| done].
    cbn zeta. cbn [fst snd].
    set (fetched := fetch_dates provider point (sat_times csv) now).
    case_decide as Hres.
    + unfold corrected_series, tidally_corrected,
        aligned_corrections, tide_corrections.
      by rewrite decide_True.
    + cbn [columns numeric].
      destruct (corrected_series _ _ _ _ _) as [[out|]|e];
        try done.
      by rewrite alter_insert_eq.
  - intros pre post Htodo. unfold tidal_correction.apply_correction.
    rewrite Htodo. apply process_sites_turn. rewrite <- Htodo.
    apply sites_to_process_NoDup.
  - intros Hs. unfold tidal_correction.apply_correction.
    by apply process_sites_frame.
Qed.
End site_scope.

Section fetch_then_apply.
Context {F Point : Type} `{Float F} `{Sorter}.
Variable provider : nat → Point → Z → response F.
Variable identify_outliers : list F → list Z → F → result (list F * list Z).
Variable DataFrame_of_columns : list (string * list (Z * F)) → result (Frame Z F).
Implicit Types (data : gmap string (site_files F)).

(** When the tide of every rounded time of a series could be fetched, the
    tides written carry exactly those times, all of them are selected by the
    correction, and the correction asks the provider for nothing: what it
    does with the site is the same whatever the provider would answer and
    whether or not the site has a polygon, and the clock stays as it is. *)
Theorem complete_fetch_needs_no_refetch (point : Point)
    (csv : Frame (Z * string) F) (now : clock) (sitename : string)
    (tides : Frame Z F) :
  tides = mkFrame ["tide"] ["tide"]
            (fetch_dates provider point (sat_times csv) now).2 →
  length (rows tides) = length (rows csv) →
  index tides = sat_times csv ∧
  isin_sat_times tides (sat_times csv) = tides ∧
  (∀ (provider' : nat → Point → Z → response F) (poly : gmap string Point)
     (now' : clock),
     tidal_correction.fetch_missing provider' poly sitename (sat_times csv)
       (isin_sat_times tides (sat_times csv)) now'
     = (now', Ok (tides, false))) ∧
  (∀ (provider1 provider2 : nat → Point → Z → response F)
     (poly1 poly2 : gmap string Point) transects data corrected (now' : clock),
     data !! sitename = Some (mkSiteFiles (Some csv) (Some tides) corrected) →
     tidal_correction.process_site identify_outliers DataFrame_of_columns
       provider1 sitename poly1 transects data now'
     = tidal_correction.process_site identify_outliers DataFrame_of_columns
         provider2 sitename poly2 transects data now' ∧
     (tidal_correction.process_site identify_outliers DataFrame_of_columns
        provider1 sitename poly1 transects data now').1.1 = now').
Proof.
  intros -> Hlen. cbn [rows] in Hlen.
  set (tides := mkFrame ["tide"] ["tide"] _).
  assert (index tides = sat_times csv) as Hidx.
  { unfold index, tides. cbn [rows]. apply fetch_dates_complete.
    rewrite Hlen. unfold sat_times. by rewrite length_fmap. }
  assert (isin_sat_times tides (sat_times csv) = tides) as Hisin.
  { unfold isin_sat_times. rewrite filter_all; [done |].
    intros r Hr. rewrite <- Hidx. apply list_elem_of_fmap. by exists r. }
  assert (∀ (provider' : nat → Point → Z → response F)
            (poly : gmap string Point) (now' : clock),
     tidal_correction.fetch_missing provider' poly sitename (sat_times csv)
       (isin_sat_times tides (sat_times csv)) now'
     = (now', Ok (tides, false))) as Hfetch.
  { intros provider' poly now'. rewrite Hisin.
    unfold tidal_correction.fetch_missing.
    rewrite decide_True; [done |]. rewrite Hidx. by apply Forall_forall. }
  split; [done |]. split; [done |]. split; [done |].
  intros provider1 provider2 poly1 poly2 transects data corrected now' Hfiles.
  unfold tidal_correction.process_site. case_decide; [done |].
  rewrite Hfiles, !Hfetch.
  by destruct (corrected_series _ _ _ _ _) as [[out|]|e].
Qed.
End fetch_then_apply.

(** The hypothesis of C4 holds of [csv0] and [tides1]: the tool exits, and
    the script, at a site without a polygon, raises KeyError and writes
    nothing. *)
Lemma alignment_failure_is_site_scoped_witness :
  rows (isin_sat_times tides1 (sat_times csv0)) = [] ∧
  tidal_correction_apply_wrapper.main keep_all frame_of_columns
    transects0 "nzd0001" csv0 tides1 = Raise (SystemExit 1) ∧
  @tidal_correction.process_site Q () _ stable_sorter keep_all
    frame_of_columns provider0 "nzd0001" ∅ transects0
    {["nzd0001" := mkSiteFiles (Some csv0) (Some tides1) None]} (mkClock 0 0)
  = (mkClock 0 0,
     {["nzd0001" := mkSiteFiles (Some csv0) (Some tides1) None]},
     Raise KeyError).
Proof.
  destruct (@alignment_failure_is_site_scoped Q () _ stable_sorter keep_all
              frame_of_columns provider0 transects0 "nzd0001" csv0 tides1
              None ∅
              {["nzd0001" := mkSiteFiles (Some csv0) (Some tides1) None]}
              (mkClock 0 0) "nzd0001" eq_refl)
    as (_ & Hmain & Hscript & _).
  split; [reflexivity |]. split; [exact Hmain |].
  refine (Hscript "nzd0001" None _ _ _).
  - vm_compute. discriminate.
  - discriminate.
  - reflexivity.
Defined.

(** C4, counterexample.  No sample of [tides.csv] carries the rounded
    timestamp of an observation, and the tide provider has the tides of
    both.  [process_site] of the batch script fetches the two tides with
    two requests, saves them, and saves a corrected series (100 + 1 / 0.1
    and 101 + 0.5 / 0.1): it does not fail. *)
Lemma missing_tides_are_fetched :
  rows (isin_sat_times tides1 (sat_times csv0)) = [] ∧
  @tidal_correction.process_site Q () _ stable_sorter keep_all
    frame_of_columns provider0 "nzd0001" poly0 transects0
    {["nzd0001" := mkSiteFiles (Some csv0) (Some tides1) None]} (mkClock 0 0)
  = (mkClock 2 0,
     {["nzd0001" :=
        mkSiteFiles (Some csv0)
          (Some (mkFrame ["tide"] ["tide"]
                   [(1577872800, {["tide" := 1%Q]});
                    (1579255200, {["tide" := (1 # 2)%Q]})]))
          (Some (mkFrame ["nzd0001-0000"] ["nzd0001-0000"]
                   [((1577872800, Some "L8"), {["nzd0001-0000" := 110%Q]});
                    ((1579255200, Some "L8"), {["nzd0001-0000" := 106%Q]})]))]},
     Ok ()).
Proof. split; vm_compute; reflexivity. Qed.

(** Every tide of [csv0] is fetched from [provider0]: the tides are
    [tides2]. *)
Lemma complete_fetch_needs_no_refetch_witness :
  tides2 = mkFrame ["tide"] ["tide"]
             (fetch_dates provider0 () (sat_times csv0) (mkClock 0 0)).2 ∧
  length (rows tides2) = length (rows csv0) ∧
  index tides2 = sat_times csv0 ∧
  isin_sat_times tides2 (sat_times csv0) = tides2 ∧
  (∀ (provider' : nat → () → Z → response Q) (poly : gmap string ())
     (now' : clock),
     @tidal_correction.fetch_missing Q () stable_sorter provider' poly
       "nzd0001" (sat_times csv0) (isin_sat_times tides2 (sat_times csv0)) now'
     = (now', Ok (tides2, false))) ∧
  (∀ (provider1 provider2 : nat → () → Z → response Q)
     (poly1 poly2 : gmap string ()) transects data corrected (now' : clock),
     data !! "nzd0001" = Some (mkSiteFiles (Some csv0) (Some tides2) corrected) →
     @tidal_correction.process_site Q () _ stable_sorter keep_all
       frame_of_columns provider1 "nzd0001" poly1 transects data now'
     = @tidal_correction.process_site Q () _ stable_sorter keep_all
         frame_of_columns provider2 "nzd0001" poly2 transects data now' ∧
     (@tidal_correction.process_site Q () _ stable_sorter keep_all
        frame_of_columns provider1 "nzd0001" poly1 transects data now').1.1
     = now').
Proof.
  assert (tides2 = mkFrame ["tide"] ["tide"]
            (fetch_dates provider0 () (sat_times csv0) (mkClock 0 0)).2) as Htides
    by (vm_compute; reflexivity).
  split; [exact Htides |]. split; [reflexivity |].
  exact (@complete_fetch_needs_no_refetch Q () _ stable_sorter provider0
           keep_all frame_of_columns () csv0 (mkClock 0 0) "nzd0001" tides2
           Htides eq_refl).
Defined.

(** ** Tidal correction: what it leaves alone; slope alignment *)

Section apply_keeps.
Context {F Point : Type} `{Float F} `{Sorter}.
Variable identify_outliers : list F → list Z → F → result (list F * list Z).
Variable DataFrame_of_columns : list (string * list (Z * F)) → result (Frame Z F).
Variable provider : nat → Point → Z → response F.
Implicit Types (data : gmap string (site_files F)) (s sitename : string).
Implicit Types (poly : gmap string Point) (now : clock).

Lemma process_site_series sitename poly transects data now s :
  transect_time_series <$>
    (tidal_correction.process_site identify_outliers DataFrame_of_columns
       provider sitename poly transects data now).1.2 !! s
  = transect_time_series <$> data !! s.
Proof.
  destruct (decide (s = sitename)) as [-> | Hne];
    [| by rewrite process_site_frame].
  unfold tidal_correction.process_site. case_decide; [done |].
  destruct (data !! sitename) as [[[csv|] [tides|] corrected]|] eqn:E;
    try (cbn [fst snd]; by rewrite E).
  destruct (tidal_correction.fetch_missing _ _ _ _ _ _)
    as [now' [[tides' written]|e]]; [| cbn [fst snd]; by rewrite E].
  assert (transect_time_series <$>
            (if written
             then <[sitename := mkSiteFiles (Some csv) (Some tides') corrected]> data
             else data) !! sitename = Some (Some csv)) as Hdata.
  { destruct written; [by rewrite lookup_insert_eq | by rewrite E]. }
  destruct (corrected_series _ _ _ _ _) as [[out|]|e]; cbn [fst snd]; try done.
  rewrite lookup_alter_eq.
  destruct ((if written then _ else _) !! sitename) as [files|]; [| done].
  cbn in *. done.
Qed.

(** The tidal correction never changes a raw time series, and neither adds
    nor removes a site: it only writes tides and corrected series of sites
    that are there. *)
Theorem apply_correction_keeps_raw_series (sites : option (list string))
    poly (transects : Frame string (value F)) data now s :
  transect_time_series <$>
    (tidal_correction.apply_correction identify_outliers DataFrame_of_columns
       provider sites poly transects data now).2 !! s
  = transect_time_series <$> data !! s.
Proof.
  unfold tidal_correction.apply_correction.
  generalize (tidal_correction.sites_to_process sites data) as todo.
  intros todo. revert data now.
  induction todo as [|sitename todo IH]; intros data now; [done |].
  by rewrite process_sites_cons, IH, process_site_series.
Qed.
End apply_keeps.

Section align_facts.
Context {F : Type}.
Implicit Types (df tides d : Frame Z F) (key : string).

(** With distinct labels, [d.loc[labels]] has one row per label. *)
Lemma loc_list_rows d (labels : list Z) :
  NoDup (index d) → Forall (λ k, k ∈ index d) labels →
  Forall2 (λ k r, r.1 = k ∧ (k, r.2) ∈ rows d) labels (rows (loc_list d labels)).
Proof.
  intros Hnd Hall. unfold loc_list. cbn [rows].
  induction Hall as [|k labels Hk _ IH]; [constructor |].
  rewrite bind_cons.
  destruct (loc_rows_NoDup d k Hnd Hk) as (row & -> & Hrow). cbn.
  by constructor.
Qed.

Lemma valid_inputs_same_length df tides key :
  length (rows df) = length (rows tides) →
  ∃ inputs, valid_inputs df tides key = Ok inputs.
Proof.
  intros Hlen. unfold valid_inputs, mask_select.
  destruct (forallb _ _); [by eexists |].
  rewrite decide_True by (by rewrite !length_fmap). cbn. by eexists.
Qed.

(** The alignment of tables whose rounded dates are distinct. *)
Lemma align_dates_distinct df tides :
  length (rows df) = length (rows tides) →
  NoDup (round_10min <$> index df) → NoDup (round_10min <$> index tides) →
  ∃ df' tides',
    align_dates df tides = Ok (df', tides') ∧
    Forall2 (λ r t, round_10min r.1 = t.1) (rows df') (rows tides') ∧
    Forall (λ r', ∃ r, r ∈ rows df ∧ round_10min r.1 = round_10min r'.1 ∧
                       r.2 = r'.2) (rows df') ∧
    Forall (λ t', ∃ t, t ∈ rows tides ∧ round_10min t.1 = round_10min t'.1 ∧
                       t.2 = t'.2) (rows tides').
Proof.
  intros Hlen Hnd1 Hnd2. unfold align_dates.
  rewrite decide_True by (unfold index; by rewrite !length_fmap).
  case_decide as Haligned.
  - exists df, tides. split; [done |].
    assert (Forall2 (λ r t, round_10min r.1 = t.1) (rows df) (rows tides)) as Hrows.
    { unfold index in Haligned. rewrite <- list_fmap_compose in Haligned.
      by apply fmap_eq_Forall2 in Haligned. }
    split; [done |]. split.
    + apply Forall_forall. intros r Hr. by exists r.
    + apply Forall_forall. intros t Ht. by exists t.
  - set (dfr := mkFrame (columns df) (numeric df)
                  ((λ r, (round_10min r.1, r.2)) <$> rows df)).
    set (tr := mkFrame (columns tides) (numeric tides)
                 ((λ r, (round_10min r.1, r.2)) <$> rows tides)).
    set (common := intersection (index dfr) (index tr)).
    assert (index dfr = round_10min <$> index df) as Hidx1.
    { unfold index, dfr. cbn. by rewrite <- !list_fmap_compose. }
    assert (index tr = round_10min <$> index tides) as Hidx2.
    { unfold index, tr. cbn. by rewrite <- !list_fmap_compose. }
    assert (Forall (λ k, k ∈ index dfr) common ∧ Forall (λ k, k ∈ index tr) common)
      as [Hc1 Hc2].
    { split; apply Forall_forall; intros k Hk;
        by apply elem_of_intersection in Hk as [? ?]. }
    pose proof (loc_list_rows dfr common) as H1.
    rewrite Hidx1 in H1 at 1. specialize (H1 Hnd1 Hc1).
    pose proof (loc_list_rows tr common) as H2.
    rewrite Hidx2 in H2 at 1. specialize (H2 Hnd2 Hc2).
    assert (Forall (λ k, round_10min k = k) common) as Hgrid.
    { eapply Forall_impl; [exact Hc1 |]. intros k Hk.
      change (k ∈ index dfr) in Hk. rewrite Hidx1 in Hk.
      apply list_elem_of_fmap in Hk as (t & -> & _). apply round_10min_idem. }
    exists (loc_list dfr common), (loc_list tr common). split; [done |].
    split; [| split].
    + apply (Forall2_same_labels (λ r, round_10min r.1) fst common).
      * apply (Forall2_with_Forall _ _ _ _ _ Hgrid H1).
        intros k r Hk [-> _]. done.
      * eapply Forall2_impl; [exact H2 |]. by intros k t [? _].
    + apply Forall_forall. intros r' Hr'.
      apply list_elem_of_lookup in Hr' as [i Hi].
      destruct (Forall2_lookup_r _ _ _ _ _ H1 Hi) as (k & _ & <- & Hin).
      unfold dfr in Hin. cbn in Hin.
      apply list_elem_of_fmap in Hin as (r & [= Hk Hrow] & Hin).
      exists r. split; [done |]. split; [| done].
      by rewrite Hk, round_10min_idem.
    + apply Forall_forall. intros t' Ht'.
      apply list_elem_of_lookup in Ht' as [i Hi].
      destruct (Forall2_lookup_r _ _ _ _ _ H2 Hi) as (k & _ & <- & Hin).
      unfold tr in Hin. cbn in Hin.
      apply list_elem_of_fmap in Hin as (t & [= Hk Hrow] & Hin).
      exists t. split; [done |]. split; [| done].
      by rewrite Hk, round_10min_idem.
Qed.

(** When the rounded dates of the series are distinct, and so are those of
    the tides, the alignment gives two tables of the same length whose rows
    correspond: the row of the tide table at a position carries the rounded
    date of the row of the series at that position.  The loop over the
    transects then never fails on the tide mask. *)
Theorem aligned_tables_pair_equal_dates df tides :
  length (rows df) = length (rows tides) →
  NoDup (round_10min <$> index df) → NoDup (round_10min <$> index tides) →
  ∃ df' tides',
    align_dates df tides = Ok (df', tides') ∧
    Forall2 (λ r t, round_10min r.1 = t.1) (rows df') (rows tides') ∧
    Forall (λ r', ∃ r, r ∈ rows df ∧ round_10min r.1 = round_10min r'.1 ∧
                       r.2 = r'.2) (rows df') ∧
    Forall (λ t', ∃ t, t ∈ rows tides ∧ round_10min t.1 = round_10min t'.1 ∧
                       t.2 = t'.2) (rows tides') ∧
    ∀ key, ∃ inputs, valid_inputs df' tides' key = Ok inputs.
Proof.
  intros Hlen Hnd1 Hnd2.
  destruct (align_dates_distinct df tides Hlen Hnd1 Hnd2)
    as (df' & tides' & Halign & Hrows & Hdf & Htides).
  exists df', tides'. split; [done |]. split; [done |].
  split; [done |]. split; [done |].
  intros key. apply valid_inputs_same_length.
  by apply Forall2_length in Hrows.
Qed.
End align_facts.

(** The rounded dates of [csv0] and of [tides0] are distinct. *)
Lemma aligned_tables_pair_equal_dates_witness :
  length (rows (set_index_dates csv0)) = length (rows tides0) ∧
  NoDup (round_10min <$> index (set_index_dates csv0)) ∧
  NoDup (round_10min <$> index tides0) ∧
  ∃ df' tides',
    align_dates (set_index_dates csv0) tides0 = Ok (df', tides') ∧
    Forall2 (λ r t, round_10min r.1 = t.1) (rows df') (rows tides') ∧
    Forall (λ r', ∃ r, r ∈ rows (set_index_dates csv0) ∧
                       round_10min r.1 = round_10min r'.1 ∧
                       r.2 = r'.2) (rows df') ∧
    Forall (λ t', ∃ t, t ∈ rows tides0 ∧ round_10min t.1 = round_10min t'.1 ∧
                       t.2 = t'.2) (rows tides') ∧
    ∀ key, ∃ inputs, valid_inputs df' tides' key = Ok inputs.
Proof.
  assert (NoDup (round_10min <$> index (set_index_dates csv0))) as Hnd1
    by (apply (bool_decide_unpack _); vm_compute; exact I).
  assert (NoDup (round_10min <$> index tides0)) as Hnd2
    by (apply (bool_decide_unpack _); vm_compute; exact I).
  split; [reflexivity |]. split; [exact Hnd1 |]. split; [exact Hnd2 |].
  exact (aligned_tables_pair_equal_dates (set_index_dates csv0) tides0
           eq_refl Hnd1 Hnd2).
Defined.

Section stage_claim.
Context {F : Type} `{Float F} {Freq TS : Type}.
Variable find_tide_peak : list Z → list (option F) → result Freq.
Variable tide_correct : list F → list (option F) → TS.
Variable integrate_power_spectrum : list Z → TS → Freq → result (F * (F * F)).
Implicit Types (df tides : Frame Z F) (key : string).

End stage_claim.



(** ** Aggregation: the cell rule, repetition and order *)

Section unique_facts.
Context {K : Type} `{EqDecision K}.

Lemma unique_NoDup (l : list K) : NoDup (unique l).
Proof.
  induction l as [|k l IH]; cbn; constructor.
  - intros Hin. by apply list_elem_of_filter in Hin as [Hne _].
  - by apply NoDup_filter.
Qed.

Lemma intersection_NoDup (a b : list K) : NoDup (intersection a b).
Proof. apply NoDup_filter, unique_NoDup. Qed.
End unique_facts.

Section aggregate_rows.
Import aggregate_transects_wrapper.
Context {F : Type} `{Float F}.
Implicit Types (B M site_gdf : Frame string (value F)).
Implicit Types (that row : gmap string (value F)) (k c : string).

(** The cells of a base row after the inner loop over the columns. *)
#[local] Abbreviation set_cell that := (λ row c,
  match that !! c with Some v => <[c:=v]> row | None => row end).

Lemma foldl_set_cell_lookup that (cols : list string) row c :
  foldl (set_cell that) row cols !! c
  = if decide (c ∈ cols) then
      match that !! c with Some v => Some v | None => row !! c end
    else row !! c.
Proof.
  revert row. induction cols as [|c' cols IH]; intros row; cbn [foldl].
  - by rewrite decide_False by apply not_elem_of_nil.
  - rewrite IH. destruct (decide (c = c')) as [-> | Hne].
    + rewrite (decide_True (P := c' ∈ c' :: cols)) by left.
      destruct (that !! c') as [v|] eqn:Hv.
      * by case_decide; rewrite ?lookup_insert_eq.
      * by case_decide.
    + assert (c ∈ c' :: cols ↔ c ∈ cols) as Hiff by (rewrite elem_of_cons; tauto).
      rewrite (decide_ext _ _ _ _ Hiff).
      destruct (that !! c'); by rewrite ?lookup_insert_ne.
Qed.

Lemma foldl_set_cell that (cols : list string) row :
  foldl (set_cell that) row cols = update_row cols row that.
Proof.
  apply map_eq. intros c. by rewrite foldl_set_cell_lookup, update_row_lookup.
Qed.

Lemma frame_eta M : mkFrame (columns M) (numeric M) (rows M) = M.
Proof. by destruct M. Qed.

Lemma update_cell_rows site_gdf k that M c :
  loc_rows site_gdf k = [that] →
  update_cell site_gdf k M c
  = Ok (mkFrame (columns M) (numeric M)
          ((λ r, if decide (r.1 = k) then (r.1, set_cell that r.2 c) else r)
             <$> rows M)).
Proof.
  intros Hloc. unfold update_cell, loc. rewrite Hloc. cbn.
  destruct (that !! c) as [v|] eqn:Hv; [done |]. f_equal.
  rewrite <- (frame_eta M) at 1. f_equal.
  rewrite <- (list_fmap_id (rows M)) at 1. apply list_fmap_ext.
  intros i [k' row] _. cbn. by case_decide.
Qed.

Lemma inner_loop_rows site_gdf k that (cols : list string) M :
  loc_rows site_gdf k = [that] →
  for_each (update_cell site_gdf k) cols M
  = Ok (mkFrame (columns M) (numeric M)
          ((λ r, if decide (r.1 = k) then (r.1, update_row cols r.2 that) else r)
             <$> rows M)).
Proof.
  intros Hloc.
  assert (for_each (update_cell site_gdf k) cols M
          = Ok (mkFrame (columns M) (numeric M)
                  ((λ r, if decide (r.1 = k)
                         then (r.1, foldl (set_cell that) r.2 cols) else r)
                     <$> rows M))) as ->.
  { revert M. induction cols as [|c cols IH]; intros M; cbn [for_each].
    - f_equal. rewrite <- (frame_eta M) at 1. f_equal.
      rewrite <- (list_fmap_id (rows M)) at 1. apply list_fmap_ext.
      intros i [k' row] _. cbn. by case_decide.
    - rewrite (update_cell_rows _ _ _ _ _ Hloc). cbn [mbind result_bind].
      rewrite IH. cbn [columns numeric rows]. do 2 f_equal.
      rewrite <- list_fmap_compose. apply list_fmap_ext.
      intros i [k' row] _. cbn. destruct (decide (k' = k)) as [-> | Hne]; cbn.
      + by rewrite decide_True.
      + by rewrite decide_False. }
  do 2 f_equal. apply list_fmap_ext. intros i [k' row] _. cbn.
  case_decide; [| done]. by rewrite foldl_set_cell.
Qed.

Lemma aggregated_row_label cols site_gdf (r : string * gmap string (value F)) :
  (aggregated_row cols site_gdf r).1 = r.1.
Proof. unfold aggregated_row. by destruct (loc_rows site_gdf r.1) as [|? [|? ?]]. Qed.

Lemma outer_loop_rows site_gdf (cols ids : list string) M :
  NoDup (index site_gdf) → NoDup ids → Forall (λ k, k ∈ index site_gdf) ids →
  for_each (λ base k, for_each (update_cell site_gdf k) cols base) ids M
  = Ok (mkFrame (columns M) (numeric M)
          ((λ r, if decide (r.1 ∈ ids) then aggregated_row cols site_gdf r else r)
             <$> rows M)).
Proof.
  intros Hnd Hids Hall. revert M.
  induction Hall as [|k ids Hk _ IH]; intros M; cbn [for_each].
  - f_equal. rewrite <- (frame_eta M) at 1. f_equal.
    rewrite <- (list_fmap_id (rows M)) at 1. apply list_fmap_ext.
    intros i r _. cbn. by rewrite decide_False by apply not_elem_of_nil.
  - apply NoDup_cons in Hids as [Hfresh Hids].
    destruct (loc_rows_NoDup site_gdf k Hnd Hk) as (that & Hloc & _).
    rewrite (inner_loop_rows _ _ _ _ _ Hloc). cbn [mbind result_bind].
    rewrite IH by done. cbn [columns numeric rows]. do 2 f_equal.
    rewrite <- list_fmap_compose. apply list_fmap_ext.
    intros i [k' row] _. cbn. destruct (decide (k' = k)) as [-> | Hne]; cbn.
    + rewrite decide_False by done.
      rewrite (decide_True (P := k ∈ k :: ids)) by left.
      unfold aggregated_row. cbn. by rewrite Hloc.
    + assert (k' ∈ k :: ids ↔ k' ∈ ids) as Hiff by (rewrite elem_of_cons; tauto).
      by rewrite (decide_ext _ _ _ _ Hiff).
Qed.

(** What folding one per-site table into the base returns. *)
Lemma merge_site_rows (update_columns : option (list string)) B site_gdf :
  NoDup (index site_gdf) →
  merge_site update_columns B site_gdf
  = Ok (mkFrame (columns B) (numeric B)
          (aggregated_row (cols_to_update update_columns B site_gdf) site_gdf
             <$> rows B)).
Proof.
  intros Hnd. unfold merge_site.
  set (cols := cols_to_update update_columns B site_gdf).
  case_decide as Hcols.
  { f_equal. rewrite <- (frame_eta B) at 1. f_equal.
    rewrite <- (list_fmap_id (rows B)) at 1. apply list_fmap_ext.
    intros i [k row] _. cbn. unfold aggregated_row. rewrite Hcols. cbn.
    by destruct (loc_rows site_gdf k) as [|? [|? ?]]. }
  assert (∀ r, r ∈ rows B → r.1 ∉ index site_gdf →
            aggregated_row cols site_gdf r = r) as Hout.
  { intros r _ Hr. unfold aggregated_row. by rewrite loc_rows_not_elem. }
  case_decide as Hids.
  { f_equal. rewrite <- (frame_eta B) at 1. f_equal.
    rewrite <- (list_fmap_id (rows B)) at 1. apply list_fmap_ext.
    intros i r Hi. cbn. symmetry. apply Hout; [by eapply list_elem_of_lookup_2 |].
    intros Hin.
    assert (r.1 ∈ intersection (index B) (index site_gdf)) as Hcommon.
    { apply elem_of_intersection. split; [| done].
      apply list_elem_of_fmap. exists r. split; [done |].
      by eapply list_elem_of_lookup_2. }
    rewrite Hids in Hcommon. by apply elem_of_nil in Hcommon. }
  rewrite (outer_loop_rows site_gdf cols); [| done | apply intersection_NoDup |].
  - do 2 f_equal. apply list_fmap_ext. intros i r Hi. cbn.
    case_decide as Hin; [done |]. symmetry.
    apply Hout; [by eapply list_elem_of_lookup_2 |]. intros Hsite. apply Hin.
    apply elem_of_intersection. split; [| done].
    apply list_elem_of_fmap. exists r. split; [done |].
    by eapply list_elem_of_lookup_2.
  - apply Forall_forall. intros k Hk. by apply elem_of_intersection in Hk as [_ ?].
Qed.
End aggregate_rows.

Section aggregate_theorems.
Import aggregate_transects_wrapper.
Context {F : Type} `{Float F}.
Implicit Types (B M frag : Frame string (value F)).

Lemma aggregate_one (update_columns : option (list string)) B frag :
  NoDup (index frag) →
  aggregate_transects B [Some frag] update_columns
  = Ok (mkFrame (columns B) (numeric B)
          (aggregated_row (cols_to_update update_columns B frag) frag <$> rows B)).
Proof.
  intros Hnd. unfold aggregate_transects. cbn [for_each].
  by rewrite merge_site_rows.
Qed.

Lemma aggregate_two (update_columns : option (list string)) B frag1 frag2 :
  NoDup (index frag1) → NoDup (index frag2) →
  aggregate_transects B [Some frag1; Some frag2] update_columns
  = Ok (mkFrame (columns B) (numeric B)
          ((λ r, aggregated_row (cols_to_update update_columns B frag2) frag2
                   (aggregated_row (cols_to_update update_columns B frag1) frag1 r))
             <$> rows B)).
Proof.
  intros Hnd1 Hnd2. unfold aggregate_transects. cbn [for_each].
  rewrite merge_site_rows by done. cbn [mbind result_bind].
  rewrite merge_site_rows by done. cbn [columns numeric rows].
  by rewrite <- list_fmap_compose.
Qed.

(** The cell rule of the aggregation: in a column that is updated, a
    non-null cell of the per-site table replaces the cell of the base row of
    the same label; every other cell of the row keeps the base value. *)
Theorem aggregate_cell_rule B frag (update_columns : option (list string))
    (i : nat) (r : string * gmap string (value F))
    (rf : gmap string (value F)) (c : string) :
  NoDup (index frag) → rows B !! i = Some r → (r.1, rf) ∈ rows frag →
  ∃ M r', aggregate_transects B [Some frag] update_columns = Ok M ∧
    rows M !! i = Some r' ∧ r'.1 = r.1 ∧
    r'.2 !! c =
      if decide (c ∈ cols_to_update update_columns B frag) then
        match rf !! c with Some v => Some v | None => r.2 !! c end
      else r.2 !! c.
Proof.
  intros Hnd Hi Hrf. eexists _, _. split; [by apply aggregate_one |].
  cbn [rows]. rewrite list_lookup_fmap, Hi. cbn. split; [done |].
  destruct (loc_rows_NoDup frag r.1 Hnd) as (that & Hloc & Hthat).
  { apply list_elem_of_fmap. by exists (r.1, rf). }
  rewrite (rows_NoDup_eq frag r.1 that rf Hnd Hthat Hrf) in Hloc.
  unfold aggregated_row. rewrite Hloc. cbn. split; [done |].
  apply update_row_lookup.
Qed.

Lemma aggregated_row_twice (cols : list string) frag
    (r : string * gmap string (value F)) :
  aggregated_row cols frag (aggregated_row cols frag r) = aggregated_row cols frag r.
Proof.
  unfold aggregated_row at 2 3.
  destruct (loc_rows frag r.1) as [|that [|? ?]] eqn:Hloc;
    unfold aggregated_row; cbn; rewrite ?Hloc; try done.
  f_equal. apply map_eq. intros c. rewrite !update_row_lookup.
  case_decide; [| done]. by destruct (that !! c).
Qed.

(** Aggregating the same per-site table again changes nothing. *)
Theorem aggregate_again_changes_nothing B frag (update_columns : option (list string)) :
  NoDup (index frag) →
  ∃ M, aggregate_transects B [Some frag] update_columns = Ok M ∧
       aggregate_transects M [Some frag] update_columns = Ok M ∧
       aggregate_transects B [Some frag; Some frag] update_columns = Ok M.
Proof.
  intros Hnd. eexists. split; [by apply aggregate_one |]. split.
  - rewrite aggregate_one by done. cbn [columns numeric rows].
    do 2 f_equal. rewrite <- list_fmap_compose. apply list_fmap_ext.
    intros i r _. cbn. apply aggregated_row_twice.
  - rewrite aggregate_two by done. do 2 f_equal. apply list_fmap_ext.
    intros i r _. cbn. apply aggregated_row_twice.
Qed.

(** Per-site tables that share no transect can be aggregated in either
    order. *)
Theorem aggregate_order_of_disjoint_sites B frag1 frag2
    (update_columns : option (list string)) :
  NoDup (index frag1) → NoDup (index frag2) →
  (∀ k, k ∈ index frag1 → k ∉ index frag2) →
  ∃ M, aggregate_transects B [Some frag1; Some frag2] update_columns = Ok M ∧
       aggregate_transects B [Some frag2; Some frag1] update_columns = Ok M.
Proof.
  intros Hnd1 Hnd2 Hdisjoint. eexists. split; [by apply aggregate_two |].
  rewrite aggregate_two by done. do 2 f_equal. apply list_fmap_ext.
  intros i r _. cbn.
  set (cols1 := cols_to_update update_columns B frag1).
  set (cols2 := cols_to_update update_columns B frag2).
  destruct (decide (r.1 ∈ index frag1)) as [Hin | Hnin].
  - assert (aggregated_row cols2 frag2 r = r) as ->.
    { unfold aggregated_row. by rewrite loc_rows_not_elem by auto. }
    symmetry. unfold aggregated_row at 1.
    rewrite aggregated_row_label, loc_rows_not_elem by auto. done.
  - assert (aggregated_row cols1 frag1 r = r) as ->.
    { unfold aggregated_row. by rewrite loc_rows_not_elem. }
    unfold aggregated_row at 1.
    by rewrite aggregated_row_label, loc_rows_not_elem.
Qed.
End aggregate_theorems.

(** The slope of the second transect of [base0] is replaced by that of
    [frag1]. *)
Lemma aggregate_cell_rule_witness :
  NoDup (index frag1) ∧
  ("nzd0002-0000",
   ({["site_id" := Str "nzd0002"; "beach_slope" := Num (7 # 100)%Q]}
      : gmap string (value Q))) ∈ rows frag1 ∧
  ∃ M r',
    aggregate_transects_wrapper.aggregate_transects base0 [Some frag1] None
      = Ok M ∧
    rows M !! 1%nat = Some r' ∧ r'.1 = "nzd0002-0000" ∧
    r'.2 !! "beach_slope" = Some (Num (7 # 100)%Q).
Proof.
  assert (NoDup (index frag1)) as Hnd
    by (apply (bool_decide_unpack _); vm_compute; exact I).
  assert (("nzd0002-0000",
           ({["site_id" := Str "nzd0002"; "beach_slope" := Num (7 # 100)%Q]}
              : gmap string (value Q))) ∈ rows frag1) as Hin by left.
  split; [exact Hnd |]. split; [exact Hin |].
  exact (aggregate_cell_rule base0 frag1 None 1
           ("nzd0002-0000",
            {["site_id" := Str "nzd0002"; "beach_slope" := Num (1 # 20)%Q]})
           {["site_id" := Str "nzd0002"; "beach_slope" := Num (7 # 100)%Q]}
           "beach_slope" Hnd eq_refl Hin).
Defined.

(** The transect of [frag1] is one. *)
Lemma aggregate_again_changes_nothing_witness :
  NoDup (index frag1) ∧
  ∃ M,
    aggregate_transects_wrapper.aggregate_transects base0 [Some frag1] None
      = Ok M ∧
    aggregate_transects_wrapper.aggregate_transects M [Some frag1] None
      = Ok M ∧
    aggregate_transects_wrapper.aggregate_transects base0
      [Some frag1; Some frag1] None = Ok M.
Proof.
  assert (NoDup (index frag1)) as Hnd
    by (apply (bool_decide_unpack _); vm_compute; exact I).
  split; [exact Hnd |].
  exact (aggregate_again_changes_nothing base0 frag1 None Hnd).
Defined.

(** [frag0] and [frag1] are the tables of two sites. *)
Lemma aggregate_order_of_disjoint_sites_witness :
  NoDup (index frag0) ∧ NoDup (index frag1) ∧
  Forall (λ k, k ∉ index frag1) (index frag0) ∧
  ∃ M,
    aggregate_transects_wrapper.aggregate_transects base0
      [Some frag0; Some frag1] None = Ok M ∧
    aggregate_transects_wrapper.aggregate_transects base0
      [Some frag1; Some frag0] None = Ok M.
Proof.
  assert (NoDup (index frag0)) as Hnd0
    by (apply (bool_decide_unpack _); vm_compute; exact I).
  assert (NoDup (index frag1)) as Hnd1
    by (apply (bool_decide_unpack _); vm_compute; exact I).
  assert (Forall (λ k, k ∉ index frag1) (index frag0)) as Hdisjoint
    by (apply (bool_decide_unpack _); vm_compute; exact I).
  split; [exact Hnd0 |]. split; [exact Hnd1 |]. split; [exact Hdisjoint |].
  exact (aggregate_order_of_disjoint_sites base0 frag0 frag1 None Hnd0 Hnd1
           (proj1 (Forall_forall _ _) Hdisjoint)).
Defined.

(** ** Trend merge: rows with equal statistics *)

Section twins.
Context {K V : Type} `{EqDecision K} `{EqDecision V}.
Implicit Types (rs pre rest : list (K * gmap string V)).

(** [drop_duplicates] drops a row whose cells are those of an earlier
    row. *)
Lemma keep_first_drops_twin pre (k1 k2 : K) (stats : gmap string V) rest :
  k2 ∉ pre.*1 → k1 ≠ k2 → (∀ row, (k2, row) ∈ rest → row = stats) →
  k2 ∉ (keep_first (pre ++ (k1, stats) :: rest)).*1.
Proof.
  intros Hpre Hne Hrest. induction pre as [|p pre IH]; cbn [app keep_first].
  - rewrite fmap_cons. intros [Heq | Hin]%elem_of_cons; [by apply Hne |].
    apply list_elem_of_fmap in Hin as ([k row] & -> & Hin). cbn in *.
    apply list_elem_of_filter in Hin as [Hdiff Hin]. cbn in Hdiff.
    apply Hdiff, Hrest. by apply (sublist_subseteq _ _ (keep_first_sublist rest)).
  - rewrite fmap_cons in Hpre |- *. apply not_elem_of_cons in Hpre as [Hp Hpre].
    intros [Heq | Hin]%elem_of_cons; [done |]. apply (IH Hpre).
    apply list_elem_of_fmap in Hin as (r & -> & Hin).
    apply list_elem_of_filter in Hin as [_ Hin].
    apply list_elem_of_fmap. by exists r.
Qed.
End twins.

Section twin_statistics.
Import linear_models.
Context {F : Type} `{Float F}.
Implicit Types (B M trends : Frame string (value F)).

(** The trend merge updates the base with the trend table less its
    duplicate rows, and rows are compared by their cells alone: a transect
    whose statistics are all those of an earlier transect of the table is
    left out of the update, and its row keeps every cell the base had. *)
Theorem twin_statistics_are_not_updated B trends
    (pre mid post : list (string * gmap string (value F)))
    (k1 k2 : string) (stats : gmap string (value F))
    (i : nat) (r : string * gmap string (value F)) :
  NoDup (index trends) →
  rows trends = pre ++ (k1, stats) :: mid ++ (k2, stats) :: post →
  rows B !! i = Some r → r.1 = k2 →
  ∃ M r', calculate_linear_models B [trends] = Ok M ∧
    rows M !! i = Some r' ∧ r'.1 = k2 ∧
    ∀ c, c ∈ columns B → r'.2 !! c = r.2 !! c.
Proof.
  intros Hnd Hrows Hi Hk. unfold calculate_linear_models.
  assert (rows trends ≠ []) as Hne by (rewrite Hrows; by destruct pre).
  rewrite filter_cons_True, filter_nil, decide_False by done.
  set (tr := concat [trends]).
  assert (rows tr = rows trends) as Htr by apply concat_singleton.
  assert (NoDup (index tr)) as Hnd' by (unfold index; by rewrite Htr).
  assert (k2 ∉ index (drop_duplicates tr)) as Hout.
  { unfold index, drop_duplicates. cbn [rows]. rewrite Htr, Hrows.
    unfold index in Hnd. rewrite Hrows in Hnd.
    rewrite fmap_app, fmap_cons, fmap_app, fmap_cons in Hnd. cbn in Hnd.
    apply NoDup_app in Hnd as (_ & Hpre & Hnd).
    apply NoDup_cons in Hnd as [Hk1 Hnd].
    apply NoDup_app in Hnd as (_ & Hmid & Hnd).
    apply NoDup_cons in Hnd as [Hk2 _].
    apply keep_first_drops_twin.
    - intros Hin. apply (Hpre k2 Hin). right. apply elem_of_app. right. left.
    - intros ->. apply Hk1. apply elem_of_app. right. left.
    - intros row [Hin | Hin]%elem_of_app.
      + exfalso. apply (Hmid k2); [| left].
        apply list_elem_of_fmap. by exists (k2, row).
      + apply elem_of_cons in Hin as [[= ->] | Hin]; [done |].
        exfalso. apply Hk2. apply list_elem_of_fmap. by exists (k2, row). }
  destruct (update_ok B (drop_duplicates tr)) as (M1 & -> & HM1).
  { by apply drop_duplicates_NoDup. }
  cbn [mbind result_bind].
  destruct (merged_frame_lookup _ _ _ _ _ _ HM1 Hi) as (r1 & Hi1 & Hrow).
  assert (r1.1 = k2) as Hk1 by (rewrite <- Hk; apply Hrow).
  assert (∀ c, r1.2 !! c = r.2 !! c) as Hcells.
  { intros c. apply (merged_row_uncovered _ _ _ _ c Hrow I). by rewrite Hk. }
  destruct HM1 as (HcM1 & _ & _).
  case_decide as Hnew.
  { exists M1, r1. split; [done |]. split; [done |]. split; [done |]. eauto. }
  set (new_columns := filter (λ c, c ∉ columns M1) (columns tr)) in *.
  pose proof (join_rows M1 (select_columns tr new_columns)) as Hjoin.
  rewrite select_columns_index in Hjoin. specialize (Hjoin Hnd').
  destruct (Forall2_lookup_l _ _ _ _ _ Hjoin Hi1) as (r' & Hi' & Hk' & Hc').
  exists (join M1 (select_columns tr new_columns)), r'.
  split; [done |]. split; [done |]. split; [congruence |].
  intros c Hc. rewrite Hc'. rewrite decide_False; [apply Hcells |].
  cbn. intros Hin. apply list_elem_of_filter in Hin as [Hin _].
  apply Hin. by rewrite HcM1.
Qed.
End twin_statistics.

(** Both transects of [twin_trends0] have the trend 3: the second keeps the
    trend 2 of the base. *)
Lemma twin_statistics_are_not_updated_witness :
  NoDup (index twin_trends0) ∧
  rows twin_trends0
    = [] ++ ("nzd0001-0000", {["trend" := Num 3%Q]})
         :: [] ++ ("nzd0001-0001", {["trend" := Num 3%Q]}) :: [] ∧
  ∃ M r',
    linear_models.calculate_linear_models base_trends0 [twin_trends0]
      = Ok M ∧
    rows M !! 1%nat = Some r' ∧ r'.1 = "nzd0001-0001" ∧
    ∀ c, c ∈ columns base_trends0 →
      r'.2 !! c
      = ({["site_id" := Str "nzd0001"; "trend" := Num 2%Q]}
           : gmap string (value Q)) !! c.
Proof.
  assert (NoDup (index twin_trends0)) as Hnd
    by (apply (bool_decide_unpack _); vm_compute; exact I).
  split; [exact Hnd |]. split; [reflexivity |].
  exact (twin_statistics_are_not_updated base_trends0 twin_trends0 [] [] []
           "nzd0001-0000" "nzd0001-0001" {["trend" := Num 3%Q]} 1
           ("nzd0001-0001", {["site_id" := Str "nzd0001"; "trend" := Num 2%Q]})
           Hnd eq_refl eq_refl eq_refl).
Defined.

(** ** Trends *)

Section mapM_facts.
Context {A B : Type}.

Lemma mapM_result (f : A → result B) (l : list A) :
  match mapM f l with
  | Ok l' => Forall2 (λ x y, f x = Ok y) l l'
  | Raise e => ∃ x, x ∈ l ∧ f x = Raise e
  end.
Proof.
  induction l as [|x l IH]; cbn; [constructor |].
  destruct (f x) as [y|e] eqn:Hx; cbn; [| exists x; split; [left | done]].
  destruct (mapM f l) as [l'|e]; cbn.
  - by constructor.
  - destruct IH as (x' & Hin & Hx'). exists x'. split; [by right | done].
Qed.
End mapM_facts.

Section trend_facts.
Context {F : Type} `{Float F}.
Variable days_per_year : F.
Variable LinearRegression : list (option F * F) → result (regression F).

#[local] Abbreviation trend_of := (transect_trend days_per_year LinearRegression).

Lemma cells_lookup (l : list (string * option F)) (c : string) (x : option F) :
  NoDup (l.*1) → (c, x) ∈ l → cells l !! c = Num <$> x.
Proof.
  intros Hnd Hin. unfold cells.
  set (kept := omap _ l).
  assert (kept.*1 `sublist_of` l.*1) as Hsub.
  { unfold kept. clear. induction l as [|[c' [x'|]] l IH]; cbn; [done | ..].
    - by apply sublist_skip.
    - by apply sublist_cons. }
  assert (NoDup (kept.*1)) as Hnd' by (by eapply sublist_NoDup).
  destruct x as [x|]; cbn.
  - apply elem_of_list_to_map; [done |]. apply list_elem_of_omap.
    by exists (c, Some x).
  - apply not_elem_of_list_to_map. intros Hc.
    apply list_elem_of_fmap in Hc as ([c' v] & -> & Hv). cbn in *.
    apply list_elem_of_omap in Hv as ([c2 [x2|]] & Hin2 & Hv); [| done].
    cbn in Hv. injection Hv as -> <-.
    pose proof (elem_of_list_to_map_1 (M := gmap string) _ _ _ Hnd Hin) as H1.
    pose proof (elem_of_list_to_map_1 (M := gmap string) _ _ _ Hnd Hin2) as H2.
    congruence.
Qed.

(** What [transect_trend] returns. *)
Lemma transect_trend_spec {K} (df : Frame (Z * K) F) (transect_id : string) :
  match trend_of df transect_id with
  | Ok None => dropna (column df transect_id) = []
  | Ok (Some (k, row)) =>
    k = transect_id ∧ dropna (column df transect_id) ≠ [] ∧
    row !! "n_points" = Some (Num (float_of_Z (Z.of_nat (length (rows df))))) ∧
    row !! "n_points_nonan"
      = Some (Num (float_of_Z
                     (Z.of_nat (length (dropna (column df transect_id))))))
  | Raise e => ∃ points, LinearRegression points = Raise e
  end.
Proof.
  unfold transect_trend. case_decide as Hlen.
  - by apply length_zero_iff_nil in Hlen.
  - destruct (LinearRegression _) as [m|e] eqn:Hfit; cbn [mbind result_bind];
      [| by eexists].
    split; [done |]. split; [by intros Heq; rewrite Heq in Hlen |].
    split.
    + apply (cells_lookup _ "n_points"
               (Some (float_of_Z (Z.of_nat (length (rows df)))))).
      * apply (bool_decide_unpack _). vm_compute. exact I.
      * do 2 right. left.
    + apply (cells_lookup _ "n_points_nonan"
               (Some (float_of_Z
                        (Z.of_nat (length (dropna (column df transect_id))))))).
      * apply (bool_decide_unpack _). vm_compute. exact I.
      * do 3 right. left.
Qed.

Lemma DataFrame_of_trends_rows (trends : list (string * gmap string (value F))) :
  rows (DataFrame_of_trends trends) = trends.
Proof. by destruct trends. Qed.

(** The trends of a list of transects: a row for each transect that has a
    chainage, in order. *)
Lemma trends_of_columns {K} (df : Frame (Z * K) F) (cols : list string)
    (trends : list (option (string * gmap string (value F)))) :
  Forall2 (λ c y, trend_of df c = Ok y) cols trends →
  (omap id trends).*1 = filter (λ c, dropna (column df c) ≠ []) cols ∧
  Forall (λ r,
      r.2 !! "n_points" = Some (Num (float_of_Z (Z.of_nat (length (rows df))))) ∧
      r.2 !! "n_points_nonan"
        = Some (Num (float_of_Z (Z.of_nat (length (dropna (column df r.1)))))))
    (omap id trends).
Proof.
  induction 1 as [|c y cols trends Hc _ [IH1 IH2]]; [done |].
  pose proof (transect_trend_spec df c) as Hspec.
  rewrite Hc in Hspec. destruct y as [[k row]|].
  - destruct Hspec as (-> & Hne & Hn & Hnn).
    rewrite filter_cons_True by done. cbn. rewrite IH1. split; [done |].
    by constructor.
  - rewrite filter_cons_False by (intros Hne; by apply Hne). done.
Qed.

(** [get_trends] gives a row for each transect column that has a chainage,
    in the order of the columns, and none for a column without one; the row
    counts the rows of the file in [n_points] and the chainages of the
    transect in [n_points_nonan].  A file that cannot be read gives no row.
    The call raises only when a fit does, or on a smoothed version without
    dates. *)
Theorem get_trends_rows (filepath : string)
    (file : stored (Frame (Z * option string) F))
    (smoothed : smoothed_file (Frame (Z * option string) F)) :
  match get_trends days_per_year LinearRegression filepath file smoothed with
  | Ok trends =>
    match file with
    | Stored df =>
      ∃ used, (used = df ∨ smoothed = Smoothed used) ∧
        index trends
          = filter (λ c, dropna (column used c) ≠ []) (transect_columns used) ∧
        Forall (λ r,
            r.2 !! "n_points"
              = Some (Num (float_of_Z (Z.of_nat (length (rows used))))) ∧
            r.2 !! "n_points_nonan"
              = Some (Num (float_of_Z
                             (Z.of_nat (length (dropna (column used r.1)))))))
          (rows trends)
    | _ => rows trends = []
    end
  | Raise e =>
    (∃ points, LinearRegression points = Raise e) ∨
    (e = AttributeError ∧ smoothed = SmoothedUndated)
  end.
Proof.
  unfold get_trends. destruct file as [| |df]; [done.. |].
  set (chosen := if decide _ then _ else Ok df).
  assert (match chosen with
          | Ok used => used = df ∨ smoothed = Smoothed used
          | Raise e => e = AttributeError ∧ smoothed = SmoothedUndated
          end) as Hchosen.
  { unfold chosen. case_decide; [| by left]. destruct smoothed; eauto. }
  destruct chosen as [used|e]; cbn [mbind result_bind]; [| by right].
  pose proof (mapM_result (trend_of used) (transect_columns used)) as HmapM.
  destruct (mapM _ _) as [trends|e]; cbn [mbind result_bind].
  - exists used. split; [done |].
    destruct (trends_of_columns used _ _ HmapM) as [Hidx Hall].
    unfold index. rewrite DataFrame_of_trends_rows. done.
  - left. destruct HmapM as (c & _ & Hc).
    pose proof (transect_trend_spec used c) as Hspec.
    by rewrite Hc in Hspec.
Qed.
End trend_facts.

Section update_exact.
Context {K V : Type} `{EqDecision K} `{EqDecision V}.
Implicit Types (self other M : Frame K V).

(** The cells [self.update(other)] leaves, for [other] with distinct
    labels. *)
Lemma update_rows self other :
  NoDup (index other) →
  ∃ M, update self other = Ok M ∧ columns M = columns self ∧
    Forall2 (λ r r', r'.1 = r.1 ∧ ∀ c,
       r'.2 !! c =
         if decide (c ∈ columns self ∧ c ∈ columns other) then
           match loc_rows other r.1 with
           | that :: _ =>
             match that !! c with Some v => Some v | None => r.2 !! c end
           | [] => r.2 !! c
           end
         else r.2 !! c)
      (rows self) (rows M).
Proof.
  intros Hnd. unfold update.
  destruct (reindex_spec other (index self) ∅ Hnd) as (o' & -> & _ & Hrows).
  cbn. eexists. split; [done |]. split; [done |]. cbn.
  unfold index in Hrows. apply Forall2_fmap_l in Hrows.
  revert Hrows. generalize (rows o'). induction (rows self) as [|r rs IH];
    intros os Hrows; inversion Hrows as [|? o ? os' [Hk Ho] Hrest]; subst; cbn;
    constructor; [| by apply IH].
  split; [done |]. intros c. cbn. rewrite update_row_lookup.
  assert (c ∈ filter (λ c, c ∈ columns other) (columns self)
          ↔ c ∈ columns self ∧ c ∈ columns other) as Hiff.
  { rewrite list_elem_of_filter. tauto. }
  rewrite (decide_ext _ _ _ _ Hiff). case_decide; [| done].
  destruct Ho as [Ho | [Hnin Ho]].
  - destruct (loc_rows_NoDup other r.1 Hnd) as (that & -> & Hthat).
    { apply list_elem_of_fmap. by exists (r.1, o.2). }
    by rewrite (rows_NoDup_eq other r.1 that o.2 Hnd Hthat Ho).
  - rewrite loc_rows_not_elem by done. by rewrite Ho, lookup_empty.
Qed.
End update_exact.

Section trends_wrapper_facts.
Import linear_models_wrapper.
Context {F : Type} `{Float F}.
Variable days_per_year : F.
Variable LinearRegression : list (option F * F) → result (regression F).
Implicit Types (transects transects_at_site : Frame string (value F)).
Implicit Types (df : Frame (Z * option string) F).

#[local] Abbreviation trend_of := (transect_trend days_per_year LinearRegression).
#[local] Abbreviation trends_of := (site_trends days_per_year LinearRegression).

Lemma site_trends_index transects_at_site df :
  (trends_of transects_at_site df).*1 `sublist_of` index transects_at_site.
Proof.
  unfold linear_models_wrapper.site_trends.
  transitivity (filter (λ t, t ∈ transect_columns df) (index transects_at_site));
    [| apply sublist_filter].
  induction (filter _ (index transects_at_site)) as [|t ts IH]; cbn; [done |].
  pose proof (transect_trend_spec days_per_year LinearRegression df t) as Hspec.
  destruct (trend_of df t) as [[[k row]|]|e]; cbn.
  - destruct Hspec as [-> _]. by apply sublist_skip.
  - by apply sublist_cons.
  - by apply sublist_cons.
Qed.

Lemma elem_of_site_trends transects_at_site df (k : string)
    (row : gmap string (value F)) :
  k ∈ index transects_at_site → k ∈ transect_columns df →
  trend_of df k = Ok (Some (k, row)) →
  (k, row) ∈ trends_of transects_at_site df.
Proof.
  intros Hk Hc Htrend. unfold linear_models_wrapper.site_trends.
  apply list_elem_of_omap. exists k. split; [| by rewrite Htrend].
  by apply list_elem_of_filter.
Qed.

(** The wrapper never fails on a fit that raises.  It writes the transects
    of the site, in their order, changing nothing outside the trend
    columns; and the statistics computed for a transect of the site that is
    a column of the series are in its row. *)
Theorem trends_wrapper_updates_site_rows (site_id : string)
    (file : stored (Frame (Z * option string) F)) transects :
  NoDup (index (at_site transects site_id)) →
  ∃ out,
    calculate_trends_for_site days_per_year LinearRegression site_id file transects
      = Ok out ∧
    Forall2 (λ rb rm,
        rm.1 = rb.1 ∧
        (∀ c, c ∉ trend_columns → rm.2 !! c = rb.2 !! c) ∧
        (∀ df row c v,
           file = Stored df → rb.1 ∈ transect_columns df →
           trend_of df rb.1 = Ok (Some (rb.1, row)) →
           c ∈ trend_columns → row !! c = Some v → rm.2 !! c = Some v))
      (rows (at_site transects site_id)) (rows out).
Proof.
  intros Hnd. unfold calculate_trends_for_site.
  set (base := at_site transects site_id) in *.
  assert (∀ df row (rb : string * gmap string (value F)),
            rb ∈ rows base → rb.1 ∈ transect_columns df →
            trend_of df rb.1 = Ok (Some (rb.1, row)) →
            (rb.1, row) ∈ trends_of base df) as Hin.
  { intros df row rb Hrb Hc Htrend. apply elem_of_site_trends; [| done..].
    apply list_elem_of_fmap. by exists rb. }
  case_decide as Hempty.
  { exists base. split; [done |]. rewrite Hempty. constructor. }
  destruct file as [| |df].
  1,2: exists base; split; [done |];
    apply Forall_Forall2_diag, Forall_forall; intros r _;
    split; [done |]; split; [done |]; by intros df ? ? ? [=].
  set (trends := trends_of base df).
  case_decide as Htrends.
  { exists base. split; [done |].
    apply Forall_Forall2_diag, Forall_forall. intros r Hr.
    split; [done |]. split; [done |]. intros df' row c v [= <-] Hc Htrend.
    pose proof (Hin df row r Hr Hc Htrend) as Hrow. fold trends in Hrow.
    rewrite Htrends in Hrow. by apply elem_of_nil in Hrow. }
  set (trends_df := mkFrame trend_columns trend_columns trends).
  assert (NoDup (index trends_df)) as Hnd'.
  { unfold index at 1, trends_df. cbn [rows].
    eapply sublist_NoDup; [exact Hnd | apply site_trends_index]. }
  set (common_columns := filter (λ c, c ∈ columns base) (columns trends_df)).
  set (common := select_columns trends_df common_columns).
  assert (∃ M1, (if decide (common_columns = []) then Ok base
                 else update base common) = Ok M1 ∧
            columns M1 = columns base ∧
            Forall2 (λ r r', r'.1 = r.1 ∧ ∀ c,
               r'.2 !! c =
                 if decide (c ∈ columns base ∧ c ∈ trend_columns) then
                   match loc_rows trends_df r.1 with
                   | that :: _ =>
                     match that !! c with Some v => Some v | None => r.2 !! c end
                   | [] => r.2 !! c
                   end
                 else r.2 !! c)
              (rows base) (rows M1)) as (M1 & -> & HcM1 & HM1).
  { case_decide as Hcommon.
    - exists base. split; [done |]. split; [done |].
      apply Forall_Forall2_diag, Forall_forall. intros r _. split; [done |].
      intros c. case_decide as Hc; [| done]. exfalso.
      assert (c ∈ common_columns) as Hcc
        by (apply list_elem_of_filter; tauto).
      rewrite Hcommon in Hcc. by apply elem_of_nil in Hcc.
    - destruct (update_rows base common) as (M1 & HM1 & HcM1 & Hrows).
      { unfold common. by rewrite select_columns_index. }
      exists M1. split; [done |]. split; [done |].
      eapply Forall2_impl; [exact Hrows |]. cbv beta. intros r r' [Hk Hcells].
      split; [done |]. intros c. rewrite Hcells.
      assert (c ∈ columns base ∧ c ∈ common_columns
              ↔ c ∈ columns base ∧ c ∈ trend_columns) as Hiff.
      { unfold common_columns. rewrite list_elem_of_filter. cbn. tauto. }
      rewrite (decide_ext _ _ _ _ Hiff).
      destruct (decide (c ∈ columns base ∧ c ∈ trend_columns)) as [Hc | Hc];
        [| done].
      unfold common. rewrite select_columns_loc_rows.
      destruct (loc_rows trends_df r.1) as [|that rest]; [done |].
      rewrite fmap_cons, lookup_select; [done |].
      apply list_elem_of_filter. tauto. }
  cbn [mbind result_bind].
  set (new_columns := filter (λ c, c ∉ columns M1) (columns trends_df)).
  assert (∀ rb r1 : string * gmap string (value F),
     rb ∈ rows base →
     (r1.1 = rb.1 ∧ ∀ c,
        r1.2 !! c =
          if decide (c ∈ columns base ∧ c ∈ trend_columns) then
            match loc_rows trends_df rb.1 with
            | that :: _ =>
              match that !! c with Some v => Some v | None => rb.2 !! c end
            | [] => rb.2 !! c
            end
          else rb.2 !! c) →
     (∀ c, c ∉ trend_columns → r1.2 !! c = rb.2 !! c) ∧
     (∀ df' row c v,
        Stored df = Stored df' → rb.1 ∈ transect_columns df' →
        trend_of df' rb.1 = Ok (Some (rb.1, row)) →
        c ∈ trend_columns → c ∈ columns base → row !! c = Some v →
        r1.2 !! c = Some v) ∧
     (∀ df' row, Stored df = Stored df' → rb.1 ∈ transect_columns df' →
        trend_of df' rb.1 = Ok (Some (rb.1, row)) →
        loc_rows trends_df rb.1 = [row])) as Hstep1.
  { intros rb r1 Hrb [Hk Hcells].
    assert (∀ df' row, Stored df = Stored df' → rb.1 ∈ transect_columns df' →
              trend_of df' rb.1 = Ok (Some (rb.1, row)) →
              loc_rows trends_df rb.1 = [row]) as Hloc.
    { intros df' row [= <-] Hc Htrend.
      pose proof (Hin df row rb Hrb Hc Htrend) as Hrow.
      destruct (loc_rows_NoDup trends_df rb.1 Hnd') as (that & -> & Hthat).
      { apply list_elem_of_fmap. by exists (rb.1, row). }
      by rewrite (rows_NoDup_eq trends_df rb.1 that row Hnd' Hthat Hrow). }
    split; [| split; [| done]].
    - intros c Hc. rewrite Hcells. rewrite decide_False; [done | tauto].
    - intros df' row c v Hdf Hcol Htrend Hc HcB Hv.
      rewrite Hcells, decide_True by done.
      by rewrite (Hloc df' row Hdf Hcol Htrend), Hv. }
  case_decide as Hnew.
  - exists M1. split; [done |].
    apply Forall2_same_length_lookup. split; [by eapply Forall2_length |].
    intros i rb r1 Hrb Hr1.
    destruct (Forall2_lookup_l _ _ _ _ _ HM1 Hrb) as (r1' & Hr1' & Hrel).
    assert (r1' = r1) as -> by congruence.
    destruct (Hstep1 rb r1 (list_elem_of_lookup_2 _ _ _ Hrb) Hrel)
      as (Hother & Hstat & _).
    split; [apply Hrel |]. split; [done |].
    intros df' row c v Hdf Hcol Htrend Hc Hv.
    apply (Hstat df' row c v Hdf Hcol Htrend Hc); [| done].
    destruct (decide (c ∈ columns base)) as [? | HcB]; [done |]. exfalso.
    assert (c ∈ new_columns) as Hcn.
    { apply list_elem_of_filter. split; [by rewrite HcM1 | done]. }
    rewrite Hnew in Hcn. by apply elem_of_nil in Hcn.
  - eexists. split; [done |].
    pose proof (join_rows M1 (select_columns trends_df new_columns)) as Hjoin.
    rewrite select_columns_index in Hjoin. specialize (Hjoin Hnd').
    apply Forall2_same_length_lookup. split.
    { rewrite (Forall2_length _ _ _ HM1). by eapply Forall2_length. }
    intros i rb rm Hrb Hrm.
    destruct (Forall2_lookup_l _ _ _ _ _ HM1 Hrb) as (r1 & Hr1 & Hrel).
    destruct (Forall2_lookup_l _ _ _ _ _ Hjoin Hr1) as (rm' & Hrm' & Hk & Hcells).
    assert (rm' = rm) as -> by congruence.
    destruct (Hstep1 rb r1 (list_elem_of_lookup_2 _ _ _ Hrb) Hrel)
      as (Hother & Hstat & Hloc).
    split; [by rewrite Hk; apply Hrel |]. split.
    + intros c Hc. rewrite Hcells. rewrite decide_False; [by apply Hother |].
      intros Hcn. change (c ∈ new_columns) in Hcn.
      apply list_elem_of_filter in Hcn as [_ ?]. done.
    + intros df' row c v Hdf Hcol Htrend Hc Hv. rewrite Hcells.
      destruct (decide (c ∈ columns base)) as [HcB | HcB].
      * rewrite decide_False; [by eapply Hstat |].
        intros Hcn. change (c ∈ new_columns) in Hcn.
        apply list_elem_of_filter in Hcn as [Hcn _].
        apply Hcn. by rewrite HcM1.
      * assert (c ∈ new_columns) as Hcn.
        { apply list_elem_of_filter. split; [by rewrite HcM1 | done]. }
        rewrite decide_True by done.
        rewrite select_columns_loc_rows. destruct Hrel as [-> _].
        rewrite (Hloc df' row Hdf Hcol Htrend), fmap_cons.
        by rewrite lookup_select.
Qed.
End trends_wrapper_facts.

(** The transects of the site of [transects1] are distinct. *)
Lemma trends_wrapper_updates_site_rows_witness :
  NoDup (index (at_site transects1 "nzd0001")) ∧
  ∃ out,
    linear_models_wrapper.calculate_trends_for_site (1461 # 4)%Q constant_line
      "nzd0001" (Stored corrected1) transects1
      = Ok out ∧
    Forall2 (λ rb rm,
        rm.1 = rb.1 ∧
        (∀ c, c ∉ trend_columns → rm.2 !! c = rb.2 !! c) ∧
        (∀ df row c v,
           Stored corrected1 = Stored df → rb.1 ∈ transect_columns df →
           transect_trend (1461 # 4)%Q constant_line df rb.1
             = Ok (Some (rb.1, row)) →
           c ∈ trend_columns → row !! c = Some v → rm.2 !! c = Some v))
      (rows (at_site transects1 "nzd0001")) (rows out).
Proof.
  assert (NoDup (index (at_site transects1 "nzd0001"))) as Hnd
    by (apply (bool_decide_unpack _); vm_compute; exact I).
  split; [exact Hnd |].
  exact (trends_wrapper_updates_site_rows (1461 # 4)%Q constant_line "nzd0001"
           (Stored corrected1) transects1 Hnd).
Defined.
